(** * useTimelineScroll: the scroll coordination engine of the timeline board

    A shallow embedding of [src/useTimelineScroll.ts].  The hook keeps its
    state in React refs and registers closures with the browser (timers,
    animation frames, window listeners); here the refs, the React state cell,
    the three wired DOM elements and the browser's pending callbacks form one
    [World], and every handler is a computation in a small state-and-log
    monad over it.  The log records, in order, the host callbacks invoked
    and the DOM requests made.

    JavaScript numbers that hold pixels, pointer coordinates and timestamps
    are integers of [Z]; the one quotient the source computes, half the pane
    width, is a rational of [Q].  The resize observer and [viewportH] take no
    part in scrolling and are left out.  A host callback that is not
    supplied ([onReachStart?.()]) swallows its notification; the log records
    the notification the hook emits.

    The layout arithmetic of [TimelineBoard.tsx] that feeds the hook (the
    chart's width, the bars, the today marker), its wheel listener and its
    row reordering, and the viewport expansion of the host [App] are
    embedded as well; numbers that JavaScript computes from dates can be
    NaN and are of [option Z]. *)

From Stdlib Require Import ZArith QArith List Bool String Lia.
From Stdlib Require Import DecimalString Permutation.
Import ListNotations.
Local Open Scope string_scope.
Local Open Scope list_scope.
Local Open Scope Z_scope.

(** ** Constants *)

Definition TWELVE_MONTHS_IN_DAYS : Z := 360.
Definition RIGHT_EDGE_THRESHOLD_PX : Z := 480.
Definition SCROLL_STOP_DEBOUNCE_MS : Z := 150.
Definition MILLISECONDS_IN_DAY : Z := 86400000.

(** ** Dates (the part of [Date] and date-fns the hook uses) *)

(** A [Date] object wraps a time value in milliseconds, or NaN
    ("Invalid Date"). *)
Inductive Date :=
| ValidDate (time : Z)
| InvalidDate.

Definition isValid (d : Date) : bool :=
  match d with ValidDate _ => true | InvalidDate => false end.

(** Comparisons of time values; any comparison with NaN is false. *)
Definition isBefore (d c : Date) : bool :=
  match d, c with
  | ValidDate a, ValidDate b => a <? b
  | _, _ => false
  end.

Definition isAfter (d c : Date) : bool :=
  match d, c with
  | ValidDate a, ValidDate b => a >? b
  | _, _ => false
  end.

(** date-fns counts calendar days on the local clock; [tz] is the zone's
    offset from UTC in milliseconds (a zone without clock changes).  [None]
    is NaN. *)
Definition differenceInCalendarDays (tz : Z) (l r : Date) : option Z :=
  match l, r with
  | ValidDate a, ValidDate b =>
      Some ((a + tz) / MILLISECONDS_IN_DAY - (b + tz) / MILLISECONDS_IN_DAY)
  | _, _ => None
  end.

Definition clampDate (d start end_ : Date) : Date :=
  if isBefore d start then start
  else if isAfter d end_ then end_
  else d.

(** ** Tasks and viewport *)

(** dnd-kit's [UniqueIdentifier] is [string | number]. *)
Inductive UniqueIdentifier :=
| IdString (s : string)
| IdNumber (n : Z).

(** [String(id)]: a string is itself, an integer prints in decimal. *)
Definition String_ (id : UniqueIdentifier) : string :=
  match id with
  | IdString s => s
  | IdNumber n => NilZero.string_of_int (Z.to_int n)
  end.

Record TimelineTask := {
  id : UniqueIdentifier;
  title : string;
  start : option Date;
  end_ : option Date;
  baseIndex : Z;
  isSentinel : option bool
}.

Record TimelineViewport := {
  vp_start : Date;
  vp_end : Date;
  vp_pxPerDay : option Z
}.

(** [viewport.pxPerDay ?? 16] *)
Definition pxPerDay (viewport : TimelineViewport) : Z :=
  match vp_pxPerDay viewport with Some p => p | None => 16 end.

Definition twelveMonthsPx (viewport : TimelineViewport) : Z :=
  TWELVE_MONTHS_IN_DAYS * pxPerDay viewport.

(** ** The DOM the hook is wired to *)

(** [TimelineBoard] attaches [leftScrollerRef] and [handleLeftScroll] to the
    row list, [scrollerRef] and [handleRightScroll] to the chart scroller,
    and [handlePointerDown] to the chart surface inside it. *)
Inductive Node := LeftScroller | Scroller | Surface.

Record Element := {
  scrollLeft : Z;
  scrollTop : Z;
  scrollWidth : Z;
  scrollHeight : Z;
  clientWidth : Z;
  clientHeight : Z;
  cursor : string          (* style.cursor *)
}.

Record DOM := {
  leftScrollerEl : Element;
  scrollerEl : Element;
  surfaceEl : Element
}.

Definition getEl (d : DOM) (n : Node) : Element :=
  match n with
  | LeftScroller => leftScrollerEl d
  | Scroller => scrollerEl d
  | Surface => surfaceEl d
  end.

Definition setEl (d : DOM) (n : Node) (e : Element) : DOM :=
  match n with
  | LeftScroller => {| leftScrollerEl := e; scrollerEl := scrollerEl d; surfaceEl := surfaceEl d |}
  | Scroller => {| leftScrollerEl := leftScrollerEl d; scrollerEl := e; surfaceEl := surfaceEl d |}
  | Surface => {| leftScrollerEl := leftScrollerEl d; scrollerEl := scrollerEl d; surfaceEl := e |}
  end.

(** The browser keeps a scroll offset inside the scrollable range: an
    assignment to [scrollLeft] or [scrollTop] stores the clamped value. *)
Definition clampRange (v hi : Z) : Z := Z.max 0 (Z.min v hi).

Definition maxScrollLeft (e : Element) : Z := Z.max 0 (scrollWidth e - clientWidth e).
Definition maxScrollTop (e : Element) : Z := Z.max 0 (scrollHeight e - clientHeight e).

Definition assign_scrollLeft (v : Z) (e : Element) : Element :=
  {| scrollLeft := clampRange v (maxScrollLeft e); scrollTop := scrollTop e;
     scrollWidth := scrollWidth e; scrollHeight := scrollHeight e;
     clientWidth := clientWidth e; clientHeight := clientHeight e;
     cursor := cursor e |}.

Definition assign_scrollTop (v : Z) (e : Element) : Element :=
  {| scrollLeft := scrollLeft e; scrollTop := clampRange v (maxScrollTop e);
     scrollWidth := scrollWidth e; scrollHeight := scrollHeight e;
     clientWidth := clientWidth e; clientHeight := clientHeight e;
     cursor := cursor e |}.

Definition assign_cursor (c : string) (e : Element) : Element :=
  {| scrollLeft := scrollLeft e; scrollTop := scrollTop e;
     scrollWidth := scrollWidth e; scrollHeight := scrollHeight e;
     clientWidth := clientWidth e; clientHeight := clientHeight e;
     cursor := c |}.

(** ** Events and closures *)

(** The payload handed to [onScrollLeft]: the React event of a native
    scroll, or the object built by [createSyntheticScrollEvent]. *)
Inductive UIEvent :=
| NativeEvent (currentTarget : Node)
| SyntheticEvent (currentTarget target : Node).

Definition createSyntheticScrollEvent (scroller : Node) : UIEvent :=
  SyntheticEvent scroller scroller.

Inductive PointerType := Mouse | Touch | Pen.

Record PointerEvent := {
  button : Z;
  pointerType : PointerType;
  pointerId : Z;
  clientX : Z;
  pe_currentTarget : Node
}.

Record ScrollState := {
  ss_scroller : Node;
  ss_currentScrollLeft : Z;
  ss_prevScrollLeft : Z
}.

Record OnScrollLeftArgs := {
  currentScrollLeft : Z;
  prevScrollLeft : Z;
  scrollDelta : Z;
  scroller : Node;
  event : UIEvent
}.

(** A pending [setTimeout]: the handle, the delay, and the [event] the stop
    callback closed over. *)
Record Timer := {
  handle : positive;
  delay : Z;
  timer_event : UIEvent
}.

(** The variables one [handlePointerDown] call closes over.  [panning] is
    the only one its handlers assign. *)
Record Drag := {
  startX : Z;
  startScrollLeft : Z;
  panning : bool;
  drag_scroller : Node;
  el : Node;
  prevCursor : string
}.

Inductive WindowEventType := pointermove | pointerup | pointercancel.

Definition WindowEventType_eqb (a b : WindowEventType) : bool :=
  match a, b with
  | pointermove, pointermove | pointerup, pointerup
  | pointercancel, pointercancel => true
  | _, _ => false
  end.

(** A listener function is one of the two closures of drag number [n]. *)
Inductive ListenerFn := HandleMove (n : nat) | HandleEnd (n : nat).

Definition ListenerFn_eqb (a b : ListenerFn) : bool :=
  match a, b with
  | HandleMove n, HandleMove m | HandleEnd n, HandleEnd m => Nat.eqb n m
  | _, _ => false
  end.

Definition Listener : Type := WindowEventType * ListenerFn.

Definition Listener_eqb (a b : Listener) : bool :=
  WindowEventType_eqb (fst a) (fst b) && ListenerFn_eqb (snd a) (snd b).

Inductive Behavior := smooth | instant.

(** What a handler does that the outside can see. *)
Inductive Effect :=
| OnReachStart
| OnReachEnd
| OnStopScrollingLeft
| OnScrollLeft (args : OnScrollLeftArgs)
| WriteScrollTop (target : Node) (v : Z)
| WriteScrollLeft (target : Node) (v : Z)
| WriteCursor (target : Node) (c : string)
| ScrollTo (target : Node) (left : Q) (behavior : Behavior)
| ScrollToNaN (target : Node) (behavior : Behavior)
| PreventDefault
| SetPointerCapture (target : Node) (pointerId : Z).

(** ** The world: refs, React state, DOM and the browser's pending callbacks *)

Record World := {
  (* refs to DOM elements; [None] until React mounts the element *)
  scrollerRef : option Node;
  leftScrollerRef : option Node;
  (* refs tracking scroll state *)
  syncingRef : bool;
  prevScrollLeftRef : Z;
  hasReachedEndRef : bool;
  scrollingLeftRef : bool;
  wasScrollingLeftRef : bool;
  scrollLeftTimeoutRef : option positive;
  lastScrollStateRef : option ScrollState;
  (* useState: the published scroll-left *)
  state_scrollLeft : Z;
  (* the browser *)
  dom : DOM;
  timers : list Timer;          (* pending setTimeout callbacks *)
  nextHandle : positive;        (* the handle the next setTimeout returns *)
  frames : nat;                 (* pending requestAnimationFrame callbacks *)
  drags : list Drag;            (* closure environments, by drag number *)
  listeners : list Listener     (* window's event listener list *)
}.

Definition with_syncingRef (v : bool) (w : World) : World :=
  {| scrollerRef := scrollerRef w; leftScrollerRef := leftScrollerRef w;
     syncingRef := v; prevScrollLeftRef := prevScrollLeftRef w;
     hasReachedEndRef := hasReachedEndRef w; scrollingLeftRef := scrollingLeftRef w;
     wasScrollingLeftRef := wasScrollingLeftRef w;
     scrollLeftTimeoutRef := scrollLeftTimeoutRef w;
     lastScrollStateRef := lastScrollStateRef w; state_scrollLeft := state_scrollLeft w;
     dom := dom w; timers := timers w; nextHandle := nextHandle w; frames := frames w;
     drags := drags w; listeners := listeners w |}.

Definition with_prevScrollLeftRef (v : Z) (w : World) : World :=
  {| scrollerRef := scrollerRef w; leftScrollerRef := leftScrollerRef w;
     syncingRef := syncingRef w; prevScrollLeftRef := v;
     hasReachedEndRef := hasReachedEndRef w; scrollingLeftRef := scrollingLeftRef w;
     wasScrollingLeftRef := wasScrollingLeftRef w;
     scrollLeftTimeoutRef := scrollLeftTimeoutRef w;
     lastScrollStateRef := lastScrollStateRef w; state_scrollLeft := state_scrollLeft w;
     dom := dom w; timers := timers w; nextHandle := nextHandle w; frames := frames w;
     drags := drags w; listeners := listeners w |}.

Definition with_hasReachedEndRef (v : bool) (w : World) : World :=
  {| scrollerRef := scrollerRef w; leftScrollerRef := leftScrollerRef w;
     syncingRef := syncingRef w; prevScrollLeftRef := prevScrollLeftRef w;
     hasReachedEndRef := v; scrollingLeftRef := scrollingLeftRef w;
     wasScrollingLeftRef := wasScrollingLeftRef w;
     scrollLeftTimeoutRef := scrollLeftTimeoutRef w;
     lastScrollStateRef := lastScrollStateRef w; state_scrollLeft := state_scrollLeft w;
     dom := dom w; timers := timers w; nextHandle := nextHandle w; frames := frames w;
     drags := drags w; listeners := listeners w |}.

Definition with_scrollingLeftRef (v : bool) (w : World) : World :=
  {| scrollerRef := scrollerRef w; leftScrollerRef := leftScrollerRef w;
     syncingRef := syncingRef w; prevScrollLeftRef := prevScrollLeftRef w;
     hasReachedEndRef := hasReachedEndRef w; scrollingLeftRef := v;
     wasScrollingLeftRef := wasScrollingLeftRef w;
     scrollLeftTimeoutRef := scrollLeftTimeoutRef w;
     lastScrollStateRef := lastScrollStateRef w; state_scrollLeft := state_scrollLeft w;
     dom := dom w; timers := timers w; nextHandle := nextHandle w; frames := frames w;
     drags := drags w; listeners := listeners w |}.

Definition with_wasScrollingLeftRef (v : bool) (w : World) : World :=
  {| scrollerRef := scrollerRef w; leftScrollerRef := leftScrollerRef w;
     syncingRef := syncingRef w; prevScrollLeftRef := prevScrollLeftRef w;
     hasReachedEndRef := hasReachedEndRef w; scrollingLeftRef := scrollingLeftRef w;
     wasScrollingLeftRef := v;
     scrollLeftTimeoutRef := scrollLeftTimeoutRef w;
     lastScrollStateRef := lastScrollStateRef w; state_scrollLeft := state_scrollLeft w;
     dom := dom w; timers := timers w; nextHandle := nextHandle w; frames := frames w;
     drags := drags w; listeners := listeners w |}.

Definition with_scrollLeftTimeoutRef (v : option positive) (w : World) : World :=
  {| scrollerRef := scrollerRef w; leftScrollerRef := leftScrollerRef w;
     syncingRef := syncingRef w; prevScrollLeftRef := prevScrollLeftRef w;
     hasReachedEndRef := hasReachedEndRef w; scrollingLeftRef := scrollingLeftRef w;
     wasScrollingLeftRef := wasScrollingLeftRef w;
     scrollLeftTimeoutRef := v;
     lastScrollStateRef := lastScrollStateRef w; state_scrollLeft := state_scrollLeft w;
     dom := dom w; timers := timers w; nextHandle := nextHandle w; frames := frames w;
     drags := drags w; listeners := listeners w |}.

Definition with_lastScrollStateRef (v : option ScrollState) (w : World) : World :=
  {| scrollerRef := scrollerRef w; leftScrollerRef := leftScrollerRef w;
     syncingRef := syncingRef w; prevScrollLeftRef := prevScrollLeftRef w;
     hasReachedEndRef := hasReachedEndRef w; scrollingLeftRef := scrollingLeftRef w;
     wasScrollingLeftRef := wasScrollingLeftRef w;
     scrollLeftTimeoutRef := scrollLeftTimeoutRef w;
     lastScrollStateRef := v; state_scrollLeft := state_scrollLeft w;
     dom := dom w; timers := timers w; nextHandle := nextHandle w; frames := frames w;
     drags := drags w; listeners := listeners w |}.

Definition with_state_scrollLeft (v : Z) (w : World) : World :=
  {| scrollerRef := scrollerRef w; leftScrollerRef := leftScrollerRef w;
     syncingRef := syncingRef w; prevScrollLeftRef := prevScrollLeftRef w;
     hasReachedEndRef := hasReachedEndRef w; scrollingLeftRef := scrollingLeftRef w;
     wasScrollingLeftRef := wasScrollingLeftRef w;
     scrollLeftTimeoutRef := scrollLeftTimeoutRef w;
     lastScrollStateRef := lastScrollStateRef w; state_scrollLeft := v;
     dom := dom w; timers := timers w; nextHandle := nextHandle w; frames := frames w;
     drags := drags w; listeners := listeners w |}.

Definition with_dom (v : DOM) (w : World) : World :=
  {| scrollerRef := scrollerRef w; leftScrollerRef := leftScrollerRef w;
     syncingRef := syncingRef w; prevScrollLeftRef := prevScrollLeftRef w;
     hasReachedEndRef := hasReachedEndRef w; scrollingLeftRef := scrollingLeftRef w;
     wasScrollingLeftRef := wasScrollingLeftRef w;
     scrollLeftTimeoutRef := scrollLeftTimeoutRef w;
     lastScrollStateRef := lastScrollStateRef w; state_scrollLeft := state_scrollLeft w;
     dom := v; timers := timers w; nextHandle := nextHandle w; frames := frames w;
     drags := drags w; listeners := listeners w |}.

Definition with_timers (v : list Timer) (n : positive) (w : World) : World :=
  {| scrollerRef := scrollerRef w; leftScrollerRef := leftScrollerRef w;
     syncingRef := syncingRef w; prevScrollLeftRef := prevScrollLeftRef w;
     hasReachedEndRef := hasReachedEndRef w; scrollingLeftRef := scrollingLeftRef w;
     wasScrollingLeftRef := wasScrollingLeftRef w;
     scrollLeftTimeoutRef := scrollLeftTimeoutRef w;
     lastScrollStateRef := lastScrollStateRef w; state_scrollLeft := state_scrollLeft w;
     dom := dom w; timers := v; nextHandle := n; frames := frames w;
     drags := drags w; listeners := listeners w |}.

Definition with_frames (v : nat) (w : World) : World :=
  {| scrollerRef := scrollerRef w; leftScrollerRef := leftScrollerRef w;
     syncingRef := syncingRef w; prevScrollLeftRef := prevScrollLeftRef w;
     hasReachedEndRef := hasReachedEndRef w; scrollingLeftRef := scrollingLeftRef w;
     wasScrollingLeftRef := wasScrollingLeftRef w;
     scrollLeftTimeoutRef := scrollLeftTimeoutRef w;
     lastScrollStateRef := lastScrollStateRef w; state_scrollLeft := state_scrollLeft w;
     dom := dom w; timers := timers w; nextHandle := nextHandle w; frames := v;
     drags := drags w; listeners := listeners w |}.

Definition with_drags (v : list Drag) (w : World) : World :=
  {| scrollerRef := scrollerRef w; leftScrollerRef := leftScrollerRef w;
     syncingRef := syncingRef w; prevScrollLeftRef := prevScrollLeftRef w;
     hasReachedEndRef := hasReachedEndRef w; scrollingLeftRef := scrollingLeftRef w;
     wasScrollingLeftRef := wasScrollingLeftRef w;
     scrollLeftTimeoutRef := scrollLeftTimeoutRef w;
     lastScrollStateRef := lastScrollStateRef w; state_scrollLeft := state_scrollLeft w;
     dom := dom w; timers := timers w; nextHandle := nextHandle w; frames := frames w;
     drags := v; listeners := listeners w |}.

Definition with_listeners (v : list Listener) (w : World) : World :=
  {| scrollerRef := scrollerRef w; leftScrollerRef := leftScrollerRef w;
     syncingRef := syncingRef w; prevScrollLeftRef := prevScrollLeftRef w;
     hasReachedEndRef := hasReachedEndRef w; scrollingLeftRef := scrollingLeftRef w;
     wasScrollingLeftRef := wasScrollingLeftRef w;
     scrollLeftTimeoutRef := scrollLeftTimeoutRef w;
     lastScrollStateRef := lastScrollStateRef w; state_scrollLeft := state_scrollLeft w;
     dom := dom w; timers := timers w; nextHandle := nextHandle w; frames := frames w;
     drags := drags w; listeners := v |}.

(** The hook as first rendered: every [useRef] and [useState] holds its
    initial value, nothing is pending in the browser. *)
Definition mount (scrollerRef0 leftScrollerRef0 : option Node) (d : DOM) : World :=
  {| scrollerRef := scrollerRef0; leftScrollerRef := leftScrollerRef0;
     syncingRef := false; prevScrollLeftRef := 0;
     hasReachedEndRef := false; scrollingLeftRef := false;
     wasScrollingLeftRef := false; scrollLeftTimeoutRef := None;
     lastScrollStateRef := None; state_scrollLeft := 0;
     dom := d; timers := []; nextHandle := 1%positive; frames := O;
     drags := []; listeners := [] |}.

(** ** A state-and-log monad for handlers *)

Definition M (A : Type) : Type := World -> A * World * list Effect.

Definition ret {A} (a : A) : M A := fun w => (a, w, []).

Definition bind {A B} (m : M A) (k : A -> M B) : M B :=
  fun w =>
    let '(a, w1, o1) := m w in
    let '(b, w2, o2) := k a w1 in
    (b, w2, o1 ++ o2).

Definition gets {A} (f : World -> A) : M A := fun w => (f w, w, []).
Definition modify (f : World -> World) : M unit := fun w => (tt, f w, []).
Definition emit (e : Effect) : M unit := fun w => (tt, w, [e]).

Definition exec {A} (m : M A) (w : World) : World := snd (fst (m w)).
Definition log {A} (m : M A) (w : World) : list Effect := snd (m w).

Declare Scope hook_scope.
Delimit Scope hook_scope with hook.
Notation "x <- m ;; k" := (bind m (fun x => k))
  (at level 61, m at next level, right associativity) : hook_scope.
Notation "m ;; k" := (bind m (fun _ => k))
  (at level 61, right associativity) : hook_scope.
Local Open Scope hook_scope.

(** ** Browser services *)

(** [setTimeout] returns a fresh handle; handles are positive, so a ref that
    holds one is truthy. *)
Definition setTimeout (ev : UIEvent) (ms : Z) : M positive :=
  fun w =>
    let h := nextHandle w in
    (h, with_timers (timers w ++ [{| handle := h; delay := ms; timer_event := ev |}])
                    (Pos.succ h) w, []).

Definition clearTimeout (h : positive) : M unit :=
  modify (fun w =>
    with_timers (filter (fun t => negb (Pos.eqb (handle t) h)) (timers w))
                (nextHandle w) w).

Definition requestAnimationFrame : M unit :=
  modify (fun w => with_frames (S (frames w)) w).

(** [addEventListener] ignores a listener already in the list. *)
Definition addEventListener (ty : WindowEventType) (fn : ListenerFn) : M unit :=
  modify (fun w =>
    if existsb (Listener_eqb (ty, fn)) (listeners w) then w
    else with_listeners (listeners w ++ [(ty, fn)]) w).

Definition removeEventListener (ty : WindowEventType) (fn : ListenerFn) : M unit :=
  modify (fun w =>
    with_listeners (filter (fun l => negb (Listener_eqb (ty, fn) l)) (listeners w)) w).

(** Assignments to DOM properties: stored in the DOM and logged. *)
Definition write_scrollTop (to : Node) (v : Z) : M unit :=
  modify (fun w => with_dom (setEl (dom w) to (assign_scrollTop v (getEl (dom w) to))) w) ;;
  emit (WriteScrollTop to v).

Definition write_scrollLeft (to : Node) (v : Z) : M unit :=
  modify (fun w => with_dom (setEl (dom w) to (assign_scrollLeft v (getEl (dom w) to))) w) ;;
  emit (WriteScrollLeft to v).

Definition write_cursor (to : Node) (c : string) : M unit :=
  modify (fun w => with_dom (setEl (dom w) to (assign_cursor c (getEl (dom w) to))) w) ;;
  emit (WriteCursor to c).

Definition read {A} (n : Node) (prop : Element -> A) : M A :=
  gets (fun w => prop (getEl (dom w) n)).

(** React's state setter. *)
Definition setScrollLeft (v : Z) : M unit := modify (with_state_scrollLeft v).

(** ** Helper functions: scroll detection *)

(** The callback handed to [setTimeout] by [checkAndHandleLeftScroll]; it
    closes over that call's [event]. *)
Definition stopCallback (event : UIEvent) : M unit :=
  was <- gets wasScrollingLeftRef ;;
  last <- gets lastScrollStateRef ;;
  match was, last with
  | true, Some st =>
      modify (with_wasScrollingLeftRef false) ;;
      emit (OnScrollLeft {| currentScrollLeft := ss_currentScrollLeft st;
                            prevScrollLeft := ss_prevScrollLeft st;
                            scrollDelta := 0;
                            scroller := ss_scroller st;
                            event := event |}) ;;
      emit OnStopScrollingLeft
  | _, _ => ret tt
  end.

Definition checkAndHandleLeftScroll (viewport : TimelineViewport)
    (currentScrollLeft prevScrollLeft : Z) (scroller : Node) (event : UIEvent)
  : M unit :=
  if currentScrollLeft >=? prevScrollLeft then
    (* Not scrolling left - reset state *)
    modify (with_scrollingLeftRef false) ;;
    modify (with_wasScrollingLeftRef false) ;;
    t <- gets scrollLeftTimeoutRef ;;
    match t with
    | Some h => clearTimeout h ;; modify (with_scrollLeftTimeoutRef None)
    | None => ret tt
    end
  else
    (* User is scrolling left *)
    let scrollDelta := prevScrollLeft - currentScrollLeft in
    emit (OnScrollLeft {| currentScrollLeft := currentScrollLeft;
                          prevScrollLeft := prevScrollLeft;
                          scrollDelta := scrollDelta;
                          scroller := scroller;
                          event := event |}) ;;
    modify (with_lastScrollStateRef
              (Some {| ss_scroller := scroller;
                       ss_currentScrollLeft := currentScrollLeft;
                       ss_prevScrollLeft := prevScrollLeft |})) ;;
    modify (with_wasScrollingLeftRef true) ;;
    sl <- gets scrollingLeftRef ;;
    (if negb sl && (currentScrollLeft <? twelveMonthsPx viewport) then
       modify (with_scrollingLeftRef true) ;;
       emit OnReachStart
     else ret tt) ;;
    t <- gets scrollLeftTimeoutRef ;;
    match t with
    | Some h => clearTimeout h
    | None => ret tt
    end ;;
    h <- setTimeout event SCROLL_STOP_DEBOUNCE_MS ;;
    modify (with_scrollLeftTimeoutRef (Some h)).

Definition checkAndHandleRightEdge (currentScrollLeft prevScrollLeft : Z)
    (scroller : Node) : M unit :=
  sw <- read scroller scrollWidth ;;
  cw <- read scroller clientWidth ;;
  let maxScroll := sw - cw in
  let isAtEdge := currentScrollLeft >=? maxScroll - RIGHT_EDGE_THRESHOLD_PX in
  let wasNotAtEdge := prevScrollLeft <? maxScroll - RIGHT_EDGE_THRESHOLD_PX in
  if isAtEdge && wasNotAtEdge then
    reached <- gets hasReachedEndRef ;;
    if negb reached then
      modify (with_hasReachedEndRef true) ;;
      emit OnReachEnd
    else ret tt
  else if negb isAtEdge then
    modify (with_hasReachedEndRef false)
  else ret tt.

Definition syncVerticalScroll (from to : Node) : M unit :=
  syncing <- gets syncingRef ;;
  if syncing then ret tt
  else
    modify (with_syncingRef true) ;;
    top <- read from scrollTop ;;
    write_scrollTop to top ;;
    requestAnimationFrame.

(** The callback handed to [requestAnimationFrame]. *)
Definition clearSyncing : M unit := modify (with_syncingRef false).

(** ** Handlers: navigation *)

Definition scrollTo (target : Node) (left : Q) (b : Behavior) : M unit :=
  emit (ScrollTo target left b).

Definition scrollToTask (tasks : list TimelineTask) (viewport : TimelineViewport)
    (tz : Z) (taskId : string) : M unit :=
  match find (fun t => String.eqb (String_ (id t)) taskId) tasks with
  | None => ret tt
  | Some task =>
      sc <- gets scrollerRef ;;
      match sc with
      | None => ret tt
      | Some scroller =>
          let start :=
            match start task with
            | Some d =>
                if isValid d
                then Some (clampDate d (vp_start viewport) (vp_end viewport))
                else None
            | None => None
            end in
          match start with
          | None => ret tt
          | Some start =>
              cw <- read scroller clientWidth ;;
              match differenceInCalendarDays tz start (vp_start viewport) with
              | Some days =>
                  let startOffset := Z.max 0 days * pxPerDay viewport in
                  let targetScrollLeft := (inject_Z startOffset - inject_Z cw / 2)%Q in
                  scrollTo scroller targetScrollLeft smooth
              | None => emit (ScrollToNaN scroller smooth)
              end
          end
      end
  end.

Definition handleBarDoubleClick (_taskId : string) (barLeftPx : Z) : M unit :=
  sc <- gets scrollerRef ;;
  match sc with
  | None => ret tt
  | Some scroller =>
      cw <- read scroller clientWidth ;;
      scrollTo scroller (inject_Z barLeftPx - inject_Z cw / 2)%Q smooth
  end.

(** ** Handlers: scroll events *)

Definition currentTargetOf (e : UIEvent) : Node :=
  match e with
  | NativeEvent n => n
  | SyntheticEvent n _ => n
  end.

Definition handleLeftScroll (e : UIEvent) : M unit :=
  let left_ := currentTargetOf e in
  r <- gets scrollerRef ;;
  match r with
  | None => ret tt
  | Some right_ => syncVerticalScroll left_ right_
  end.

Definition handleRightScroll (viewport : TimelineViewport) (e : UIEvent) : M unit :=
  let scroller := currentTargetOf e in
  currentScrollLeft <- read scroller scrollLeft ;;
  prevScrollLeft <- gets prevScrollLeftRef ;;
  setScrollLeft currentScrollLeft ;;
  checkAndHandleLeftScroll viewport currentScrollLeft prevScrollLeft scroller e ;;
  checkAndHandleRightEdge currentScrollLeft prevScrollLeft scroller ;;
  modify (with_prevScrollLeftRef currentScrollLeft) ;;
  l <- gets leftScrollerRef ;;
  match l with
  | Some left_ => syncVerticalScroll scroller left_
  | None => ret tt
  end.

(** ** Handlers: pointer drag panning *)

Definition set_panning (v : bool) (d : Drag) : Drag :=
  {| startX := startX d; startScrollLeft := startScrollLeft d; panning := v;
     drag_scroller := drag_scroller d; el := el d; prevCursor := prevCursor d |}.

Fixpoint update_nth {A} (n : nat) (f : A -> A) (l : list A) : list A :=
  match l, n with
  | [], _ => []
  | x :: r, O => f x :: r
  | x :: r, S m => x :: update_nth m f r
  end.

(** [handleMove] of drag number [n]. *)
Definition handleMove (viewport : TimelineViewport) (n : nat) (ev : PointerEvent)
  : M unit :=
  c <- gets (fun w => nth_error (drags w) n) ;;
  match c with
  | None => ret tt
  | Some d =>
      if negb (panning d) then ret tt
      else
        let scroller := drag_scroller d in
        let dx := clientX ev - startX d in
        let newScrollLeft := startScrollLeft d - dx in
        prevScrollLeft <- gets prevScrollLeftRef ;;
        write_scrollLeft scroller newScrollLeft ;;
        setScrollLeft newScrollLeft ;;
        let syntheticEvent := createSyntheticScrollEvent scroller in
        checkAndHandleLeftScroll viewport newScrollLeft prevScrollLeft scroller
                                 syntheticEvent ;;
        checkAndHandleRightEdge newScrollLeft prevScrollLeft scroller ;;
        modify (with_prevScrollLeftRef newScrollLeft)
  end.

(** [handleEnd] of drag number [n], registered for both [pointerup] and
    [pointercancel]. *)
Definition handleEnd (n : nat) : M unit :=
  c <- gets (fun w => nth_error (drags w) n) ;;
  match c with
  | None => ret tt
  | Some d =>
      modify (fun w => with_drags (update_nth n (set_panning false) (drags w)) w) ;;
      write_cursor (el d) (prevCursor d) ;;
      was <- gets wasScrollingLeftRef ;;
      last <- gets lastScrollStateRef ;;
      match was, last with
      | true, Some st =>
          modify (with_wasScrollingLeftRef false) ;;
          let syntheticEvent := createSyntheticScrollEvent (ss_scroller st) in
          emit (OnScrollLeft {| currentScrollLeft := ss_currentScrollLeft st;
                                prevScrollLeft := ss_prevScrollLeft st;
                                scrollDelta := 0;
                                scroller := ss_scroller st;
                                event := syntheticEvent |}) ;;
          emit OnStopScrollingLeft
      | _, _ => ret tt
      end ;;
      removeEventListener pointermove (HandleMove n) ;;
      removeEventListener pointerup (HandleEnd n) ;;
      removeEventListener pointercancel (HandleEnd n)
  end.

Definition isTouch (p : PointerType) : bool :=
  match p with Touch => true | _ => false end.

Definition handlePointerDown (e : PointerEvent) : M unit :=
  if negb (button e =? 0) && negb (isTouch (pointerType e)) then ret tt
  else
    sc <- gets scrollerRef ;;
    match sc with
    | None => ret tt
    | Some scroller =>
        emit PreventDefault ;;
        emit (SetPointerCapture (pe_currentTarget e) (pointerId e)) ;;
        startScrollLeft <- read scroller scrollLeft ;;
        let el := pe_currentTarget e in
        prevCursor <- read el cursor ;;
        write_cursor el "grabbing" ;;
        n <- gets (fun w => List.length (drags w)) ;;
        modify (fun w =>
          with_drags (drags w ++ [{| startX := clientX e;
                                     startScrollLeft := startScrollLeft;
                                     panning := true;
                                     drag_scroller := scroller;
                                     el := el;
                                     prevCursor := prevCursor |}]) w) ;;
        addEventListener pointermove (HandleMove n) ;;
        addEventListener pointerup (HandleEnd n) ;;
        addEventListener pointercancel (HandleEnd n)
    end.

(** ** The browser's event loop *)

Definition callListener (viewport : TimelineViewport) (fn : ListenerFn)
    (ev : PointerEvent) : M unit :=
  match fn with
  | HandleMove n => handleMove viewport n ev
  | HandleEnd n => handleEnd n
  end.

(** Dispatch walks the listener list as it was when dispatch began and skips
    a listener that has been removed meanwhile. *)
Fixpoint dispatchTo (viewport : TimelineViewport) (ty : WindowEventType)
    (ev : PointerEvent) (ls : list Listener) : M unit :=
  match ls with
  | [] => ret tt
  | l :: rest =>
      cur <- gets listeners ;;
      (if WindowEventType_eqb (fst l) ty && existsb (Listener_eqb l) cur
       then callListener viewport (snd l) ev
       else ret tt) ;;
      dispatchTo viewport ty ev rest
  end.

Definition dispatchWindowEvent (viewport : TimelineViewport)
    (ty : WindowEventType) (ev : PointerEvent) : M unit :=
  ls <- gets listeners ;;
  dispatchTo viewport ty ev ls.

(** A pending timer expires: the browser drops it and runs its callback. *)
Definition fireTimer (h : positive) : M unit :=
  ts <- gets timers ;;
  match find (fun t => Pos.eqb (handle t) h) ts with
  | Some t => clearTimeout h ;; stopCallback (timer_event t)
  | None => ret tt
  end.

Fixpoint runFrames (n : nat) : M unit :=
  match n with
  | O => ret tt
  | S k => clearSyncing ;; runFrames k
  end.

(** The next animation frame runs every callback requested so far. *)
Definition animationFrame : M unit :=
  n <- gets frames ;;
  modify (with_frames O) ;;
  runFrames n.

(** The browser moves a pane; the stored offset is clamped. *)
Definition browserScrollLeft (n : Node) (v : Z) : M unit :=
  modify (fun w => with_dom (setEl (dom w) n (assign_scrollLeft v (getEl (dom w) n))) w).

Definition browserScrollTop (n : Node) (v : Z) : M unit :=
  modify (fun w => with_dom (setEl (dom w) n (assign_scrollTop v (getEl (dom w) n))) w).

(** The [onScroll] props of [TimelineBoard]. *)
Definition onScroll (viewport : TimelineViewport) (n : Node) : M unit :=
  match n with
  | LeftScroller => handleLeftScroll (NativeEvent LeftScroller)
  | Scroller => handleRightScroll viewport (NativeEvent Scroller)
  | Surface => ret tt
  end.

Inductive Event :=
| UserScrollLeft (n : Node) (v : Z)     (* the user scrolls pane [n] horizontally to [v] *)
| UserScrollTop (n : Node) (v : Z)      (* ... vertically to [v] *)
| ScrollEvent (n : Node)                (* a scroll event with no further movement,
                                           as after a handler's own write *)
| PointerDown (e : PointerEvent)        (* on the chart surface *)
| WindowPointer (ty : WindowEventType) (ev : PointerEvent)
| Timeout (h : positive)
| AnimationFrame
| ScrollToTask (taskId : string)
| BarDoubleClick (taskId : string) (barLeftPx : Z).

Section Board.

Variable tasks : list TimelineTask.
Variable viewport : TimelineViewport.
Variable tz : Z.

Definition step (ev : Event) : M unit :=
  match ev with
  | UserScrollLeft n v => browserScrollLeft n v ;; onScroll viewport n
  | UserScrollTop n v => browserScrollTop n v ;; onScroll viewport n
  | ScrollEvent n => onScroll viewport n
  | PointerDown e => handlePointerDown e
  | WindowPointer ty ev => dispatchWindowEvent viewport ty ev
  | Timeout h => fireTimer h
  | AnimationFrame => animationFrame
  | ScrollToTask taskId => scrollToTask tasks viewport tz taskId
  | BarDoubleClick taskId px => handleBarDoubleClick taskId px
  end.

Fixpoint run (evs : list Event) : M unit :=
  match evs with
  | [] => ret tt
  | ev :: rest => step ev ;; run rest
  end.

End Board.

(** ** Feeding absolute scroll-left values through either input path *)

Inductive Path :=
| NativePath                 (* the scroller's scroll event, [handleRightScroll] *)
| PointerPath (n : nat).     (* pointer-move of drag [n], [handleMove] *)

(** The pointer position at which drag [d] computes [newScrollLeft = v]. *)
Definition pointerAt (d : Drag) (v : Z) : PointerEvent :=
  {| button := 0; pointerType := Mouse; pointerId := 1;
     clientX := startX d + (startScrollLeft d - v);
     pe_currentTarget := Surface |}.

Definition feed (viewport : TimelineViewport) (p : Path) (v : Z) : M unit :=
  match p with
  | NativePath =>
      browserScrollLeft Scroller v ;;
      handleRightScroll viewport (NativeEvent Scroller)
  | PointerPath n =>
      c <- gets (fun w => nth_error (drags w) n) ;;
      match c with
      | Some d => handleMove viewport n (pointerAt d v)
      | None => ret tt
      end
  end.

(** Per-call logs of a sequence of values fed one after the other. *)
Fixpoint feedAll (viewport : TimelineViewport) (p : Path) (vs : list Z)
    (w : World) : list (list Effect) :=
  match vs with
  | [] => []
  | v :: rest =>
      log (feed viewport p v) w ::
      feedAll viewport p rest (exec (feed viewport p v) w)
  end.

(** When a path can present the value [v]: the scroller can be scrolled
    there, or the drag is live and pans the scroller. *)
Definition presentable (p : Path) (w : World) (v : Z) : Prop :=
  match p with
  | NativePath => 0 <= v <= maxScrollLeft (scrollerEl (dom w))
  | PointerPath n =>
      exists d, nth_error (drags w) n = Some d /\ panning d = true /\
                drag_scroller d = Scroller
  end.

(** ** Observations on logs *)

Definition isReachStart (e : Effect) : bool :=
  match e with OnReachStart => true | _ => false end.
Definition isReachEnd (e : Effect) : bool :=
  match e with OnReachEnd => true | _ => false end.
Definition isWriteScrollTop (e : Effect) : bool :=
  match e with WriteScrollTop _ _ => true | _ => false end.

Definition count (p : Effect -> bool) (out : list Effect) : nat :=
  List.length (filter p out).

(** The remaining right buffer of the scroller at scroll-left [v]. *)
Definition remaining (w : World) (v : Z) : Z :=
  scrollWidth (scrollerEl (dom w)) - clientWidth (scrollerEl (dom w)) - v.

(** A host callback invocation without its event payload. *)
Inductive Invocation :=
| ReachStart
| ReachEnd
| StopScrollingLeft
| ScrollLeft (currentScrollLeft prevScrollLeft scrollDelta : Z) (scroller : Node).

Definition invocation (e : Effect) : list Invocation :=
  match e with
  | OnReachStart => [ReachStart]
  | OnReachEnd => [ReachEnd]
  | OnStopScrollingLeft => [StopScrollingLeft]
  | OnScrollLeft a =>
      [ScrollLeft (currentScrollLeft a) (prevScrollLeft a) (scrollDelta a) (scroller a)]
  | _ => []
  end.

Definition invocations (out : list Effect) : list Invocation :=
  flat_map invocation out.

(** What drives the tracking state: a new position, or a pending timer
    running out. *)
Inductive Input :=
| MoveTo (v : Z)
| Elapse (h : positive).

Definition feedInput (viewport : TimelineViewport) (p : Path) (i : Input) : M unit :=
  match i with
  | MoveTo v => feed viewport p v
  | Elapse h => fireTimer h
  end.

Fixpoint feedInputs (viewport : TimelineViewport) (p : Path) (ins : list Input)
  : M unit :=
  match ins with
  | [] => ret tt
  | i :: rest => feedInput viewport p i ;; feedInputs viewport p rest
  end.

Definition moves (ins : list Input) : list Z :=
  flat_map (fun i => match i with MoveTo v => [v] | Elapse _ => [] end) ins.

(** ** A harness for vertical mirroring

    Every scroll event reaches the handler of its pane, and every
    [scrollTop] assignment a handler makes is answered by the browser with a
    scroll event on the pane written to.  [settle] runs the queue of pending
    scroll events until it is empty; [None] when [fuel] events were not
    enough. *)

Definition written (out : list Effect) : list Node :=
  flat_map (fun e => match e with WriteScrollTop n _ => [n] | _ => [] end) out.

Fixpoint settle (viewport : TimelineViewport) (fuel : nat) (queue : list Node)
    (w : World) : option (World * list Effect) :=
  match queue with
  | [] => Some (w, [])
  | n :: rest =>
      match fuel with
      | O => None
      | S f =>
          let '(_, w1, out) := onScroll viewport n w in
          match settle viewport f (rest ++ written out) w1 with
          | Some (w2, out2) => Some (w2, out ++ out2)
          | None => None
          end
      end
  end.

(** The user scrolls pane [n] vertically to [v]. *)
Definition userScroll (viewport : TimelineViewport) (fuel : nat) (n : Node) (v : Z)
    (w : World) : option (World * list Effect) :=
  settle viewport fuel [n] (exec (browserScrollTop n v) w).

(** ** States of a mounted board *)

Definition refOf (mounted : bool) (n : Node) : option Node :=
  if mounted then Some n else None.

(** The board after its first render, with or without its panes attached. *)
Definition mounted (scrollerAttached leftAttached : bool) (d : DOM) : World :=
  mount (refOf scrollerAttached Scroller) (refOf leftAttached LeftScroller) d.

(** What every event preserves from [mounted] on. *)
Record Inv (w : World) : Prop := {
  inv_scrollerRef : scrollerRef w = None \/ scrollerRef w = Some Scroller;
  inv_leftScrollerRef : leftScrollerRef w = None \/ leftScrollerRef w = Some LeftScroller;
  inv_drags : Forall (fun d => drag_scroller d = Scroller) (drags w);
  inv_timers : Forall (fun t => (handle t < nextHandle w)%positive) (timers w);
  inv_latch : hasReachedEndRef w = true ->
              remaining w (prevScrollLeftRef w) <= RIGHT_EDGE_THRESHOLD_PX
}.

(** The tracking refs after a call that was not leftward. *)
Definition neutral (w w' : World) : Prop :=
  scrollingLeftRef w' = false /\
  wasScrollingLeftRef w' = false /\
  scrollLeftTimeoutRef w' = None /\
  (forall h, scrollLeftTimeoutRef w = Some h -> ~ In h (map handle (timers w'))).

Fixpoint decreasing (prev : Z) (vs : list Z) : Prop :=
  match vs with
  | [] => True
  | v :: rest => v < prev /\ decreasing v rest
  end.

(** ** The centering arithmetic in the specification's words *)

(** [dayOffsetPixels(date, viewportStart, pxPerDay)] is
    [max(0, wholeDaysBetween(date, viewportStart)) * pxPerDay]. *)
Definition spec_dayOffsetPixels (wholeDays pxPerDay : Z) : Z :=
  Z.max 0 wholeDays * pxPerDay.

(** Centered on an offset: [offset - paneWidth/2]. *)
Definition spec_centered (offset paneWidth : Z) : Q :=
  (inject_Z offset - inject_Z paneWidth / 2)%Q.

(** [clampDate(d, start, end)]: returns [start] if [d < start], [end] if
    [d > end], else [d]; on time values. *)
Definition spec_clampDate (d start end_ : Z) : Z :=
  if d <? start then start else if d >? end_ then end_ else d.

(** ** Handlers in closed form

    What each helper leaves behind and logs, field by field.  The lemmas
    below show the monadic handlers compute exactly these. *)

Definition clearHandle (r : option positive) (ts : list Timer) : list Timer :=
  match r with
  | Some h => filter (fun t => negb (Pos.eqb (handle t) h)) ts
  | None => ts
  end.

Definition stopTimer (h : positive) (ev : UIEvent) : Timer :=
  {| handle := h; delay := SCROLL_STOP_DEBOUNCE_MS; timer_event := ev |}.

Definition afterLeft (viewport : TimelineViewport) (cur prev : Z) (sc : Node)
    (ev : UIEvent) (w : World) : World :=
  let still := cur >=? prev in
  let h := nextHandle w in
  let kept := clearHandle (scrollLeftTimeoutRef w) (timers w) in
  with_scrollLeftTimeoutRef (if still then None else Some h)
    (with_timers (if still then kept else kept ++ [stopTimer h ev])
                 (if still then h else Pos.succ h)
       (with_scrollingLeftRef
          (if still then false
           else scrollingLeftRef w || (cur <? twelveMonthsPx viewport))
          (with_wasScrollingLeftRef (negb still)
             (with_lastScrollStateRef
                (if still then lastScrollStateRef w
                 else Some {| ss_scroller := sc;
                              ss_currentScrollLeft := cur;
                              ss_prevScrollLeft := prev |}) w)))).

Definition leftLog (viewport : TimelineViewport) (cur prev : Z) (sc : Node)
    (ev : UIEvent) (w : World) : list Effect :=
  if cur >=? prev then []
  else
    OnScrollLeft {| currentScrollLeft := cur; prevScrollLeft := prev;
                    scrollDelta := prev - cur; scroller := sc; event := ev |}
    :: (if negb (scrollingLeftRef w) && (cur <? twelveMonthsPx viewport)
        then [OnReachStart] else []).

(** The scroll-left at and beyond which the right buffer is within the
    threshold. *)
Definition edgeLine (e : Element) : Z :=
  scrollWidth e - clientWidth e - RIGHT_EDGE_THRESHOLD_PX.

Definition afterEdge (cur prev : Z) (sc : Node) (w : World) : World :=
  let line := edgeLine (getEl (dom w) sc) in
  with_hasReachedEndRef
    (if (cur >=? line) && (prev <? line) then true
     else if cur >=? line then hasReachedEndRef w else false) w.

Definition edgeLog (cur prev : Z) (sc : Node) (w : World) : list Effect :=
  let line := edgeLine (getEl (dom w) sc) in
  if (cur >=? line) && (prev <? line) && negb (hasReachedEndRef w)
  then [OnReachEnd] else [].

Definition afterSync (from to : Node) (w : World) : World :=
  let s := syncingRef w in
  with_frames (if s then frames w else S (frames w))
    (with_dom
       (if s then dom w
        else setEl (dom w) to
               (assign_scrollTop (scrollTop (getEl (dom w) from)) (getEl (dom w) to)))
       (with_syncingRef true w)).

Definition syncLog (from to : Node) (w : World) : list Effect :=
  if syncingRef w then [] else [WriteScrollTop to (scrollTop (getEl (dom w) from))].

(** The three steps both input paths share: direction, right edge, and the
    new previous position. *)
Definition afterDetect (viewport : TimelineViewport) (cur prev : Z) (sc : Node)
    (ev : UIEvent) (w : World) : World :=
  with_prevScrollLeftRef cur
    (afterEdge cur prev sc (afterLeft viewport cur prev sc ev w)).

Definition detectLog (viewport : TimelineViewport) (cur prev : Z) (sc : Node)
    (ev : UIEvent) (w : World) : list Effect :=
  leftLog viewport cur prev sc ev w ++
  edgeLog cur prev sc (afterLeft viewport cur prev sc ev w).

Definition afterStop (w : World) : World :=
  match lastScrollStateRef w with
  | Some _ => with_wasScrollingLeftRef false w
  | None => w
  end.

Definition stopLog (ev : Node -> UIEvent) (w : World) : list Effect :=
  match wasScrollingLeftRef w, lastScrollStateRef w with
  | true, Some st =>
      [OnScrollLeft {| currentScrollLeft := ss_currentScrollLeft st;
                       prevScrollLeft := ss_prevScrollLeft st;
                       scrollDelta := 0;
                       scroller := ss_scroller st;
                       event := ev (ss_scroller st) |};
       OnStopScrollingLeft]
  | _, _ => []
  end.

Definition afterNative (viewport : TimelineViewport) (e : UIEvent) (w : World)
  : World :=
  let sc := currentTargetOf e in
  let cur := scrollLeft (getEl (dom w) sc) in
  let prev := prevScrollLeftRef w in
  let w1 := afterDetect viewport cur prev sc e (with_state_scrollLeft cur w) in
  match leftScrollerRef w with
  | Some l => afterSync sc l w1
  | None => w1
  end.

Definition nativeLog (viewport : TimelineViewport) (e : UIEvent) (w : World)
  : list Effect :=
  let sc := currentTargetOf e in
  let cur := scrollLeft (getEl (dom w) sc) in
  let prev := prevScrollLeftRef w in
  let w0 := with_state_scrollLeft cur w in
  detectLog viewport cur prev sc e w0 ++
  match leftScrollerRef w with
  | Some l => syncLog sc l (afterDetect viewport cur prev sc e w0)
  | None => []
  end.

(** The position drag [d] computes from a pointer event. *)
Definition newScrollLeftOf (d : Drag) (ev : PointerEvent) : Z :=
  startScrollLeft d - (clientX ev - startX d).

Definition written_scrollLeft (sc : Node) (v : Z) (w : World) : World :=
  with_dom (setEl (dom w) sc (assign_scrollLeft v (getEl (dom w) sc))) w.

Definition afterMove (viewport : TimelineViewport) (d : Drag) (ev : PointerEvent)
    (w : World) : World :=
  let sc := drag_scroller d in
  let v := newScrollLeftOf d ev in
  afterDetect viewport v (prevScrollLeftRef w) sc (createSyntheticScrollEvent sc)
    (with_state_scrollLeft v (written_scrollLeft sc v w)).

Definition moveLog (viewport : TimelineViewport) (d : Drag) (ev : PointerEvent)
    (w : World) : list Effect :=
  let sc := drag_scroller d in
  let v := newScrollLeftOf d ev in
  WriteScrollLeft sc v ::
  detectLog viewport v (prevScrollLeftRef w) sc (createSyntheticScrollEvent sc)
    (with_state_scrollLeft v (written_scrollLeft sc v w)).

(** ** A concrete board for examples *)

Definition pane (contentW contentH paneW paneH : Z) : Element :=
  {| scrollLeft := 0; scrollTop := 0;
     scrollWidth := contentW; scrollHeight := contentH;
     clientWidth := paneW; clientHeight := paneH;
     cursor := "" |}.

(** A chart of [contentSize] pixels in a scroller [paneSize] wide, beside a
    row list. *)
Definition board (contentSize paneSize : Z) : DOM :=
  {| leftScrollerEl := pane 256 2000 256 600;
     scrollerEl := pane contentSize 2000 paneSize 600;
     surfaceEl := pane contentSize 2000 contentSize 2000 |}.

Definition viewport16 : TimelineViewport :=
  {| vp_start := ValidDate 0;
     vp_end := ValidDate (100 * MILLISECONDS_IN_DAY);
     vp_pxPerDay := Some 16 |}.

(** The right buffer crosses the threshold between the previous call and
    this one. *)
Definition crossing (w : World) (v : Z) : Prop :=
  remaining w (prevScrollLeftRef w) > RIGHT_EDGE_THRESHOLD_PX /\
  remaining w v <= RIGHT_EDGE_THRESHOLD_PX.

(** ** Closed forms and fixtures used by the proofs *)

(** The event payload each path hands to the callbacks. *)
Definition pathEvent (p : Path) : UIEvent :=
  match p with
  | NativePath => NativeEvent Scroller
  | PointerPath _ => createSyntheticScrollEvent Scroller
  end.

(** The callbacks of one update, without the event payload. *)
Definition detectInvocations (vp : TimelineViewport) (v : Z) (w : World)
  : list Invocation :=
  let prev := prevScrollLeftRef w in
  let line := edgeLine (scrollerEl (dom w)) in
  (if v >=? prev then []
   else ScrollLeft v prev (prev - v) Scroller
        :: (if negb (scrollingLeftRef w) && (v <? twelveMonthsPx vp)
            then [ReachStart] else []))
  ++ (if (v >=? line) && (prev <? line) && negb (hasReachedEndRef w)
      then [ReachEnd] else []).

(** [handleEnd] in closed form. *)
Definition dropListeners (n : nat) (ls : list Listener) : list Listener :=
  filter (fun l => negb (Listener_eqb (pointercancel, HandleEnd n) l))
    (filter (fun l => negb (Listener_eqb (pointerup, HandleEnd n) l))
       (filter (fun l => negb (Listener_eqb (pointermove, HandleMove n) l)) ls)).

Definition afterEnd (n : nat) (d : Drag) (w : World) : World :=
  with_listeners (dropListeners n (listeners w))
    (afterStop
       (with_dom (setEl (dom w) (el d) (assign_cursor (prevCursor d) (getEl (dom w) (el d))))
          (with_drags (update_nth n (set_panning false) (drags w)) w))).

Definition endLog (d : Drag) (w : World) : list Effect :=
  WriteCursor (el d) (prevCursor d) :: stopLog createSyntheticScrollEvent w.

(** [handlePointerDown] in closed form. *)
Definition addListener (l : Listener) (ls : list Listener) : list Listener :=
  if existsb (Listener_eqb l) ls then ls else ls ++ [l].

Definition ignoredPointer (e : PointerEvent) : bool :=
  negb (button e =? 0) && negb (isTouch (pointerType e)).

Definition newDrag (e : PointerEvent) (sc : Node) (w : World) : Drag :=
  {| startX := clientX e;
     startScrollLeft := scrollLeft (getEl (dom w) sc);
     panning := true;
     drag_scroller := sc;
     el := pe_currentTarget e;
     prevCursor := cursor (getEl (dom w) (pe_currentTarget e)) |}.

Definition afterDown (e : PointerEvent) (sc : Node) (w : World) : World :=
  let n := List.length (drags w) in
  let t := pe_currentTarget e in
  with_listeners
    (addListener (pointercancel, HandleEnd n)
       (addListener (pointerup, HandleEnd n)
          (addListener (pointermove, HandleMove n) (listeners w))))
    (with_drags (drags w ++ [newDrag e sc w])
       (with_dom (setEl (dom w) t (assign_cursor "grabbing" (getEl (dom w) t))) w)).

Definition downLog (e : PointerEvent) : list Effect :=
  [PreventDefault;
   SetPointerCapture (pe_currentTarget e) (pointerId e);
   WriteCursor (pe_currentTarget e) "grabbing"].

(** A timer running out, in closed form. *)
Definition pendingTimer (h : positive) (w : World) : option Timer :=
  find (fun t => Pos.eqb (handle t) h) (timers w).

Definition afterTimeout (h : positive) (w : World) : World :=
  afterStop (with_timers (clearHandle (Some h) (timers w)) (nextHandle w) w).

(** Worlds that agree on what direction and edge detection read. *)
Record sim (w1 w2 : World) : Prop := {
  sim_prev : prevScrollLeftRef w1 = prevScrollLeftRef w2;
  sim_reached : hasReachedEndRef w1 = hasReachedEndRef w2;
  sim_scrolling : scrollingLeftRef w1 = scrollingLeftRef w2;
  sim_was : wasScrollingLeftRef w1 = wasScrollingLeftRef w2;
  sim_timeout : scrollLeftTimeoutRef w1 = scrollLeftTimeoutRef w2;
  sim_last : lastScrollStateRef w1 = lastScrollStateRef w2;
  sim_next : nextHandle w1 = nextHandle w2;
  sim_timers : map handle (timers w1) = map handle (timers w2);
  sim_line : edgeLine (scrollerEl (dom w1)) = edgeLine (scrollerEl (dom w2))
}.

Definition pointerDownAt (x : Z) : PointerEvent :=
  {| button := 0; pointerType := Mouse; pointerId := 1; clientX := x;
     pe_currentTarget := Surface |}.

(** The board scrolled to 1000 with a drag begun at pointer position 100. *)
Definition dragging : World :=
  exec (run [] viewport16 0
          [UserScrollLeft Scroller 1000; PointerDown (pointerDownAt 100)])
       (mounted true true (board 10000 1000)).

Definition dragListeners (n : nat) : list Listener :=
  [(pointermove, HandleMove n); (pointerup, HandleEnd n); (pointercancel, HandleEnd n)].

(** The pane the other one mirrors into. *)
Definition otherPane (n : Node) : Node :=
  match n with
  | LeftScroller => Scroller
  | _ => LeftScroller
  end.

Definition taskAt (name : string) (s : option Date) : TimelineTask :=
  {| id := IdString name; title := name; start := s; end_ := s;
     baseIndex := 0; isSentinel := None |}.

(** ** Invariants of the tracking refs and of the window's listeners *)

(** What the tracking refs and the browser's pending callbacks satisfy
    together, for a board rendered with [vp]. *)
Record Tracking (vp : TimelineViewport) (w : World) : Prop := {
  tr_named : forall t, In t (timers w) ->
             scrollLeftTimeoutRef w = Some (handle t) /\
             delay t = SCROLL_STOP_DEBOUNCE_MS;
  tr_single : (List.length (timers w) <= 1)%nat;
  tr_armed : wasScrollingLeftRef w = true ->
             exists h st, scrollLeftTimeoutRef w = Some h /\
                          In h (map handle (timers w)) /\
                          lastScrollStateRef w = Some st;
  tr_published : state_scrollLeft w = prevScrollLeftRef w;
  tr_start : scrollingLeftRef w = true -> prevScrollLeftRef w < twelveMonthsPx vp;
  tr_guard : syncingRef w = true -> (0 < frames w)%nat
}.

(** The drag whose closure a listener function is. *)
Definition dragOf (fn : ListenerFn) : nat :=
  match fn with
  | HandleMove n => n
  | HandleEnd n => n
  end.

(** The window's listeners and the drags in progress, matched up. *)
Record Wired (w : World) : Prop := {
  wired_listeners : forall l, In l (listeners w) ->
      In l (dragListeners (dragOf (snd l))) /\
      exists d, nth_error (drags w) (dragOf (snd l)) = Some d /\ panning d = true;
  wired_drags : forall n d,
      nth_error (drags w) n = Some d -> panning d = true ->
      incl (dragListeners n) (listeners w)
}.

Definition isStop (e : Effect) : bool :=
  match e with OnStopScrollingLeft => true | _ => false end.

Definition isScroller (n : Node) : bool :=
  match n with Scroller => true | _ => false end.

(** Events that run no direction detection: everything but a scroll event
    of the chart scroller and a pointer-move. *)
Definition quiet (ev : Event) : bool :=
  match ev with
  | UserScrollLeft n _ => negb (isScroller n)
  | UserScrollTop n _ => negb (isScroller n)
  | ScrollEvent n => negb (isScroller n)
  | WindowPointer pointermove _ => false
  | _ => true
  end.

(** Pointer-moves of drag [n], one after the other. *)
Fixpoint moveAll (viewport : TimelineViewport) (n : nat) (evs : list PointerEvent)
  : M unit :=
  match evs with
  | [] => ret tt
  | ev :: rest => handleMove viewport n ev ;; moveAll viewport n rest
  end.

(** Stop notifications still owed: one while a scrolling-left burst is open. *)
Definition owed (w : World) : nat := if wasScrollingLeftRef w then 1%nat else 0%nat.

(** ** The chart's layout ([TimelineBoard.tsx])

    A number computed from dates is an integer or NaN; NaN is [None], and
    [Math.max], [Math.min] and the arithmetic operators pass it on. *)

(** [Math.max(1, differenceInCalendarDays(viewport.end, viewport.start) + 1)] *)
Definition days (tz : Z) (viewport : TimelineViewport) : option Z :=
  option_map (fun d => Z.max 1 (d + 1))
    (differenceInCalendarDays tz (vp_end viewport) (vp_start viewport)).

Definition totalPx (tz : Z) (viewport : TimelineViewport) : option Z :=
  option_map (fun n => n * pxPerDay viewport) (days tz viewport).

(** The today marker of [BarsLayer] and [TimelineHeader]; [today] is
    [new Date()]. *)
Definition isTodayInOuter (viewport : TimelineViewport) (today : Date) : bool :=
  isValid (clampDate today (vp_start viewport) (vp_end viewport))
  && negb (isBefore today (vp_start viewport) || isAfter today (vp_end viewport)).

Definition todayIndex (tz : Z) (viewport : TimelineViewport) (today : Date)
  : option Z :=
  let clampedToday := clampDate today (vp_start viewport) (vp_end viewport) in
  match days tz viewport,
        differenceInCalendarDays tz clampedToday (vp_start viewport) with
  | Some n, Some k => Some (Z.max 0 (Z.min (n - 1) k))
  | _, _ => None
  end.

Definition todayX (tz : Z) (viewport : TimelineViewport) (today : Date) : option Z :=
  option_map (fun i => i * pxPerDay viewport + pxPerDay viewport / 2)
    (todayIndex tz viewport today).

(** What [BarsLayer] renders for a task: a point-in-time marker, placed by
    [top] and [left], or a bar with a [width] as well. *)
Inductive Bar :=
| Marker (bar_top : Z) (bar_left : option Z)
| Span (bar_top : Z) (bar_left bar_width : option Z).

Definition barLeft (b : Bar) : option Z :=
  match b with
  | Marker _ l => l
  | Span _ l _ => l
  end.

Definition truthy (b : option bool) : bool :=
  match b with Some true => true | _ => false end.

(** [d && isValid(d) ? clampDate(d, viewport.start, viewport.end) : null] *)
Definition clampedOrNull (viewport : TimelineViewport) (d : option Date)
  : option Date :=
  match d with
  | Some x =>
      if isValid x then Some (clampDate x (vp_start viewport) (vp_end viewport))
      else None
  | None => None
  end.

(** The callback of [tasks.map] in [BarsLayer]; [None] is [null]. *)
Definition bar (tz : Z) (viewport : TimelineViewport) (rowIndex : Z)
    (t : TimelineTask) : option Bar :=
  if truthy (isSentinel t) then None
  else
    match clampedOrNull viewport (start t), clampedOrNull viewport (end_ t) with
    | Some start, Some end_ =>
        let startOffset :=
          option_map (fun d => Z.max 0 d * pxPerDay viewport)
            (differenceInCalendarDays tz start (vp_start viewport)) in
        let daySpan := differenceInCalendarDays tz end_ start in
        let isSingleDay := match daySpan with Some 0 => true | _ => false end in
        let width := option_map (fun d => Z.max 1 (d + 1) * pxPerDay viewport) daySpan in
        if isSingleDay then Some (Marker (rowIndex * 40 + 6) startOffset)
        else Some (Span (rowIndex * 40 + 6) startOffset width)
    | _, _ => None
    end.

Fixpoint barsFrom (tz : Z) (viewport : TimelineViewport) (rowIndex : Z)
    (tasks : list TimelineTask) : list (option Bar) :=
  match tasks with
  | [] => []
  | t :: rest => bar tz viewport rowIndex t :: barsFrom tz viewport (rowIndex + 1) rest
  end.

Definition BarsLayer (tz : Z) (viewport : TimelineViewport)
    (tasks : list TimelineTask) : list (option Bar) :=
  barsFrom tz viewport 0 tasks.

(** [handleBarDoubleClick] as a bar's [onDoubleClick] calls it, with the
    bar's [startOffset], which is NaN under an invalid viewport start. *)
Definition onBarDoubleClick (taskId : string) (barLeftPx : option Z) : M unit :=
  match barLeftPx with
  | Some px => handleBarDoubleClick taskId px
  | None =>
      sc <- gets scrollerRef ;;
      match sc with
      | None => ret tt
      | Some scroller =>
          cw <- read scroller clientWidth ;;
          emit (ScrollToNaN scroller smooth)
      end
  end.

(** The wheel listener [TimelineBoard] puts on the scroller. *)
Record WheelEvent := {
  deltaX : Z;
  deltaY : Z
}.

Definition preventBrowserNav (scroller : Node) (e : WheelEvent) : M unit :=
  if Z.abs (deltaX e) >? Z.abs (deltaY e) then
    sl <- read scroller scrollLeft ;;
    sw <- read scroller scrollWidth ;;
    cw <- read scroller clientWidth ;;
    let atLeftEdge := (sl <=? 0) && (deltaX e <? 0) in
    let atRightEdge := (sl >=? sw - cw) && (deltaX e >? 0) in
    if atLeftEdge || atRightEdge then emit PreventDefault else ret tt
  else ret tt.

(** Whether the listener calls [preventDefault]. *)
Definition prevents (el : Element) (e : WheelEvent) : bool :=
  (Z.abs (deltaX e) >? Z.abs (deltaY e))
  && ((scrollLeft el <=? 0) && (deltaX e <? 0)
      || (scrollLeft el >=? scrollWidth el - clientWidth el) && (deltaX e >? 0)).

(** Row reordering. *)
Definition UniqueIdentifier_eqb (a b : UniqueIdentifier) : bool :=
  match a, b with
  | IdString s, IdString t => String.eqb s t
  | IdNumber n, IdNumber m => Z.eqb n m
  | _, _ => false
  end.

(** [Array.prototype.findIndex]; [None] is -1. *)
Fixpoint findIndex {A} (p : A -> bool) (l : list A) : option nat :=
  match l with
  | [] => None
  | x :: rest => if p x then Some O else option_map S (findIndex p rest)
  end.

(** dnd-kit's [arrayMove]: a copy with the element at [from] spliced out and
    spliced back in at [to].  [onDragEnd] passes indices that [findIndex]
    found; for a [from] outside the array, where JavaScript would insert
    [undefined], the copy is returned as it is. *)
Definition arrayMove {A} (array : list A) (from to : nat) : list A :=
  match nth_error array from with
  | Some x =>
      let rest := firstn from array ++ skipn (S from) array in
      firstn to rest ++ x :: skipn to rest
  | None => array
  end.

Record DragEndEvent := {
  active : option UniqueIdentifier;
  over : option UniqueIdentifier
}.

(** [onDragEnd]: the new task list handed to [setTasks] and the arguments of
    the [onOrderChanged] call it schedules, or [None] when it returns
    early.  ([setActiveRow(null)], which only hides the drag overlay, is
    left out.) *)
Definition onDragEnd (tasks : list TimelineTask) (e : DragEndEvent)
  : option (list TimelineTask * (list string * string)) :=
  match over e, active e with
  | Some o, Some a =>
      match findIndex (fun t => UniqueIdentifier_eqb (id t) a) tasks,
            findIndex (fun t => UniqueIdentifier_eqb (id t) o) tasks with
      | Some from, Some to =>
          if Nat.eqb from to then None
          else
            let next := arrayMove tasks from to in
            Some (next, (map (fun t => String_ (id t)) next, String_ a))
      | _, _ => None
      end
  | _, _ => None
  end.

(** ** The host application ([App])

    [addDays] of date-fns in a zone without clock changes. *)
Definition addDays (d : Date) (amount : Z) : Date :=
  match d with
  | ValidDate t => ValidDate (t + amount * MILLISECONDS_IN_DAY)
  | InvalidDate => InvalidDate
  end.

Record AppState := {
  viewportStart : Date;
  viewportEnd : Date
}.

(** The viewport [App] hands to [TimelineBoard]. *)
Definition App_viewport (s : AppState) : TimelineViewport :=
  {| vp_start := viewportStart s; vp_end := viewportEnd s; vp_pxPerDay := Some 16 |}.

Definition handleReachStart (s : AppState) : AppState :=
  {| viewportStart := addDays (viewportStart s) (-30); viewportEnd := viewportEnd s |}.

Definition handleReachEnd (s : AppState) : AppState :=
  {| viewportStart := viewportStart s; viewportEnd := addDays (viewportEnd s) 30 |}.

(** The element at index [n] dropped. *)
Definition without {A} (n : nat) (l : list A) : list A :=
  firstn n l ++ skipn (S n) l.

(** A bar moved [dx] pixels to the right. *)
Definition shifted (dx : Z) (b : Bar) : Bar :=
  match b with
  | Marker t l => Marker t (option_map (fun x => x + dx) l)
  | Span t l wd => Span t (option_map (fun x => x + dx) l) wd
  end.

(** A task whose dates lie inside the viewport. *)
Definition inside (viewport : TimelineViewport) (t : TimelineTask) : Prop :=
  exists vs ve s e,
    vp_start viewport = ValidDate vs /\ vp_end viewport = ValidDate ve /\
    start t = Some (ValidDate s) /\ end_ t = Some (ValidDate e) /\
    vs <= s <= ve /\ vs <= e <= ve.

Definition task10 : TimelineTask :=
  {| id := IdString "r-1"; title := "Kickoff";
     start := Some (ValidDate (10 * MILLISECONDS_IN_DAY));
     end_ := Some (ValidDate (12 * MILLISECONDS_IN_DAY));
     baseIndex := 0; isSentinel := None |}.

Definition task20 : TimelineTask :=
  {| id := IdString "r-2"; title := "Design";
     start := Some (ValidDate (20 * MILLISECONDS_IN_DAY));
     end_ := Some (ValidDate (20 * MILLISECONDS_IN_DAY));
     baseIndex := 1; isSentinel := None |}.

Definition task30 : TimelineTask :=
  {| id := IdNumber 3; title := "Launch";
     start := Some (ValidDate (30 * MILLISECONDS_IN_DAY));
     end_ := Some (ValidDate (45 * MILLISECONDS_IN_DAY));
     baseIndex := 2; isSentinel := None |}.

(** * Proofs *)

(** ** Running the monad *)

Arguments twelveMonthsPx : simpl never.
Arguments edgeLine : simpl never.
Arguments clampRange : simpl never.
Arguments maxScrollLeft : simpl never.
Arguments maxScrollTop : simpl never.
#[local] Arguments Z.geb : simpl never.
#[local] Arguments Z.ltb : simpl never.
#[local] Arguments Z.sub : simpl never.
#[local] Arguments Z.add : simpl never.
#[local] Arguments Z.mul : simpl never.

Ltac hook_unfold :=
  unfold checkAndHandleLeftScroll, checkAndHandleRightEdge, syncVerticalScroll,
    stopCallback, browserScrollLeft, browserScrollTop,
    write_scrollTop, write_scrollLeft, write_cursor, read, setScrollLeft, scrollTo,
    setTimeout, clearTimeout, requestAnimationFrame, clearSyncing,
    addEventListener, removeEventListener,
    exec, log, bind, ret, gets, modify, emit in *.

Ltac break_if :=
  match goal with
  | |- context [if ?c then _ else _] => destruct c eqn:?
  | |- context [match ?c with Some _ => _ | None => _ end] => destruct c eqn:?
  end.

Ltac destruct_world w :=
  let d := fresh "d" in
  destruct w as [sr lr sy pv hr sl ws tr ls st d ts nh fr dg li];
  destruct d as [dl ds df].

Lemma exec_bind {A B} (m : M A) (k : A -> M B) w :
  exec (bind m k) w = exec (k (fst (fst (m w)))) (exec m w).
Proof.
  unfold exec, bind. destruct (m w) as [[a w1] o1]. cbn.
  destruct (k a w1) as [[b w2] o2]. reflexivity.
Qed.

Lemma log_bind {A B} (m : M A) (k : A -> M B) w :
  log (bind m k) w = log m w ++ log (k (fst (fst (m w)))) (exec m w).
Proof.
  unfold exec, log, bind. destruct (m w) as [[a w1] o1]. cbn.
  destruct (k a w1) as [[b w2] o2]. reflexivity.
Qed.

Lemma run_unit (m : M unit) w : m w = (tt, exec m w, log m w).
Proof. unfold exec, log. destruct (m w) as [[[] w1] o1]. reflexivity. Qed.

(** ** The helpers compute their closed forms *)

Lemma checkAndHandleLeftScroll_eq vp cur prev sc ev w :
  checkAndHandleLeftScroll vp cur prev sc ev w
  = (tt, afterLeft vp cur prev sc ev w, leftLog vp cur prev sc ev w).
Proof.
  destruct_world w. unfold afterLeft, leftLog, clearHandle, stopTimer. hook_unfold. cbn.
  destruct (cur >=? prev); cbn.
  - break_if; reflexivity.
  - match goal with |- context [negb ?b && _] => destruct b end; cbn;
      destruct (cur <? twelveMonthsPx vp); cbn; break_if; reflexivity.
Qed.

Lemma checkAndHandleRightEdge_eq cur prev sc w :
  checkAndHandleRightEdge cur prev sc w
  = (tt, afterEdge cur prev sc w, edgeLog cur prev sc w).
Proof.
  destruct_world w. unfold afterEdge, edgeLog, edgeLine. hook_unfold. cbn.
  set (line := _ - _ - RIGHT_EDGE_THRESHOLD_PX).
  destruct (cur >=? line), (prev <? line), hr; reflexivity.
Qed.

Lemma syncVerticalScroll_eq from to w :
  syncVerticalScroll from to w = (tt, afterSync from to w, syncLog from to w).
Proof.
  destruct_world w. unfold afterSync, syncLog. hook_unfold. cbn.
  break_if; reflexivity.
Qed.

Lemma stopCallback_eq ev w :
  stopCallback ev w = (tt, afterStop w, stopLog (fun _ => ev) w).
Proof.
  destruct_world w. unfold afterStop, stopLog. hook_unfold. cbn.
  repeat (break_if; cbn); reflexivity.
Qed.

Ltac run_binds :=
  cbv beta iota delta [bind read gets modify setScrollLeft ret emit
                       write_scrollLeft write_scrollTop write_cursor].

Lemma leftScrollerRef_tracked vp c a b sc e v w :
  leftScrollerRef
    (with_prevScrollLeftRef c
       (afterEdge a b sc (afterLeft vp a b sc e (with_state_scrollLeft v w))))
  = leftScrollerRef w.
Proof. reflexivity. Qed.

Lemma exec_handleRightScroll vp e w :
  exec (handleRightScroll vp e) w = afterNative vp e w.
Proof.
  unfold exec, handleRightScroll. run_binds.
  rewrite checkAndHandleLeftScroll_eq. cbv beta iota.
  rewrite checkAndHandleRightEdge_eq. cbv beta iota.
  rewrite leftScrollerRef_tracked.
  unfold afterNative, afterDetect.
  destruct (leftScrollerRef w).
  - rewrite syncVerticalScroll_eq. reflexivity.
  - reflexivity.
Qed.

Lemma log_handleRightScroll vp e w :
  log (handleRightScroll vp e) w = nativeLog vp e w.
Proof.
  unfold log, handleRightScroll. run_binds.
  rewrite checkAndHandleLeftScroll_eq. cbv beta iota.
  rewrite checkAndHandleRightEdge_eq. cbv beta iota.
  rewrite leftScrollerRef_tracked.
  unfold nativeLog, afterDetect, detectLog.
  destruct (leftScrollerRef w).
  - rewrite syncVerticalScroll_eq. cbv beta iota delta [snd].
    rewrite !app_nil_l, <- app_assoc. reflexivity.
  - cbv beta iota delta [snd]. rewrite !app_nil_l, !app_nil_r. reflexivity.
Qed.

Lemma exec_handleMove vp n ev w d :
  nth_error (drags w) n = Some d -> panning d = true ->
  exec (handleMove vp n ev) w = afterMove vp d ev w.
Proof.
  intros Hd Hp. unfold exec, handleMove. run_binds. rewrite Hd, Hp.
  cbv beta iota delta [negb].
  rewrite checkAndHandleLeftScroll_eq. cbv beta iota.
  rewrite checkAndHandleRightEdge_eq. cbv beta iota.
  reflexivity.
Qed.

Lemma log_handleMove vp n ev w d :
  nth_error (drags w) n = Some d -> panning d = true ->
  log (handleMove vp n ev) w = moveLog vp d ev w.
Proof.
  intros Hd Hp. unfold log, handleMove. run_binds. rewrite Hd, Hp.
  cbv beta iota delta [negb].
  rewrite checkAndHandleLeftScroll_eq. cbv beta iota.
  rewrite checkAndHandleRightEdge_eq. cbv beta iota delta [snd].
  rewrite !app_nil_l, !app_nil_r. reflexivity.
Qed.

Lemma newScrollLeftOf_pointerAt d v : newScrollLeftOf d (pointerAt d v) = v.
Proof. unfold newScrollLeftOf, pointerAt. cbn. lia. Qed.

Lemma exec_feed_native vp v w :
  exec (feed vp NativePath v) w
  = afterNative vp (NativeEvent Scroller) (written_scrollLeft Scroller v w).
Proof.
  unfold feed. rewrite exec_bind. rewrite exec_handleRightScroll. reflexivity.
Qed.

Lemma log_feed_native vp v w :
  log (feed vp NativePath v) w
  = nativeLog vp (NativeEvent Scroller) (written_scrollLeft Scroller v w).
Proof.
  unfold feed. rewrite log_bind. rewrite log_handleRightScroll. reflexivity.
Qed.

Lemma exec_feed_pointer vp n v w d :
  nth_error (drags w) n = Some d -> panning d = true ->
  exec (feed vp (PointerPath n) v) w = afterMove vp d (pointerAt d v) w.
Proof.
  intros Hd Hp. unfold feed. rewrite exec_bind. unfold gets at 1. cbn [fst snd].
  rewrite Hd. unfold gets, exec at 2. cbn [fst snd].
  apply exec_handleMove; assumption.
Qed.

Lemma log_feed_pointer vp n v w d :
  nth_error (drags w) n = Some d -> panning d = true ->
  log (feed vp (PointerPath n) v) w = moveLog vp d (pointerAt d v) w.
Proof.
  intros Hd Hp. unfold feed. rewrite log_bind. unfold gets at 1 2. cbn [fst snd].
  rewrite Hd. unfold log at 1, gets, exec. cbn [fst snd]. rewrite app_nil_l.
  apply log_handleMove; assumption.
Qed.

Lemma clampRange_id v hi : 0 <= v <= hi -> clampRange v hi = v.
Proof. unfold clampRange. lia. Qed.

Lemma clampRange_bounds v hi : 0 <= hi -> 0 <= clampRange v hi <= hi.
Proof. unfold clampRange. lia. Qed.

(** ** Counting notifications *)

Lemma count_app p a b : count p (a ++ b) = (count p a + count p b)%nat.
Proof. unfold count. rewrite filter_app, length_app. reflexivity. Qed.

Lemma count_cons_skip p e l : p e = false -> count p (e :: l) = count p l.
Proof. intros H. unfold count. cbn. rewrite H. reflexivity. Qed.

Lemma count_leftLog_start vp cur prev sc ev w :
  count isReachStart (leftLog vp cur prev sc ev w)
  = if cur >=? prev then 0%nat
    else if negb (scrollingLeftRef w) && (cur <? twelveMonthsPx vp) then 1%nat
    else 0%nat.
Proof.
  unfold leftLog. destruct (cur >=? prev); [reflexivity|].
  destruct (negb (scrollingLeftRef w) && (cur <? twelveMonthsPx vp)); reflexivity.
Qed.

Lemma count_leftLog_end vp cur prev sc ev w :
  count isReachEnd (leftLog vp cur prev sc ev w) = 0%nat.
Proof.
  unfold leftLog. destruct (cur >=? prev); [reflexivity|].
  destruct (negb (scrollingLeftRef w) && (cur <? twelveMonthsPx vp)); reflexivity.
Qed.

Lemma count_edgeLog_start cur prev sc w :
  count isReachStart (edgeLog cur prev sc w) = 0%nat.
Proof. unfold edgeLog. break_if; reflexivity. Qed.

Lemma count_edgeLog_end cur prev sc w :
  count isReachEnd (edgeLog cur prev sc w)
  = if (cur >=? edgeLine (getEl (dom w) sc)) && (prev <? edgeLine (getEl (dom w) sc))
       && negb (hasReachedEndRef w)
    then 1%nat else 0%nat.
Proof. unfold edgeLog. break_if; reflexivity. Qed.

Lemma count_syncLog p from to w :
  (forall n v, p (WriteScrollTop n v) = false) ->
  count p (syncLog from to w) = 0%nat.
Proof.
  intros H. unfold syncLog. destruct (syncingRef w); [reflexivity|].
  unfold count. cbn. rewrite H. reflexivity.
Qed.

Lemma feed_spec vp p w v :
  presentable p w v ->
  let w' := exec (feed vp p v) w in
  let out := log (feed vp p v) w in
  let prev := prevScrollLeftRef w in
  let line := edgeLine (scrollerEl (dom w)) in
  prevScrollLeftRef w' = v /\
  state_scrollLeft w' = v /\
  scrollingLeftRef w' =
    (if v >=? prev then false
     else scrollingLeftRef w || (v <? twelveMonthsPx vp)) /\
  hasReachedEndRef w' =
    (if (v >=? line) && (prev <? line) then true
     else if v >=? line then hasReachedEndRef w else false) /\
  count isReachStart out =
    (if v >=? prev then 0%nat
     else if negb (scrollingLeftRef w) && (v <? twelveMonthsPx vp) then 1%nat
     else 0%nat) /\
  count isReachEnd out =
    (if (v >=? line) && (prev <? line) && negb (hasReachedEndRef w)
     then 1%nat else 0%nat) /\
  edgeLine (scrollerEl (dom w')) = line /\
  maxScrollLeft (scrollerEl (dom w')) = maxScrollLeft (scrollerEl (dom w)) /\
  drags w' = drags w.
Proof.
  intros Hp. destruct p as [|n]; cbn zeta.
  - cbn in Hp. apply clampRange_id in Hp.
    rewrite exec_feed_native, log_feed_native.
    unfold afterNative, nativeLog, written_scrollLeft.
    destruct_world w. cbn in *. rewrite Hp. unfold detectLog.
    destruct lr as [[]|], sy;
      rewrite !count_app, !count_leftLog_start, !count_leftLog_end,
        !count_edgeLog_start, !count_edgeLog_end;
      rewrite ?count_syncLog by reflexivity;
      unfold afterSync, afterDetect, afterEdge, afterLeft; cbn; rewrite ?Hp;
      rewrite ?Nat.add_0_r; unfold edgeLine, maxScrollLeft; cbn;
      repeat split; reflexivity.
  - destruct Hp as [d [Hd [Hpan Hsc]]].
    rewrite (exec_feed_pointer _ _ _ _ _ Hd Hpan), (log_feed_pointer _ _ _ _ _ Hd Hpan).
    unfold afterMove, moveLog, written_scrollLeft.
    rewrite newScrollLeftOf_pointerAt, Hsc.
    unfold detectLog.
    rewrite !(count_cons_skip _ (WriteScrollLeft Scroller v)) by reflexivity.
    rewrite !count_app, !count_leftLog_start, !count_leftLog_end,
      !count_edgeLog_start, !count_edgeLog_end.
    destruct_world w. cbn in *.
    unfold afterDetect, afterEdge, afterLeft; cbn.
    rewrite ?Nat.add_0_r. unfold edgeLine, maxScrollLeft; cbn.
    repeat split; reflexivity.
Qed.

(** ** Runs of leftward updates *)

Lemma presentable_feed vp p w v v' :
  presentable p w v -> presentable p w v' ->
  presentable p (exec (feed vp p v) w) v'.
Proof.
  intros H H'.
  destruct (feed_spec vp p w v H) as (_ & _ & _ & _ & _ & _ & _ & Hm & Hd).
  destruct p; cbn in *.
  - rewrite Hm. assumption.
  - rewrite Hd. assumption.
Qed.

Lemma Forall_presentable_feed vp p w v (P : Z -> Prop) vs :
  presentable p w v ->
  Forall (fun x => presentable p w x /\ P x) vs ->
  Forall (fun x => presentable p (exec (feed vp p v) w) x /\ P x) vs.
Proof.
  intros H. apply Forall_impl. intros x [Hx Px]. split; [|assumption].
  apply presentable_feed; assumption.
Qed.

(** Once the flag is set, further leftward calls stay silent. *)
Lemma reachStart_silent vp p vs :
  forall w,
    scrollingLeftRef w = true ->
    decreasing (prevScrollLeftRef w) vs ->
    Forall (fun v => presentable p w v /\ v < twelveMonthsPx vp) vs ->
    map (count isReachStart) (feedAll vp p vs w) = repeat 0%nat (List.length vs).
Proof.
  induction vs as [|v rest IH]; intros w Hsl Hdec Hall; [reflexivity|].
  destruct Hdec as [Hv Hdec]. inversion Hall as [|? ? [Hp Hthr] Hrest]; subst.
  destruct (feed_spec vp p w v Hp) as (Hprev & _ & Hsl' & _ & Hcount & _).
  assert (G : (v >=? prevScrollLeftRef w) = false).
  { rewrite Z.geb_leb. apply Z.leb_gt. assumption. }
  rewrite G, Hsl in *. cbn [feedAll map repeat List.length]. f_equal.
  - exact Hcount.
  - apply IH.
    + exact Hsl'.
    + rewrite Hprev. assumption.
    + apply Forall_presentable_feed; assumption.
Qed.

(** What the code does keep.  In a run of updates each strictly left of the
    one before and all under the left threshold, begun with
    [scrollingLeftRef] clear, [onReachStart] is invoked by the first call
    and by none of the later ones, on either input path; fed
    [1000, 900, 800, 700] after mounting, the board invokes it once, on the
    call at 900, the first that is leftward. *)
Theorem reachStart_once_per_run vp p w vs :
  scrollingLeftRef w = false ->
  vs <> [] ->
  decreasing (prevScrollLeftRef w) vs ->
  Forall (fun v => presentable p w v /\ v < twelveMonthsPx vp) vs ->
  map (count isReachStart) (feedAll vp p vs w)
    = 1%nat :: repeat 0%nat (List.length vs - 1)
  /\ map (count isReachStart)
       (feedAll viewport16 NativePath [1000; 900; 800; 700]
          (mounted true true (board 10000 1000)))
     = [0; 1; 0; 0]%nat.
Proof.
  intros Hsl Hne Hdec Hall. split; [|vm_compute; reflexivity].
  destruct vs as [|v rest]; [congruence|].
  destruct Hdec as [Hv Hdec]. inversion Hall as [|? ? [Hp Hthr] Hrest]; subst.
  destruct (feed_spec vp p w v Hp) as (Hprev & _ & Hsl' & _ & Hcount & _).
  assert (G : (v >=? prevScrollLeftRef w) = false).
  { rewrite Z.geb_leb. apply Z.leb_gt. assumption. }
  assert (T : (v <? twelveMonthsPx vp) = true) by (apply Z.ltb_lt; assumption).
  rewrite G, Hsl, T in *.
  replace (List.length (v :: rest) - 1)%nat with (List.length rest)
    by (cbn [List.length]; lia).
  cbn [feedAll map]. f_equal.
  - exact Hcount.
  - apply reachStart_silent.
    + exact Hsl'.
    + rewrite Hprev. assumption.
    + apply Forall_presentable_feed; assumption.
Qed.

Lemma reachStart_once_per_run_witness :
  map (count isReachStart)
    (feedAll viewport16 NativePath [900; 800; 700]
       (exec (feed viewport16 NativePath 1000) (mounted true true (board 10000 1000))))
  = [1; 0; 0]%nat.
Proof.
  apply (reachStart_once_per_run viewport16 NativePath
           (exec (feed viewport16 NativePath 1000) (mounted true true (board 10000 1000)))
           [900; 800; 700]).
  - vm_compute. reflexivity.
  - discriminate.
  - vm_compute. repeat split; reflexivity.
  - repeat constructor; vm_compute; congruence.
Defined.

(** C1.  A run that follows a stop gets no [onReachStart].  Fed 1000 and
    900 after mounting, the board invokes [onReachStart] on 900.  The stop
    timer (handle 1) then runs out and the hook reports the burst ended
    ([onScrollLeft] with delta 0, [onStopScrollingLeft]), but the callback
    does not reset [scrollingLeftRef].  In the run 800, 700, 600 that
    follows, every call is strictly left of the one before and under the
    threshold of 5760, and none of them invokes [onReachStart]. *)
Theorem reachStart_missed_after_stop :
  let w0 := mounted true true (board 10000 1000) in
  let w1 := exec (feedInputs viewport16 NativePath [MoveTo 1000; MoveTo 900]) w0 in
  let w2 := exec (fireTimer 1) w1 in
  map (count isReachStart) (feedAll viewport16 NativePath [1000; 900] w0)
    = [0; 1]%nat /\
  invocations (log (fireTimer 1) w1)
    = [ScrollLeft 900 1000 0 Scroller; StopScrollingLeft] /\
  decreasing (prevScrollLeftRef w2) [800; 700; 600] /\
  Forall (fun v => presentable NativePath w2 v /\ v < twelveMonthsPx viewport16)
    [800; 700; 600] /\
  scrollingLeftRef w2 = true /\
  map (count isReachStart) (feedAll viewport16 NativePath [800; 700; 600] w2)
    = [0; 0; 0]%nat.
Proof.
  vm_compute. repeat split; try reflexivity; try congruence.
  repeat constructor; congruence.
Qed.

(** ** What an update does to the stop timer *)

Lemma feed_timer_spec vp p w v :
  presentable p w v ->
  let w' := exec (feed vp p v) w in
  let still := v >=? prevScrollLeftRef w in
  let kept := clearHandle (scrollLeftTimeoutRef w) (timers w) in
  wasScrollingLeftRef w' = negb still /\
  scrollLeftTimeoutRef w' = (if still then None else Some (nextHandle w)) /\
  timers w' = (if still then kept
               else kept ++ [stopTimer (nextHandle w) (pathEvent p)]) /\
  nextHandle w' = (if still then nextHandle w else Pos.succ (nextHandle w)) /\
  lastScrollStateRef w' =
    (if still then lastScrollStateRef w
     else Some {| ss_scroller := Scroller; ss_currentScrollLeft := v;
                  ss_prevScrollLeft := prevScrollLeftRef w |}) /\
  scrollerRef w' = scrollerRef w /\
  leftScrollerRef w' = leftScrollerRef w /\
  listeners w' = listeners w.
Proof.
  intros Hp. destruct p as [|n]; cbn zeta.
  - cbn in Hp. apply clampRange_id in Hp.
    rewrite exec_feed_native.
    unfold afterNative, written_scrollLeft.
    destruct_world w. cbn in *. rewrite Hp.
    destruct lr as [[]|], sy;
      unfold afterSync, afterDetect, afterEdge, afterLeft; cbn;
      repeat split; reflexivity.
  - destruct Hp as [d [Hd [Hpan Hsc]]].
    rewrite (exec_feed_pointer _ _ _ _ _ Hd Hpan).
    unfold afterMove, written_scrollLeft.
    rewrite newScrollLeftOf_pointerAt, Hsc.
    destruct_world w. cbn in *.
    unfold afterDetect, afterEdge, afterLeft; cbn.
    repeat split; reflexivity.
Qed.

Lemma invocations_app a b : invocations (a ++ b) = invocations a ++ invocations b.
Proof. unfold invocations. apply flat_map_app. Qed.

Lemma invocations_syncLog from to w : invocations (syncLog from to w) = [].
Proof. unfold syncLog. destruct (syncingRef w); reflexivity. Qed.

Lemma invocations_detectLog vp v prev sc ev w :
  invocations (detectLog vp v prev sc ev w)
  = (if v >=? prev then []
     else ScrollLeft v prev (prev - v) sc
          :: (if negb (scrollingLeftRef w) && (v <? twelveMonthsPx vp)
              then [ReachStart] else []))
    ++ (if (v >=? edgeLine (getEl (dom w) sc)) && (prev <? edgeLine (getEl (dom w) sc))
           && negb (hasReachedEndRef w)
        then [ReachEnd] else []).
Proof.
  unfold detectLog. rewrite invocations_app. f_equal.
  - unfold leftLog. destruct (v >=? prev); [reflexivity|].
    destruct (negb (scrollingLeftRef w) && (v <? twelveMonthsPx vp)); reflexivity.
  - unfold edgeLog.
    change (dom (afterLeft vp v prev sc ev w)) with (dom w).
    change (hasReachedEndRef (afterLeft vp v prev sc ev w)) with (hasReachedEndRef w).
    destruct ((v >=? edgeLine (getEl (dom w) sc)) && (prev <? edgeLine (getEl (dom w) sc))
              && negb (hasReachedEndRef w)); reflexivity.
Qed.

Lemma feed_invocations vp p w v :
  presentable p w v ->
  invocations (log (feed vp p v) w) = detectInvocations vp v w.
Proof.
  intros Hp. unfold detectInvocations. destruct p as [|n].
  - cbn in Hp. apply clampRange_id in Hp.
    rewrite log_feed_native. unfold nativeLog, written_scrollLeft.
    rewrite invocations_app, invocations_detectLog.
    destruct_world w. cbn in *. rewrite Hp.
    replace (invocations match lr with Some l => _ | None => [] end)
      with (@nil Invocation)
      by (destruct lr; [rewrite invocations_syncLog|]; reflexivity).
    rewrite app_nil_r. reflexivity.
  - destruct Hp as [d [Hd [Hpan Hsc]]].
    rewrite (log_feed_pointer _ _ _ _ _ Hd Hpan).
    unfold moveLog, written_scrollLeft.
    rewrite newScrollLeftOf_pointerAt, Hsc.
    change (WriteScrollLeft Scroller v :: ?l) with ([WriteScrollLeft Scroller v] ++ l).
    rewrite invocations_app, invocations_detectLog.
    destruct_world w. reflexivity.
Qed.

Lemma not_in_filter_handle h ts :
  ~ In h (map handle (filter (fun t => negb (Pos.eqb (handle t) h)) ts)).
Proof.
  intros H. apply in_map_iff in H. destruct H as [t [E I]].
  apply filter_In in I. destruct I as [_ I]. subst.
  rewrite Pos.eqb_refl in I. discriminate.
Qed.

(** C7.  An update whose new scroll-left is not below the recorded one, on
    either input path, leaves the tracking refs neutral: the scrolling-left
    flags are clear, the timer ref is null, the timer it named is no longer
    pending, and the call invokes no callback other than [onReachEnd]. *)
Theorem not_leftward_resets vp p w v :
  presentable p w v ->
  v >= prevScrollLeftRef w ->
  neutral w (exec (feed vp p v) w) /\
  (forall i, In i (invocations (log (feed vp p v) w)) -> i = ReachEnd).
Proof.
  intros Hp Hv.
  assert (G : (v >=? prevScrollLeftRef w) = true) by (apply Z.geb_le; lia).
  destruct (feed_spec vp p w v Hp) as (_ & _ & Hsl & _).
  destruct (feed_timer_spec vp p w v Hp) as (Hwas & Href & Hts & _).
  rewrite G in *. split.
  - unfold neutral. repeat split; try assumption.
    intros h Hh. rewrite Hts, Hh. apply not_in_filter_handle.
  - rewrite (feed_invocations vp p w v Hp). unfold detectInvocations.
    rewrite G. cbn [app]. intros i Hi.
    destruct (_ && _ && _); cbn in Hi; intuition congruence.
Qed.

Lemma not_leftward_resets_witness :
  neutral (exec (feed viewport16 NativePath 900)
             (exec (feed viewport16 NativePath 1000) (mounted true true (board 10000 1000))))
          (exec (feed viewport16 NativePath 950)
             (exec (feed viewport16 NativePath 900)
                (exec (feed viewport16 NativePath 1000)
                   (mounted true true (board 10000 1000))))) /\
  (forall i,
      In i (invocations
              (log (feed viewport16 NativePath 950)
                 (exec (feed viewport16 NativePath 900)
                    (exec (feed viewport16 NativePath 1000)
                       (mounted true true (board 10000 1000)))))) ->
      i = ReachEnd).
Proof.
  apply (not_leftward_resets viewport16 NativePath
           (exec (feed viewport16 NativePath 900)
              (exec (feed viewport16 NativePath 1000)
                 (mounted true true (board 10000 1000)))) 950).
  - vm_compute. split; congruence.
  - vm_compute. congruence.
Defined.

(** ** The invariant of a mounted board *)

Lemma Inv_mounted a b d : Inv (mounted a b d).
Proof.
  constructor; cbn.
  - destruct a; auto.
  - destruct b; auto.
  - constructor.
  - constructor.
  - discriminate.
Qed.

Lemma Forall_clearHandle (P : Timer -> Prop) r ts :
  Forall P ts -> Forall P (clearHandle r ts).
Proof.
  intros H. destruct r as [h|]; cbn; [|assumption].
  apply Forall_forall. intros t Ht. apply filter_In in Ht.
  destruct Ht as [Ht _]. rewrite Forall_forall in H. auto.
Qed.

Lemma edgeLine_assign_scrollLeft v e : edgeLine (assign_scrollLeft v e) = edgeLine e.
Proof. reflexivity. Qed.

Lemma edgeLine_assign_scrollTop v e : edgeLine (assign_scrollTop v e) = edgeLine e.
Proof. reflexivity. Qed.

Lemma edgeLine_assign_cursor c e : edgeLine (assign_cursor c e) = edgeLine e.
Proof. reflexivity. Qed.

(** A DOM write through [f] that keeps the scroller's dimensions. *)
Lemma edgeLine_setEl d n (f : Element -> Element) :
  (forall e, edgeLine (f e) = edgeLine e) ->
  edgeLine (scrollerEl (setEl d n (f (getEl d n)))) = edgeLine (scrollerEl d).
Proof. intros H. destruct n; cbn; auto. Qed.

Lemma remaining_edgeLine w v :
  remaining w v <= RIGHT_EDGE_THRESHOLD_PX <-> edgeLine (scrollerEl (dom w)) <= v.
Proof. unfold remaining, edgeLine. lia. Qed.

(** Transfer of the invariant to a world that differs only outside it. *)
Lemma Inv_frame w w' :
  Inv w ->
  scrollerRef w' = scrollerRef w ->
  leftScrollerRef w' = leftScrollerRef w ->
  Forall (fun d => drag_scroller d = Scroller) (drags w') ->
  Forall (fun t => (handle t < nextHandle w')%positive) (timers w') ->
  hasReachedEndRef w' = hasReachedEndRef w ->
  prevScrollLeftRef w' = prevScrollLeftRef w ->
  edgeLine (scrollerEl (dom w')) = edgeLine (scrollerEl (dom w)) ->
  Inv w'.
Proof.
  intros [I1 I2 I3 I4 I5] E1 E2 Hd Ht Eh Ep Ee. constructor.
  - rewrite E1. assumption.
  - rewrite E2. assumption.
  - assumption.
  - assumption.
  - rewrite Eh, Ep. intros H. apply remaining_edgeLine. rewrite Ee.
    apply remaining_edgeLine. auto.
Qed.

Lemma Inv_afterDetect vp cur ev w :
  Inv w -> Inv (afterDetect vp cur (prevScrollLeftRef w) Scroller ev w).
Proof.
  intros [I1 I2 I3 I4 I5]. destruct_world w. cbn in *.
  unfold afterDetect, afterEdge, afterLeft. constructor; cbn.
  - assumption.
  - assumption.
  - assumption.
  - destruct (cur >=? pv).
    + apply Forall_clearHandle. assumption.
    + apply Forall_app. split.
      * apply Forall_clearHandle. eapply Forall_impl; [|exact I4].
        cbn. intros t Ht. lia.
      * repeat constructor. cbn. lia.
  - intros H. apply remaining_edgeLine. cbn.
    destruct (cur >=? edgeLine ds) eqn:E.
    + apply Z.geb_le in E. assumption.
    + cbn in H. discriminate.
Qed.

Lemma Inv_afterSync from to w : Inv w -> Inv (afterSync from to w).
Proof.
  intros I. apply (Inv_frame w); try assumption; try reflexivity.
  - unfold afterSync. cbn. apply I.
  - unfold afterSync. cbn. apply I.
  - unfold afterSync. cbn. destruct (syncingRef w); [reflexivity|].
    apply edgeLine_setEl. apply edgeLine_assign_scrollTop.
Qed.

Lemma Inv_with_state_scrollLeft v w : Inv w -> Inv (with_state_scrollLeft v w).
Proof. intros I. apply (Inv_frame w); try assumption; try reflexivity; apply I. Qed.

Lemma Inv_written_scrollLeft sc v w : Inv w -> Inv (written_scrollLeft sc v w).
Proof.
  intros I. apply (Inv_frame w); try assumption; try reflexivity; try apply I.
  unfold written_scrollLeft. cbn. apply edgeLine_setEl. apply edgeLine_assign_scrollLeft.
Qed.

Lemma Inv_handleRightScroll vp w :
  Inv w -> Inv (exec (handleRightScroll vp (NativeEvent Scroller)) w).
Proof.
  intros I. rewrite exec_handleRightScroll. unfold afterNative. cbn [currentTargetOf].
  set (cur := scrollLeft (getEl (dom w) Scroller)).
  assert (I' : Inv (afterDetect vp cur (prevScrollLeftRef w) Scroller
                      (NativeEvent Scroller) (with_state_scrollLeft cur w))).
  { apply (Inv_afterDetect vp cur (NativeEvent Scroller) (with_state_scrollLeft cur w)).
    apply Inv_with_state_scrollLeft. assumption. }
  destruct (leftScrollerRef w); [apply Inv_afterSync|]; assumption.
Qed.

Lemma Inv_handleMove vp n ev w : Inv w -> Inv (exec (handleMove vp n ev) w).
Proof.
  intros I. destruct (nth_error (drags w) n) as [d|] eqn:Hd.
  - destruct (panning d) eqn:Hp.
    + rewrite (exec_handleMove _ _ _ _ _ Hd Hp). unfold afterMove.
      assert (Hsc : drag_scroller d = Scroller).
      { pose proof (inv_drags w I) as F. rewrite Forall_forall in F.
        apply F. eapply nth_error_In. exact Hd. }
      rewrite Hsc.
      apply (Inv_afterDetect vp (newScrollLeftOf d ev) _
               (with_state_scrollLeft (newScrollLeftOf d ev)
                  (written_scrollLeft Scroller (newScrollLeftOf d ev) w))).
      apply Inv_with_state_scrollLeft, Inv_written_scrollLeft. assumption.
    + unfold exec, handleMove. run_binds. rewrite Hd, Hp. assumption.
  - unfold exec, handleMove. run_binds. rewrite Hd. assumption.
Qed.

Lemma exec_handleLeftScroll e w :
  exec (handleLeftScroll e) w =
  match scrollerRef w with
  | Some r => afterSync (currentTargetOf e) r w
  | None => w
  end.
Proof.
  unfold exec, handleLeftScroll. run_binds.
  destruct (scrollerRef w); [rewrite syncVerticalScroll_eq|]; reflexivity.
Qed.

Lemma log_handleLeftScroll e w :
  log (handleLeftScroll e) w =
  match scrollerRef w with
  | Some r => syncLog (currentTargetOf e) r w
  | None => []
  end.
Proof.
  unfold log, handleLeftScroll. run_binds.
  destruct (scrollerRef w); [rewrite syncVerticalScroll_eq|]; reflexivity.
Qed.

Lemma Inv_handleLeftScroll e w : Inv w -> Inv (exec (handleLeftScroll e) w).
Proof.
  intros I. rewrite exec_handleLeftScroll.
  destruct (scrollerRef w); [apply Inv_afterSync|]; assumption.
Qed.

Lemma Inv_onScroll vp n w : Inv w -> Inv (exec (onScroll vp n) w).
Proof.
  intros I. destruct n; cbn [onScroll].
  - apply Inv_handleLeftScroll. assumption.
  - apply Inv_handleRightScroll. assumption.
  - assumption.
Qed.

Lemma Inv_browserScrollLeft n v w : Inv w -> Inv (exec (browserScrollLeft n v) w).
Proof. apply Inv_written_scrollLeft. Qed.

Lemma Inv_browserScrollTop n v w : Inv w -> Inv (exec (browserScrollTop n v) w).
Proof.
  intros I. apply (Inv_frame w); try assumption; try reflexivity; try apply I.
  unfold exec, browserScrollTop, modify. cbn.
  apply edgeLine_setEl. apply edgeLine_assign_scrollTop.
Qed.

Lemma Forall_update_nth {A} (P : A -> Prop) (f : A -> A) n l :
  (forall x, P x -> P (f x)) -> Forall P l -> Forall P (update_nth n f l).
Proof.
  intros Hf H. revert n. induction H as [|x l Hx Hl IH]; intros n.
  - destruct n; constructor.
  - destruct n; cbn; constructor; auto.
Qed.

Lemma handleEnd_eq n d w :
  nth_error (drags w) n = Some d ->
  handleEnd n w = (tt, afterEnd n d w, endLog d w).
Proof.
  intros Hd. unfold handleEnd, afterEnd, endLog, afterStop, stopLog, dropListeners.
  unfold removeEventListener. run_binds. rewrite Hd.
  destruct_world w. cbn in *.
  destruct ws, ls; reflexivity.
Qed.

Lemma handleEnd_idle n w :
  nth_error (drags w) n = None -> handleEnd n w = (tt, w, []).
Proof. intros Hd. unfold handleEnd. run_binds. rewrite Hd. reflexivity. Qed.

Lemma Inv_afterStop w : Inv w -> Inv (afterStop w).
Proof.
  intros I. unfold afterStop. destruct (lastScrollStateRef w); [|assumption].
  apply (Inv_frame w); try assumption; try reflexivity; apply I.
Qed.

Lemma Inv_handleEnd n w : Inv w -> Inv (exec (handleEnd n) w).
Proof.
  intros I. unfold exec. destruct (nth_error (drags w) n) as [d|] eqn:Hd.
  - rewrite (handleEnd_eq n d w Hd). cbn [fst snd]. unfold afterEnd.
    match goal with |- Inv (with_listeners _ ?W) => assert (I' : Inv W) end.
    { apply Inv_afterStop. apply (Inv_frame w); try assumption; try reflexivity.
      - cbn. apply Forall_update_nth; [|apply I]. intros x Hx. exact Hx.
      - apply I.
      - cbn. apply (edgeLine_setEl (dom w) (el d)). apply edgeLine_assign_cursor. }
    eapply Inv_frame; [exact I' | try reflexivity ..]; apply I'.
  - rewrite (handleEnd_idle n w Hd). assumption.
Qed.

Lemma addEventListener_eq ty fn w :
  addEventListener ty fn w
  = (tt, with_listeners (addListener (ty, fn) (listeners w)) w, []).
Proof.
  unfold addEventListener, modify, addListener.
  destruct (existsb _ _); destruct_world w; reflexivity.
Qed.

Lemma handlePointerDown_eq e sc w :
  ignoredPointer e = false -> scrollerRef w = Some sc ->
  handlePointerDown e w = (tt, afterDown e sc w, downLog e).
Proof.
  intros Hi Hs. unfold handlePointerDown, afterDown, downLog, newDrag.
  unfold ignoredPointer in Hi. rewrite Hi.
  run_binds. rewrite Hs. cbv beta iota.
  rewrite !addEventListener_eq.
  destruct_world w. reflexivity.
Qed.

Lemma handlePointerDown_ignored e w :
  ignoredPointer e = true \/ scrollerRef w = None ->
  handlePointerDown e w = (tt, w, []).
Proof.
  intros H. unfold handlePointerDown. fold (ignoredPointer e).
  destruct (ignoredPointer e); [reflexivity|].
  destruct H as [H|H]; [discriminate|].
  run_binds. rewrite H. reflexivity.
Qed.

Lemma Inv_handlePointerDown e w : Inv w -> Inv (exec (handlePointerDown e) w).
Proof.
  intros I. unfold exec.
  destruct (ignoredPointer e) eqn:Hi.
  { rewrite handlePointerDown_ignored by auto. assumption. }
  destruct (scrollerRef w) as [sc|] eqn:Hs.
  2:{ rewrite handlePointerDown_ignored by auto. assumption. }
  rewrite (handlePointerDown_eq e sc w Hi Hs). cbn [fst snd].
  assert (sc = Scroller).
  { destruct (inv_scrollerRef w I); congruence. }
  subst sc. apply (Inv_frame w); try assumption; try reflexivity.
  - unfold afterDown. cbn. apply Forall_app. split; [apply I|].
    repeat constructor.
  - apply I.
  - unfold afterDown. cbn.
    apply (edgeLine_setEl (dom w) (pe_currentTarget e)). apply edgeLine_assign_cursor.
Qed.

Lemma fireTimer_eq h t w :
  pendingTimer h w = Some t ->
  fireTimer h w = (tt, afterTimeout h w, stopLog (fun _ => timer_event t) w).
Proof.
  intros Hf. unfold fireTimer, afterTimeout, pendingTimer in *. run_binds.
  rewrite Hf. unfold clearTimeout. run_binds.
  rewrite stopCallback_eq. cbn [clearHandle]. rewrite app_nil_l.
  destruct_world w. reflexivity.
Qed.

Lemma fireTimer_idle h w :
  pendingTimer h w = None -> fireTimer h w = (tt, w, []).
Proof.
  intros Hf. unfold fireTimer, pendingTimer in *. run_binds. rewrite Hf. reflexivity.
Qed.

Lemma Inv_fireTimer h w : Inv w -> Inv (exec (fireTimer h) w).
Proof.
  intros I. unfold exec. destruct (pendingTimer h w) as [t|] eqn:Hf.
  - rewrite (fireTimer_eq h t w Hf). cbn [fst snd]. unfold afterTimeout.
    apply Inv_afterStop. apply (Inv_frame w); try assumption; try reflexivity.
    + apply I.
    + cbn. apply Forall_forall. intros x Hx. apply filter_In in Hx.
      destruct Hx as [Hx _]. pose proof (inv_timers w I) as F.
      rewrite Forall_forall in F. auto.
  - rewrite (fireTimer_idle h w Hf). assumption.
Qed.

Lemma exec_runFrames n w :
  exec (runFrames n) w = match n with O => w | S _ => with_syncingRef false w end.
Proof.
  revert w. induction n as [|n IH]; intros w; [reflexivity|].
  cbn [runFrames]. rewrite exec_bind. rewrite IH.
  unfold clearSyncing, exec, modify. cbn [fst snd].
  destruct n; destruct_world w; reflexivity.
Qed.

Lemma log_runFrames n w : log (runFrames n) w = [].
Proof.
  revert w. induction n as [|n IH]; intros w; [reflexivity|].
  cbn [runFrames]. rewrite log_bind. rewrite IH. reflexivity.
Qed.

Lemma exec_animationFrame w :
  exec animationFrame w =
  match frames w with
  | O => with_frames O w
  | S _ => with_syncingRef false (with_frames O w)
  end.
Proof.
  unfold animationFrame. rewrite !exec_bind. rewrite exec_runFrames.
  unfold gets, modify, exec. cbn [fst snd]. reflexivity.
Qed.

Lemma Inv_animationFrame w : Inv w -> Inv (exec animationFrame w).
Proof.
  intros I. rewrite exec_animationFrame.
  destruct (frames w); apply (Inv_frame w); try assumption; try reflexivity; apply I.
Qed.

Lemma Inv_callListener vp fn ev w : Inv w -> Inv (exec (callListener vp fn ev) w).
Proof.
  intros I. destruct fn; cbn [callListener].
  - apply Inv_handleMove. assumption.
  - apply Inv_handleEnd. assumption.
Qed.

Lemma Inv_dispatchTo vp ty ev ls :
  forall w, Inv w -> Inv (exec (dispatchTo vp ty ev ls) w).
Proof.
  induction ls as [|l rest IH]; intros w I; [assumption|].
  cbn [dispatchTo]. rewrite !exec_bind. apply IH.
  unfold gets at 1 2. cbn [fst snd exec].
  destruct (_ && _).
  - apply Inv_callListener. assumption.
  - assumption.
Qed.

Lemma Inv_dispatchWindowEvent vp ty ev w :
  Inv w -> Inv (exec (dispatchWindowEvent vp ty ev) w).
Proof.
  intros I. unfold dispatchWindowEvent. rewrite exec_bind.
  apply Inv_dispatchTo. assumption.
Qed.

Lemma scrollToTask_keeps tasks vp tz taskId w :
  exec (scrollToTask tasks vp tz taskId) w = w.
Proof.
  unfold exec, scrollToTask, scrollTo.
  destruct (find _ tasks) as [task|]; [|reflexivity].
  run_binds. destruct (scrollerRef w); [|reflexivity].
  destruct (start task) as [d|]; [|reflexivity].
  destruct (isValid d); [|reflexivity].
  destruct (differenceInCalendarDays _ _ _); reflexivity.
Qed.

Lemma handleBarDoubleClick_keeps taskId px w :
  exec (handleBarDoubleClick taskId px) w = w.
Proof.
  unfold exec, handleBarDoubleClick, scrollTo. run_binds.
  destruct (scrollerRef w); reflexivity.
Qed.

Lemma Inv_step tasks vp tz ev w : Inv w -> Inv (exec (step tasks vp tz ev) w).
Proof.
  intros I. destruct ev; cbn [step].
  - rewrite exec_bind. apply Inv_onScroll, Inv_browserScrollLeft. assumption.
  - rewrite exec_bind. apply Inv_onScroll, Inv_browserScrollTop. assumption.
  - apply Inv_onScroll. assumption.
  - apply Inv_handlePointerDown. assumption.
  - apply Inv_dispatchWindowEvent. assumption.
  - apply Inv_fireTimer. assumption.
  - apply Inv_animationFrame. assumption.
  - rewrite scrollToTask_keeps. assumption.
  - rewrite handleBarDoubleClick_keeps. assumption.
Qed.

(** Every state the board reaches from its first render satisfies [Inv]. *)
Lemma Inv_run tasks vp tz evs :
  forall w, Inv w -> Inv (exec (run tasks vp tz evs) w).
Proof.
  induction evs as [|ev rest IH]; intros w I; [assumption|].
  cbn [run]. rewrite exec_bind. apply IH, Inv_step. assumption.
Qed.

Lemma Inv_feed vp p v w : Inv w -> Inv (exec (feed vp p v) w).
Proof.
  intros I. destruct p as [|n]; cbn [feed].
  - rewrite exec_bind. apply Inv_handleRightScroll, Inv_browserScrollLeft. assumption.
  - rewrite exec_bind. unfold gets at 1 2. cbn [fst snd exec].
    destruct (nth_error (drags w) n); [apply Inv_handleMove|]; assumption.
Qed.

(** ** The right-edge latch *)

Lemma reachEnd_count vp p w v :
  Inv w -> presentable p w v ->
  count isReachEnd (log (feed vp p v) w)
  = if (v >=? edgeLine (scrollerEl (dom w)))
       && (prevScrollLeftRef w <? edgeLine (scrollerEl (dom w)))
    then 1%nat else 0%nat.
Proof.
  intros I Hp.
  destruct (feed_spec vp p w v Hp) as (_ & _ & _ & _ & _ & Hc & _).
  rewrite Hc.
  destruct (v >=? _) eqn:E1; [|reflexivity].
  destruct (_ <? _) eqn:E2; [|reflexivity].
  destruct (hasReachedEndRef w) eqn:E3; [|reflexivity].
  exfalso. apply Z.ltb_lt in E2.
  pose proof (inv_latch w I E3) as L. apply remaining_edgeLine in L. lia.
Qed.

(** C3.  With the scroller's content and pane size as they are, in every
    state the board reaches from its first render and on either input path,
    an update invokes [onReachEnd] once when the remaining right buffer was
    above 480 px at the previous call and is at or below 480 px at this one,
    and not at all otherwise; so a repeated call within the threshold never
    re-fires.  With content 10000 and pane 1000, the calls at 8600, 8600,
    8000, 8600 invoke it once, not, not, and once again. *)
Theorem reachEnd_on_crossing tasks vp tz a b d evs p v :
  let w := exec (run tasks vp tz evs) (mounted a b d) in
  presentable p w v ->
  (crossing w v -> count isReachEnd (log (feed vp p v) w) = 1%nat) /\
  (~ crossing w v -> count isReachEnd (log (feed vp p v) w) = 0%nat) /\
  map (count isReachEnd)
    (feedAll viewport16 NativePath [8600; 8600; 8000; 8600]
       (mounted true true (board 10000 1000)))
  = [1; 0; 0; 1]%nat.
Proof.
  intros w Hp.
  assert (I : Inv w) by (apply Inv_run, Inv_mounted).
  rewrite (reachEnd_count vp p w v I Hp).
  unfold crossing, remaining, edgeLine.
  set (line := _ - _ - RIGHT_EDGE_THRESHOLD_PX).
  destruct (v >=? line) eqn:E1; destruct (prevScrollLeftRef w <? line) eqn:E2;
    cbn [andb];
    try (apply Z.geb_le in E1); try (rewrite Z.geb_leb in E1; apply Z.leb_gt in E1);
    try (apply Z.ltb_lt in E2); try (apply Z.ltb_ge in E2);
    subst line;
    (split; [|split]; [ first [reflexivity | lia]
                      | first [reflexivity | intros H; exfalso; apply H; lia]
                      | vm_compute; reflexivity ]).
Qed.

Lemma reachEnd_on_crossing_witness :
  let w := exec (run [] viewport16 0 [UserScrollLeft Scroller 8000])
             (mounted true true (board 10000 1000)) in
  (crossing w 8600 ->
   count isReachEnd (log (feed viewport16 NativePath 8600) w) = 1%nat) /\
  (~ crossing w 8600 ->
   count isReachEnd (log (feed viewport16 NativePath 8600) w) = 0%nat) /\
  map (count isReachEnd)
    (feedAll viewport16 NativePath [8600; 8600; 8000; 8600]
       (mounted true true (board 10000 1000)))
  = [1; 0; 0; 1]%nat.
Proof.
  apply (reachEnd_on_crossing [] viewport16 0 true true (board 10000 1000)
           [UserScrollLeft Scroller 8000] NativePath 8600).
  vm_compute. split; congruence.
Defined.

(** ** The two input paths agree *)

Lemma sim_refl w : sim w w.
Proof. constructor; reflexivity. Qed.

Lemma map_handle_filter h ts :
  map handle (filter (fun t => negb (Pos.eqb (handle t) h)) ts)
  = filter (fun x => negb (Pos.eqb x h)) (map handle ts).
Proof.
  induction ts as [|t ts IH]; [reflexivity|].
  cbn. destruct (Pos.eqb (handle t) h); cbn; rewrite IH; reflexivity.
Qed.

Lemma map_handle_clearHandle r ts :
  map handle (clearHandle r ts)
  = match r with
    | Some h => filter (fun x => negb (Pos.eqb x h)) (map handle ts)
    | None => map handle ts
    end.
Proof.
  destruct r as [h|]; [|reflexivity]. apply map_handle_filter.
Qed.

Lemma sim_feed vp n w1 w2 v :
  sim w1 w2 ->
  presentable NativePath w1 v -> presentable (PointerPath n) w2 v ->
  sim (exec (feed vp NativePath v) w1) (exec (feed vp (PointerPath n) v) w2) /\
  invocations (log (feed vp NativePath v) w1)
  = invocations (log (feed vp (PointerPath n) v) w2).
Proof.
  intros [S1 S2 S3 S4 S5 S6 S7 S8 S9] H1 H2.
  destruct (feed_spec vp _ w1 v H1) as (A1 & _ & A3 & A4 & _ & _ & A7 & _).
  destruct (feed_spec vp _ w2 v H2) as (B1 & _ & B3 & B4 & _ & _ & B7 & _).
  destruct (feed_timer_spec vp _ w1 v H1) as (C1 & C2 & C3 & C4 & C5 & _).
  destruct (feed_timer_spec vp _ w2 v H2) as (D1 & D2 & D3 & D4 & D5 & _).
  cbv zeta in *. split.
  - constructor.
    + congruence.
    + rewrite A4, B4, S1, S2, S9. reflexivity.
    + rewrite A3, B3, S1, S3. reflexivity.
    + rewrite C1, D1, S1. reflexivity.
    + rewrite C2, D2, S1, S7. reflexivity.
    + rewrite C5, D5, S1, S6. reflexivity.
    + rewrite C4, D4, S1, S7. reflexivity.
    + rewrite C3, D3, S1, S5, S7. destruct (v >=? prevScrollLeftRef w2).
      * rewrite !map_handle_clearHandle, S8. reflexivity.
      * rewrite !map_app, !map_handle_clearHandle, S8. reflexivity.
    + congruence.
  - rewrite (feed_invocations vp _ w1 v H1), (feed_invocations vp _ w2 v H2).
    unfold detectInvocations. rewrite S1, S2, S3, S9. reflexivity.
Qed.

Lemma find_handle_sim h ts1 ts2 :
  map handle ts1 = map handle ts2 ->
  match find (fun t => Pos.eqb (handle t) h) ts1,
        find (fun t => Pos.eqb (handle t) h) ts2 with
  | Some _, Some _ | None, None => True
  | _, _ => False
  end.
Proof.
  revert ts2. induction ts1 as [|t1 ts1 IH]; intros [|t2 ts2] E; try discriminate.
  - exact Logic.I.
  - cbn in E. injection E as E1 E2. cbn. rewrite E1.
    destruct (Pos.eqb (handle t2) h); [exact Logic.I|]. apply IH. assumption.
Qed.

Lemma invocations_stopLog ev1 ev2 w1 w2 :
  wasScrollingLeftRef w1 = wasScrollingLeftRef w2 ->
  lastScrollStateRef w1 = lastScrollStateRef w2 ->
  invocations (stopLog ev1 w1) = invocations (stopLog ev2 w2).
Proof.
  intros E1 E2. unfold stopLog. rewrite E1, E2.
  destruct (wasScrollingLeftRef w2), (lastScrollStateRef w2); reflexivity.
Qed.

Lemma sim_fireTimer h w1 w2 :
  sim w1 w2 ->
  sim (exec (fireTimer h) w1) (exec (fireTimer h) w2) /\
  invocations (log (fireTimer h) w1) = invocations (log (fireTimer h) w2).
Proof.
  intros S. pose proof (find_handle_sim h _ _ (sim_timers _ _ S)) as F.
  fold (pendingTimer h w1) in F. fold (pendingTimer h w2) in F.
  unfold exec, log.
  destruct (pendingTimer h w1) as [t1|] eqn:E1;
    destruct (pendingTimer h w2) as [t2|] eqn:E2; try contradiction.
  - rewrite (fireTimer_eq h t1 w1 E1), (fireTimer_eq h t2 w2 E2). cbn [fst snd].
    destruct S as [S1 S2 S3 S4 S5 S6 S7 S8 S9]. split.
    + unfold afterTimeout, afterStop. cbn [lastScrollStateRef with_timers].
      rewrite S6.
      destruct (lastScrollStateRef w2) eqn:L; constructor; cbn;
        rewrite ?map_handle_filter; congruence.
    + apply invocations_stopLog; assumption.
  - rewrite (fireTimer_idle h w1 E1), (fireTimer_idle h w2 E2). cbn [fst snd].
    split; [assumption|reflexivity].
Qed.

Lemma presentable_fireTimer p h w v :
  presentable p w v -> presentable p (exec (fireTimer h) w) v.
Proof.
  intros H. unfold exec. destruct (pendingTimer h w) as [t|] eqn:E.
  - rewrite (fireTimer_eq h t w E). cbn [fst snd]. unfold afterTimeout, afterStop.
    cbn. destruct (lastScrollStateRef w); destruct p; exact H.
  - rewrite (fireTimer_idle h w E). exact H.
Qed.

Lemma presentable_feedInput vp p i w v :
  Forall (presentable p w) (moves [i]) -> presentable p w v ->
  presentable p (exec (feedInput vp p i) w) v.
Proof.
  intros Hi Hv. destruct i as [x|h]; cbn [feedInput].
  - apply presentable_feed; [|assumption]. inversion Hi. assumption.
  - apply presentable_fireTimer. assumption.
Qed.

Lemma sim_feedInput vp n i w1 w2 :
  sim w1 w2 ->
  Forall (presentable NativePath w1) (moves [i]) ->
  presentable (PointerPath n) w2 0 ->
  sim (exec (feedInput vp NativePath i) w1)
      (exec (feedInput vp (PointerPath n) i) w2) /\
  invocations (log (feedInput vp NativePath i) w1)
  = invocations (log (feedInput vp (PointerPath n) i) w2).
Proof.
  intros S Hi H2. destruct i as [v|h]; cbn [feedInput].
  - apply sim_feed; [assumption| |exact H2]. inversion Hi. assumption.
  - apply sim_fireTimer. assumption.
Qed.

(** C2.  From states that agree on the tracking refs, the pending timers'
    handles and the scroller's dimensions (in particular from one and the
    same state), with drag [n] live, a sequence of absolute scroll-left
    values the scroller can take, interleaved with expiries of the stop
    timer, produces through the native scroll handler and through the
    pointer-move handler the same sequence of [onReachStart], [onReachEnd],
    [onScrollLeft] and [onStopScrollingLeft] invocations with the same
    numeric arguments; only the event payload differs. *)
Theorem paths_agree vp n ins w1 w2 :
  sim w1 w2 ->
  Forall (presentable NativePath w1) (moves ins) ->
  presentable (PointerPath n) w2 0 ->
  invocations (log (feedInputs vp NativePath ins) w1)
  = invocations (log (feedInputs vp (PointerPath n) ins) w2).
Proof.
  intros S H1 H2. revert w1 w2 S H1 H2.
  induction ins as [|i rest IH]; intros w1 w2 S H1 H2; [reflexivity|].
  cbn [feedInputs]. rewrite !log_bind, !invocations_app.
  replace (moves (i :: rest)) with (moves [i] ++ moves rest) in H1
    by (unfold moves; cbn [flat_map]; rewrite app_nil_r; reflexivity).
  apply Forall_app in H1. destruct H1 as [Hi Hrest].
  destruct (sim_feedInput vp n i w1 w2 S Hi H2) as [S' E].
  f_equal; [exact E|].
  apply IH.
  - exact S'.
  - eapply Forall_impl; [|exact Hrest]. intros v Hv.
    apply presentable_feedInput; assumption.
  - apply presentable_feedInput with (p := PointerPath n); [|exact H2].
    destruct i; repeat constructor. exact H2.
Qed.

Lemma paths_agree_witness :
  invocations
    (log (feedInputs viewport16 NativePath
            [MoveTo 900; MoveTo 800; Elapse 2; MoveTo 8600; MoveTo 700]) dragging)
  = invocations
      (log (feedInputs viewport16 (PointerPath 0)
              [MoveTo 900; MoveTo 800; Elapse 2; MoveTo 8600; MoveTo 700]) dragging).
Proof.
  apply (paths_agree viewport16 0
           [MoveTo 900; MoveTo 800; Elapse 2; MoveTo 8600; MoveTo 700]
           dragging dragging).
  - constructor; reflexivity.
  - repeat constructor; vm_compute; congruence.
  - eexists. vm_compute. repeat split; reflexivity.
Defined.

(** ** The stop timer *)

(** C4.  The stop timer ends the burst but not the episode.  After the
    calls at 1000 and 900 the stop timer (handle 1) runs out and the hook
    emits the final [onScrollLeft] with delta 0 and the last positions, then
    [onStopScrollingLeft]; yet [scrollingLeftRef] ("currently scrolling
    left?") stays set, and the next leftward call, at 800 and under the
    threshold of 5760, does not invoke [onReachStart]. *)
Theorem stop_timer_keeps_flag :
  let w1 := exec (feedInputs viewport16 NativePath [MoveTo 1000; MoveTo 900])
              (mounted true true (board 10000 1000)) in
  let w2 := exec (fireTimer 1) w1 in
  invocations (log (fireTimer 1) w1)
    = [ScrollLeft 900 1000 0 Scroller; StopScrollingLeft] /\
  scrollingLeftRef w2 <> false /\
  800 < prevScrollLeftRef w2 /\
  800 < twelveMonthsPx viewport16 /\
  ~ In OnReachStart (log (feed viewport16 NativePath 800) w2).
Proof.
  vm_compute. repeat split; try congruence.
  intros H. repeat (destruct H as [H|H]; [discriminate H|]). exact H.
Qed.

(** ** Ending a drag *)

Lemma dropListeners_dragListeners n : dropListeners n (dragListeners n) = [].
Proof.
  unfold dropListeners, dragListeners, Listener_eqb. cbn.
  repeat (rewrite Nat.eqb_refl; cbn). reflexivity.
Qed.

Lemma handleEnd_in_flight n d w :
  nth_error (drags w) n = Some d ->
  listeners w = dragListeners n ->
  exec (handleEnd n) w
  = with_listeners []
      (afterStop
         (with_dom (setEl (dom w) (el d)
                      (assign_cursor (prevCursor d) (getEl (dom w) (el d))))
            (with_drags (update_nth n (set_panning false) (drags w)) w))) /\
  log (handleEnd n) w = endLog d w.
Proof.
  intros Hd Hl. unfold exec, log. rewrite (handleEnd_eq n d w Hd). cbn [fst snd].
  unfold afterEnd. rewrite Hl, dropListeners_dragListeners. split; reflexivity.
Qed.

Lemma exec_gets {A} (f : World -> A) w : exec (gets f) w = w.
Proof. reflexivity. Qed.
Lemma log_gets {A} (f : World -> A) w : log (gets f) w = [].
Proof. reflexivity. Qed.
Lemma val_gets {A} (f : World -> A) w : fst (fst (gets f w)) = f w.
Proof. reflexivity. Qed.
Lemma exec_ret {A} (a : A) w : exec (ret a) w = w.
Proof. reflexivity. Qed.
Lemma log_ret {A} (a : A) w : log (ret a) w = [].
Proof. reflexivity. Qed.

Create Rewrite HintDb hook.
#[local] Hint Rewrite @exec_bind @log_bind @exec_gets @log_gets @val_gets
  @exec_ret @log_ret app_nil_l app_nil_r : hook.

(** Either terminating event reaches [handleEnd] of the drag, and nothing
    else. *)
Lemma dispatch_end vp ty ev n w :
  listeners w = dragListeners n ->
  ty = pointerup \/ ty = pointercancel ->
  exec (dispatchWindowEvent vp ty ev) w = exec (handleEnd n) w /\
  log (dispatchWindowEvent vp ty ev) w = log (handleEnd n) w.
Proof.
  intros Hl Hty.
  assert (Hin : existsb (Listener_eqb (ty, HandleEnd n)) (dragListeners n) = true).
  { unfold dragListeners, Listener_eqb. cbn. rewrite Nat.eqb_refl.
    destruct Hty; subst ty; cbn; rewrite ?orb_true_r; reflexivity. }
  unfold dispatchWindowEvent. autorewrite with hook. rewrite Hl.
  unfold dragListeners at 1 2. cbn [dispatchTo]. autorewrite with hook.
  destruct Hty; subst ty; cbn [WindowEventType_eqb fst snd andb callListener];
    autorewrite with hook; rewrite ?Hl, ?Hin; cbn [andb];
    autorewrite with hook; split; reflexivity.
Qed.

(** C6, as stated, fails.  A drag pans left from 1000 to 900, arming the
    stop timer (handle 1), and ends with pointer-up: the stop pair is
    emitted at once, but the timer is neither canceled nor the ref nulled;
    it is still pending afterwards. *)
Lemma pointer_up_leaves_timer_counterexample :
  let w1 := exec (dispatchWindowEvent viewport16 pointermove (pointerDownAt 200))
              dragging in
  let w2 := exec (dispatchWindowEvent viewport16 pointerup (pointerDownAt 200)) w1 in
  invocations (log (dispatchWindowEvent viewport16 pointerup (pointerDownAt 200)) w1)
    = [ScrollLeft 900 1000 0 Scroller; StopScrollingLeft] /\
  pendingTimer 1 w1 <> None /\
  pendingTimer 1 w2 <> None /\
  scrollLeftTimeoutRef w2 <> None.
Proof. vm_compute. repeat split; congruence. Qed.

(** C6, amended.  With one drag in flight and a scrolling-left burst open,
    pointer-up and pointer-cancel alike restore the prior cursor, emit at
    once the stop pair (an [onScrollLeft] with [scrollDelta = 0] carrying
    the last recorded positions, then [onStopScrollingLeft]), clear
    [wasScrollingLeftRef] and the drag's [panning], and remove the three
    window listeners.  The pending stop timer is not canceled: the pending
    timers and the timer ref are as before, and whichever timer runs out
    next emits nothing, nor does any further window pointer event, so the
    pair is emitted once. *)
Theorem pointer_end_forces_stop vp ty ev n d st w :
  ty = pointerup \/ ty = pointercancel ->
  listeners w = dragListeners n ->
  nth_error (drags w) n = Some d ->
  wasScrollingLeftRef w = true ->
  lastScrollStateRef w = Some st ->
  let w' := exec (dispatchWindowEvent vp ty ev) w in
  log (dispatchWindowEvent vp ty ev) w
    = [WriteCursor (el d) (prevCursor d);
       OnScrollLeft {| currentScrollLeft := ss_currentScrollLeft st;
                       prevScrollLeft := ss_prevScrollLeft st;
                       scrollDelta := 0;
                       scroller := ss_scroller st;
                       event := createSyntheticScrollEvent (ss_scroller st) |};
       OnStopScrollingLeft] /\
  cursor (getEl (dom w') (el d)) = prevCursor d /\
  listeners w' = [] /\
  nth_error (drags w') n = Some (set_panning false d) /\
  wasScrollingLeftRef w' = false /\
  timers w' = timers w /\
  scrollLeftTimeoutRef w' = scrollLeftTimeoutRef w /\
  (forall h, log (fireTimer h) w' = []) /\
  (forall ty' ev', log (dispatchWindowEvent vp ty' ev') w' = []).
Proof.
  intros Hty Hl Hd Hwas Hlast w'.
  destruct (dispatch_end vp ty ev n w Hl Hty) as [E L].
  destruct (handleEnd_in_flight n d w Hd Hl) as [E' L'].
  assert (W : w' = with_listeners []
                     (with_wasScrollingLeftRef false
                        (with_dom (setEl (dom w) (el d)
                                     (assign_cursor (prevCursor d) (getEl (dom w) (el d))))
                           (with_drags (update_nth n (set_panning false) (drags w)) w)))).
  { unfold w'. rewrite E, E'. unfold afterStop.
    cbn [lastScrollStateRef with_dom with_drags]. rewrite Hlast. reflexivity. }
  repeat split.
  - rewrite L, L'. unfold endLog, stopLog. rewrite Hwas, Hlast. reflexivity.
  - rewrite W. cbn. destruct (el d); reflexivity.
  - rewrite W. reflexivity.
  - rewrite W. cbn. clear - Hd. revert n Hd.
    induction (drags w) as [|x l IH]; intros [|n] Hd; cbn in *; try discriminate.
    + congruence.
    + apply IH. assumption.
  - rewrite W. reflexivity.
  - rewrite W. reflexivity.
  - rewrite W. reflexivity.
  - intros h. unfold log. destruct (pendingTimer h w') as [t|] eqn:F.
    + rewrite (fireTimer_eq h t w' F). cbn [snd]. unfold stopLog.
      rewrite W. reflexivity.
    + rewrite (fireTimer_idle h w' F). reflexivity.
  - intros ty' ev'. unfold dispatchWindowEvent. autorewrite with hook.
    rewrite W. reflexivity.
Qed.

Lemma pointer_end_forces_stop_witness :
  let w := exec (dispatchWindowEvent viewport16 pointermove (pointerDownAt 200))
             dragging in
  let d := {| startX := 100; startScrollLeft := 1000; panning := true;
              drag_scroller := Scroller; el := Surface; prevCursor := "" |} in
  let w' := exec (dispatchWindowEvent viewport16 pointercancel (pointerDownAt 200)) w in
  log (dispatchWindowEvent viewport16 pointercancel (pointerDownAt 200)) w
    = [WriteCursor Surface "";
       OnScrollLeft {| currentScrollLeft := 900;
                       prevScrollLeft := 1000;
                       scrollDelta := 0;
                       scroller := Scroller;
                       event := createSyntheticScrollEvent Scroller |};
       OnStopScrollingLeft] /\
  cursor (getEl (dom w') Surface) = "" /\
  listeners w' = [] /\
  nth_error (drags w') 0 = Some (set_panning false d) /\
  wasScrollingLeftRef w' = false /\
  timers w' = timers w /\
  scrollLeftTimeoutRef w' = scrollLeftTimeoutRef w /\
  (forall h, log (fireTimer h) w' = []) /\
  (forall ty' ev', log (dispatchWindowEvent viewport16 ty' ev') w' = []).
Proof.
  apply (pointer_end_forces_stop viewport16 pointercancel (pointerDownAt 200) 0
           {| startX := 100; startScrollLeft := 1000; panning := true;
              drag_scroller := Scroller; el := Surface; prevCursor := "" |}
           {| ss_scroller := Scroller; ss_currentScrollLeft := 900;
              ss_prevScrollLeft := 1000 |}
           (exec (dispatchWindowEvent viewport16 pointermove (pointerDownAt 200))
              dragging)).
  - right. reflexivity.
  - vm_compute. reflexivity.
  - vm_compute. reflexivity.
  - vm_compute. reflexivity.
  - vm_compute. reflexivity.
Defined.

(** ** Vertical mirroring *)

Lemma guard_handleRightScroll vp e w :
  syncingRef w = true -> syncingRef (exec (handleRightScroll vp e) w) = true.
Proof.
  intros H. rewrite exec_handleRightScroll. unfold afterNative.
  destruct (leftScrollerRef w); [reflexivity|exact H].
Qed.

Lemma guard_handleLeftScroll e w :
  syncingRef w = true -> syncingRef (exec (handleLeftScroll e) w) = true.
Proof.
  intros H. rewrite exec_handleLeftScroll.
  destruct (scrollerRef w); [reflexivity|exact H].
Qed.

Lemma guard_handleMove vp n ev w :
  syncingRef w = true -> syncingRef (exec (handleMove vp n ev) w) = true.
Proof.
  intros H. destruct (nth_error (drags w) n) as [d|] eqn:Hd.
  - destruct (panning d) eqn:Hp.
    + rewrite (exec_handleMove _ _ _ _ _ Hd Hp). exact H.
    + unfold exec, handleMove. run_binds. rewrite Hd, Hp. exact H.
  - unfold exec, handleMove. run_binds. rewrite Hd. exact H.
Qed.

Lemma guard_handleEnd n w :
  syncingRef w = true -> syncingRef (exec (handleEnd n) w) = true.
Proof.
  intros H. unfold exec. destruct (nth_error (drags w) n) as [d|] eqn:Hd.
  - rewrite (handleEnd_eq n d w Hd). cbn [fst snd]. unfold afterEnd, afterStop.
    cbn [lastScrollStateRef with_dom with_drags].
    destruct (lastScrollStateRef w); exact H.
  - rewrite (handleEnd_idle n w Hd). exact H.
Qed.

Lemma guard_handlePointerDown e w :
  syncingRef w = true -> syncingRef (exec (handlePointerDown e) w) = true.
Proof.
  intros H. unfold exec. destruct (ignoredPointer e) eqn:Hi.
  { rewrite handlePointerDown_ignored by auto. exact H. }
  destruct (scrollerRef w) as [sc|] eqn:Hs.
  - rewrite (handlePointerDown_eq e sc w Hi Hs). exact H.
  - rewrite handlePointerDown_ignored by auto. exact H.
Qed.

Lemma guard_fireTimer h w :
  syncingRef w = true -> syncingRef (exec (fireTimer h) w) = true.
Proof.
  intros H. unfold exec. destruct (pendingTimer h w) as [t|] eqn:F.
  - rewrite (fireTimer_eq h t w F). cbn [fst snd]. unfold afterTimeout, afterStop.
    cbn [lastScrollStateRef with_timers]. destruct (lastScrollStateRef w); exact H.
  - rewrite (fireTimer_idle h w F). exact H.
Qed.

Lemma guard_dispatchTo vp ty ev ls :
  forall w, syncingRef w = true ->
            syncingRef (exec (dispatchTo vp ty ev ls) w) = true.
Proof.
  induction ls as [|l rest IH]; intros w H; [exact H|].
  cbn [dispatchTo]. autorewrite with hook. apply IH.
  destruct (_ && _); [|exact H].
  destruct (snd l); cbn [callListener].
  - apply guard_handleMove. exact H.
  - apply guard_handleEnd. exact H.
Qed.

(** The guard, once set, survives every event but the animation frame. *)
Lemma step_keeps_guard tasks vp tz ev w :
  ev <> AnimationFrame ->
  syncingRef w = true -> syncingRef (exec (step tasks vp tz ev) w) = true.
Proof.
  intros Hev H. destruct ev; cbn [step]; autorewrite with hook.
  - destruct n; cbn [onScroll];
      [apply guard_handleLeftScroll | apply guard_handleRightScroll | ]; exact H.
  - destruct n; cbn [onScroll];
      [apply guard_handleLeftScroll | apply guard_handleRightScroll | ]; exact H.
  - destruct n; cbn [onScroll];
      [apply guard_handleLeftScroll | apply guard_handleRightScroll | ]; exact H.
  - apply guard_handlePointerDown. exact H.
  - unfold dispatchWindowEvent. autorewrite with hook. apply guard_dispatchTo. exact H.
  - apply guard_fireTimer. exact H.
  - congruence.
  - rewrite scrollToTask_keeps. exact H.
  - rewrite handleBarDoubleClick_keeps. exact H.
Qed.

Lemma written_app a b : written (a ++ b) = written a ++ written b.
Proof. unfold written. apply flat_map_app. Qed.

Lemma written_detectLog vp cur prev sc ev w : written (detectLog vp cur prev sc ev w) = [].
Proof.
  unfold detectLog, leftLog, edgeLog. rewrite written_app.
  destruct (cur >=? prev); [|destruct (negb _ && _)]; destruct (_ && _ && _);
    reflexivity.
Qed.

Lemma count_detectLog_write vp cur prev sc ev w :
  count isWriteScrollTop (detectLog vp cur prev sc ev w) = 0%nat.
Proof.
  unfold detectLog, leftLog, edgeLog. rewrite count_app.
  destruct (cur >=? prev); [|destruct (negb _ && _)]; destruct (_ && _ && _);
    reflexivity.
Qed.

Lemma settle_cons vp f n q w :
  settle vp (S f) (n :: q) w
  = match settle vp f (q ++ written (log (onScroll vp n) w)) (exec (onScroll vp n) w) with
    | Some (w2, out2) => Some (w2, log (onScroll vp n) w ++ out2)
    | None => None
    end.
Proof. cbn [settle]. rewrite (run_unit (onScroll vp n) w). reflexivity. Qed.

Lemma settle_nil vp f w : settle vp f [] w = Some (w, []).
Proof. destruct f; reflexivity. Qed.

Lemma syncVerticalScroll_guarded from to w :
  syncingRef w = true -> syncVerticalScroll from to w = (tt, w, []).
Proof.
  intros H. unfold syncVerticalScroll. run_binds. rewrite H. reflexivity.
Qed.


Lemma filter_detectLog_write vp cur prev sc ev w :
  filter isWriteScrollTop (detectLog vp cur prev sc ev w) = [].
Proof.
  pose proof (count_detectLog_write vp cur prev sc ev w) as C.
  unfold count in C. apply length_zero_iff_nil in C. exact C.
Qed.

(** A scroll event on the row list, both panes attached and the guard
    clear: one write, onto the chart scroller, and the harness settles. *)
Lemma settle_from_left vp f w0 :
  syncingRef w0 = false ->
  scrollerRef w0 = Some Scroller ->
  leftScrollerRef w0 = Some LeftScroller ->
  exists w' out,
    settle vp (S (S f)) [LeftScroller] w0 = Some (w', out) /\
    filter isWriteScrollTop out
      = [WriteScrollTop Scroller (scrollTop (getEl (dom w0) LeftScroller))] /\
    syncingRef w' = true /\
    frames w' = S (frames w0).
Proof.
  intros Hs0 Hr0 Hl0.
  rewrite settle_cons. cbn [onScroll].
  rewrite exec_handleLeftScroll, log_handleLeftScroll, Hr0. cbn [currentTargetOf].
  set (w1 := afterSync LeftScroller Scroller w0).
  assert (L1 : syncLog LeftScroller Scroller w0
               = [WriteScrollTop Scroller (scrollTop (getEl (dom w0) LeftScroller))]).
  { unfold syncLog. rewrite Hs0. reflexivity. }
  rewrite L1. cbn [written flat_map app]. rewrite settle_cons. cbn [onScroll].
  rewrite exec_handleRightScroll, log_handleRightScroll.
  unfold nativeLog, afterNative. cbn [currentTargetOf].
  assert (Hl1 : leftScrollerRef w1 = Some LeftScroller) by exact Hl0.
  rewrite Hl1.
  match goal with |- context [syncLog Scroller LeftScroller ?W] =>
    assert (L2 : syncLog Scroller LeftScroller W = []) by reflexivity;
    rewrite L2 end.
  rewrite app_nil_r, written_detectLog. cbn [app]. rewrite settle_nil.
  eexists. eexists. split; [reflexivity|].
  rewrite app_nil_r. cbn [app filter isWriteScrollTop].
  rewrite filter_detectLog_write. split; [reflexivity|]. split; [reflexivity|].
  unfold w1, afterSync. cbn. rewrite Hs0. congruence.
Qed.

(** The same for a scroll event on the chart scroller. *)
Lemma settle_from_right vp f w0 :
  syncingRef w0 = false ->
  scrollerRef w0 = Some Scroller ->
  leftScrollerRef w0 = Some LeftScroller ->
  exists w' out,
    settle vp (S (S f)) [Scroller] w0 = Some (w', out) /\
    filter isWriteScrollTop out
      = [WriteScrollTop LeftScroller (scrollTop (getEl (dom w0) Scroller))] /\
    syncingRef w' = true /\
    frames w' = S (frames w0).
Proof.
  intros Hs0 Hr0 Hl0.
  rewrite settle_cons. cbn [onScroll].
  rewrite exec_handleRightScroll, log_handleRightScroll.
  unfold nativeLog, afterNative. cbn [currentTargetOf]. rewrite Hl0.
  match goal with |- context [syncLog Scroller LeftScroller ?W] =>
    assert (L1 : syncLog Scroller LeftScroller W
                 = [WriteScrollTop LeftScroller (scrollTop (getEl (dom w0) Scroller))])
      by (unfold syncLog; change (syncingRef W) with (syncingRef w0);
          rewrite Hs0; reflexivity);
    rewrite L1 end.
  rewrite written_app, written_detectLog. cbn [written flat_map app].
  rewrite settle_cons. cbn [onScroll].
  rewrite exec_handleLeftScroll, log_handleLeftScroll.
  match goal with |- context [scrollerRef ?W] =>
    change (scrollerRef W) with (scrollerRef w0) end.
  rewrite Hr0. cbn [currentTargetOf].
  match goal with |- context [syncLog LeftScroller Scroller ?W] =>
    assert (L2 : syncLog LeftScroller Scroller W = []) by reflexivity;
    rewrite L2 end.
  cbn [written flat_map app]. rewrite settle_nil.
  eexists. eexists. split; [reflexivity|].
  rewrite !app_nil_r. rewrite filter_app, filter_detectLog_write.
  split; [reflexivity|]. split; [reflexivity|].
  unfold afterSync. cbn. rewrite Hs0. congruence.
Qed.

Lemma browserScrollTop_spec n v w :
  let w0 := exec (browserScrollTop n v) w in
  syncingRef w0 = syncingRef w /\
  scrollerRef w0 = scrollerRef w /\
  leftScrollerRef w0 = leftScrollerRef w /\
  frames w0 = frames w /\
  scrollTop (getEl (dom w0) n) = clampRange v (maxScrollTop (getEl (dom w) n)).
Proof.
  unfold exec, browserScrollTop, modify. cbn [fst snd].
  repeat split. cbn. destruct n; reflexivity.
Qed.

(** C5.  With both panes attached and the guard clear, a user scroll of
    either pane, run through a harness that answers every [scrollTop] write
    with a scroll event on the pane written to, settles after one mirrored
    write (the pane's offset onto the other pane) and leaves the guard set;
    the next animation frame clears it.  While the guard is set a mirror
    call does nothing, and no event other than the animation frame clears
    the guard. *)
Theorem mirror_once tasks vp tz n v fuel w :
  syncingRef w = false ->
  scrollerRef w = Some Scroller ->
  leftScrollerRef w = Some LeftScroller ->
  n = LeftScroller \/ n = Scroller ->
  (2 <= fuel)%nat ->
  (exists w' out,
      userScroll vp fuel n v w = Some (w', out) /\
      filter isWriteScrollTop out
        = [WriteScrollTop (otherPane n)
             (clampRange v (maxScrollTop (getEl (dom w) n)))] /\
      syncingRef w' = true /\
      syncingRef (exec animationFrame w') = false) /\
  (forall from to w0,
      syncingRef w0 = true -> syncVerticalScroll from to w0 = (tt, w0, [])) /\
  (forall ev w0,
      ev <> AnimationFrame -> syncingRef w0 = true ->
      syncingRef (exec (step tasks vp tz ev) w0) = true).
Proof.
  intros Hs Hr Hl Hn Hfuel. split; [|split].
  - destruct fuel as [|[|f]]; try lia.
    destruct (browserScrollTop_spec n v w) as (B1 & B2 & B3 & B4 & B5).
    unfold userScroll.
    set (w0 := exec (browserScrollTop n v) w) in *. clearbody w0.
    rewrite Hs in B1. rewrite Hr in B2. rewrite Hl in B3.
    assert (F : forall w', frames w' = S (frames w0) ->
                           syncingRef (exec animationFrame w') = false).
    { intros w' Hf. rewrite exec_animationFrame, Hf. reflexivity. }
    destruct Hn; subst n; cbn [otherPane]; rewrite <- B5.
    + destruct (settle_from_left vp f w0 B1 B2 B3) as (w' & out & E1 & E2 & E3 & E4).
      exists w', out. auto.
    + destruct (settle_from_right vp f w0 B1 B2 B3) as (w' & out & E1 & E2 & E3 & E4).
      exists w', out. auto.
  - apply syncVerticalScroll_guarded.
  - intros ev w0. apply step_keeps_guard.
Qed.

Lemma mirror_once_witness :
  (exists w' out,
      userScroll viewport16 2 Scroller 300 (mounted true true (board 10000 1000))
        = Some (w', out) /\
      filter isWriteScrollTop out
        = [WriteScrollTop (otherPane Scroller)
             (clampRange 300
                (maxScrollTop (getEl (dom (mounted true true (board 10000 1000)))
                                 Scroller)))] /\
      syncingRef w' = true /\
      syncingRef (exec animationFrame w') = false) /\
  (forall from to w0,
      syncingRef w0 = true -> syncVerticalScroll from to w0 = (tt, w0, [])) /\
  (forall ev w0,
      ev <> AnimationFrame -> syncingRef w0 = true ->
      syncingRef (exec (step [] viewport16 0 ev) w0) = true).
Proof.
  apply (mirror_once [] viewport16 0 Scroller 300 2
           (mounted true true (board 10000 1000))).
  - reflexivity.
  - reflexivity.
  - reflexivity.
  - right. reflexivity.
  - lia.
Defined.

(** ** Centering on a task *)

(** The start date [scrollToTask] measures from, for a task starting at [s]
    under a viewport starting at [t0]: [s] clamped into the viewport, or
    only raised to its start when the viewport end is an invalid date. *)
Lemma clampDate_start s t0 e :
  clampDate (ValidDate s) (ValidDate t0) e
  = ValidDate match e with
              | ValidDate t1 => spec_clampDate s t0 t1
              | InvalidDate => Z.max t0 s
              end.
Proof.
  unfold clampDate, isBefore, isAfter, spec_clampDate.
  destruct (Z.ltb_spec s t0) as [L|L].
  - destruct e; [reflexivity|]. f_equal. lia.
  - destruct e as [t1|]; [destruct (s >? t1); reflexivity|]. f_equal. lia.
Qed.

Lemma spec_clampDate_inside s t0 t1 :
  t0 <= t1 -> t0 <= spec_clampDate s t0 t1 <= t1.
Proof.
  intros H. unfold spec_clampDate.
  destruct (Z.ltb_spec s t0); [lia|].
  rewrite Z.gtb_ltb. destruct (Z.ltb_spec t1 s); lia.
Qed.

Lemma scrollToTask_request tasks vp tz taskId task s t0 sc w days :
  find (fun t => String.eqb (String_ (id t)) taskId) tasks = Some task ->
  start task = Some (ValidDate s) ->
  vp_start vp = ValidDate t0 ->
  scrollerRef w = Some sc ->
  differenceInCalendarDays tz
    (ValidDate match vp_end vp with
               | ValidDate t1 => spec_clampDate s t0 t1
               | InvalidDate => Z.max t0 s
               end)
    (ValidDate t0) = Some days ->
  scrollToTask tasks vp tz taskId w
  = (tt, w,
     [ScrollTo sc
        (spec_centered
           (spec_dayOffsetPixels days
              match vp_pxPerDay vp with Some p => p | None => 16 end)
           (clientWidth (getEl (dom w) sc)))
        smooth]).
Proof.
  intros Hf Hs Hv Hr Hd.
  unfold scrollToTask, scrollTo. rewrite Hf. run_binds. rewrite Hr, Hs.
  cbn [isValid]. rewrite Hv, clampDate_start, Hd. reflexivity.
Qed.

(** C8.  For a task found in the list with a valid start date, under a
    valid viewport start and with the scroller attached, [scrollToTask]
    makes exactly one request and changes no state: a smooth scroll of the
    scroller to [max(0, days) * pxPerDay - paneWidth/2], not clamped, where
    [days] is the calendar-day count from the viewport start to the task's
    start clamped into the viewport (lying between the viewport's start and
    end when these are in order), and [pxPerDay] is the viewport's scale or
    16 when it has none.  For a task inside the viewport starting 10
    calendar days after the viewport start, with [pxPerDay = 16] and a
    pane 500 wide, the requested scroll-left is -90. *)
Theorem scrollToTask_centers tasks vp tz taskId task s t0 sc w :
  find (fun t => String.eqb (String_ (id t)) taskId) tasks = Some task ->
  start task = Some (ValidDate s) ->
  vp_start vp = ValidDate t0 ->
  scrollerRef w = Some sc ->
  (exists c days scale,
      c = match vp_end vp with
          | ValidDate t1 => spec_clampDate s t0 t1
          | InvalidDate => Z.max t0 s
          end /\
      (forall t1, vp_end vp = ValidDate t1 -> t0 <= t1 -> t0 <= c <= t1) /\
      scale = match vp_pxPerDay vp with Some p => p | None => 16 end /\
      differenceInCalendarDays tz (ValidDate c) (ValidDate t0) = Some days /\
      scrollToTask tasks vp tz taskId w
      = (tt, w,
         [ScrollTo sc
            (spec_centered (spec_dayOffsetPixels days scale)
               (clientWidth (getEl (dom w) sc)))
            smooth])) /\
  (differenceInCalendarDays tz (ValidDate s) (ValidDate t0) = Some 10 ->
   t0 <= s ->
   (forall t1, vp_end vp = ValidDate t1 -> s <= t1) ->
   vp_pxPerDay vp = Some 16 ->
   clientWidth (getEl (dom w) sc) = 500 ->
   exists left,
     log (scrollToTask tasks vp tz taskId) w = [ScrollTo sc left smooth] /\
     (left == -90)%Q).
Proof.
  intros Hf Hs Hv Hr. split.
  - eexists _, _, _. split; [reflexivity|].
    split; [|split; [reflexivity|]].
    + intros t1 He Hle. rewrite He. apply spec_clampDate_inside. assumption.
    + split; [reflexivity|].
      apply (scrollToTask_request tasks vp tz taskId task s t0 sc w _ Hf Hs Hv Hr).
      reflexivity.
  - intros Hd Hlo Hhi Hp Hw.
    assert (Hc : match vp_end vp with
                 | ValidDate t1 => spec_clampDate s t0 t1
                 | InvalidDate => Z.max t0 s
                 end = s).
    { destruct (vp_end vp) as [t1|] eqn:He; [|lia].
      specialize (Hhi t1 eq_refl). unfold spec_clampDate.
      destruct (Z.ltb_spec s t0); [lia|].
      rewrite Z.gtb_ltb. destruct (Z.ltb_spec t1 s); lia. }
    unfold log.
    rewrite (scrollToTask_request tasks vp tz taskId task s t0 sc w 10 Hf Hs Hv Hr)
      by (rewrite Hc; exact Hd).
    cbn [snd]. rewrite Hp, Hw. eexists. split; [reflexivity|].
    vm_compute. reflexivity.
Qed.

Lemma scrollToTask_centers_witness :
  (exists c days scale,
      c = match vp_end viewport16 with
          | ValidDate t1 => spec_clampDate (10 * MILLISECONDS_IN_DAY) 0 t1
          | InvalidDate => Z.max 0 (10 * MILLISECONDS_IN_DAY)
          end /\
      (forall t1, vp_end viewport16 = ValidDate t1 -> 0 <= t1 -> 0 <= c <= t1) /\
      scale = match vp_pxPerDay viewport16 with Some p => p | None => 16 end /\
      differenceInCalendarDays 0 (ValidDate c) (ValidDate 0) = Some days /\
      scrollToTask [taskAt "r-1" (Some (ValidDate (10 * MILLISECONDS_IN_DAY)))]
        viewport16 0 "r-1" (mounted true true (board 10000 500))
      = (tt, mounted true true (board 10000 500),
         [ScrollTo Scroller
            (spec_centered (spec_dayOffsetPixels days scale)
               (clientWidth (getEl (dom (mounted true true (board 10000 500))) Scroller)))
            smooth])) /\
  (exists left,
     log (scrollToTask [taskAt "r-1" (Some (ValidDate (10 * MILLISECONDS_IN_DAY)))]
            viewport16 0 "r-1") (mounted true true (board 10000 500))
     = [ScrollTo Scroller left smooth] /\
     (left == -90)%Q).
Proof.
  destruct (scrollToTask_centers
              [taskAt "r-1" (Some (ValidDate (10 * MILLISECONDS_IN_DAY)))]
              viewport16 0 "r-1"
              (taskAt "r-1" (Some (ValidDate (10 * MILLISECONDS_IN_DAY))))
              (10 * MILLISECONDS_IN_DAY) 0 Scroller
              (mounted true true (board 10000 500))
              eq_refl eq_refl eq_refl eq_refl) as [A B].
  split; [exact A|]. apply B.
  - reflexivity.
  - vm_compute. discriminate.
  - intros t1 E. injection E as <-. vm_compute. discriminate.
  - reflexivity.
  - reflexivity.
Defined.

(** C9.  [scrollToTask] does nothing (no request, no state change, and it
    returns) when no task has the given id, when the first task with that
    id has a null or invalid start date, or when the scroller is not
    attached. *)
Theorem scrollToTask_noop tasks vp tz taskId w :
  find (fun t => String.eqb (String_ (id t)) taskId) tasks = None \/
  (exists task,
      find (fun t => String.eqb (String_ (id t)) taskId) tasks = Some task /\
      (start task = None \/ start task = Some InvalidDate)) \/
  scrollerRef w = None ->
  scrollToTask tasks vp tz taskId w = (tt, w, []).
Proof.
  intros H. unfold scrollToTask, scrollTo.
  destruct (find _ tasks) as [task|] eqn:F; [|reflexivity].
  run_binds. destruct (scrollerRef w) as [sc|] eqn:R; [|reflexivity].
  destruct H as [H|[[t [Ht Hs]]|H]]; try discriminate.
  injection Ht as <-. destruct Hs as [Hs|Hs]; rewrite Hs; reflexivity.
Qed.

Lemma scrollToTask_noop_witness :
  scrollToTask [taskAt "r-1" (Some InvalidDate); taskAt "r-2" None]
    viewport16 0 "r-1" (mounted true true (board 10000 500))
  = (tt, mounted true true (board 10000 500), []).
Proof.
  apply (scrollToTask_noop [taskAt "r-1" (Some InvalidDate); taskAt "r-2" None]
           viewport16 0 "r-1" (mounted true true (board 10000 500))).
  right. left. exists (taskAt "r-1" (Some InvalidDate)).
  split; [reflexivity|]. right. reflexivity.
Defined.

(** ** What the pointer path publishes *)


Lemma exec_detect vp v prev sc ev w :
  exec (bind (checkAndHandleLeftScroll vp v prev sc ev) (fun _ =>
        bind (checkAndHandleRightEdge v prev sc) (fun _ =>
        modify (with_prevScrollLeftRef v)))) w
  = afterDetect vp v prev sc ev w.
Proof.
  unfold exec. run_binds. rewrite checkAndHandleLeftScroll_eq. cbv beta iota.
  rewrite checkAndHandleRightEdge_eq. reflexivity.
Qed.

Lemma log_detect vp v prev sc ev w :
  log (bind (checkAndHandleLeftScroll vp v prev sc ev) (fun _ =>
       bind (checkAndHandleRightEdge v prev sc) (fun _ =>
       modify (with_prevScrollLeftRef v)))) w
  = detectLog vp v prev sc ev w.
Proof.
  unfold log. run_binds. rewrite checkAndHandleLeftScroll_eq. cbv beta iota.
  rewrite checkAndHandleRightEdge_eq. cbv beta iota delta [snd].
  rewrite app_nil_r. reflexivity.
Qed.

(** C10.  A pointer-move of a live drag publishes, and hands to direction
    and edge detection, the value [startScrollLeft - (clientX - startX)] as
    computed; the scroller itself stores it clamped.  Dragging far enough
    right publishes a negative value and reports it to [onScrollLeft];
    dragging far enough left publishes a value beyond the maximum offset.
    The native path publishes the scroller's own [scrollLeft], which lies in
    the scrollable range. *)
Theorem pointer_publishes_raw vp n ev d w :
  nth_error (drags w) n = Some d ->
  panning d = true ->
  let sc := drag_scroller d in
  let v := startScrollLeft d - (clientX ev - startX d) in
  let prev := prevScrollLeftRef w in
  let detect :=
    bind (checkAndHandleLeftScroll vp v prev sc (createSyntheticScrollEvent sc)) (fun _ =>
    bind (checkAndHandleRightEdge v prev sc) (fun _ =>
    modify (with_prevScrollLeftRef v))) in
  let published := exec (bind (write_scrollLeft sc v) (fun _ => setScrollLeft v)) w in
  exec (handleMove vp n ev) w = exec detect published /\
  log (handleMove vp n ev) w = WriteScrollLeft sc v :: log detect published /\
  state_scrollLeft (exec (handleMove vp n ev) w) = v /\
  prevScrollLeftRef (exec (handleMove vp n ev) w) = v /\
  scrollLeft (getEl (dom (exec (handleMove vp n ev) w)) sc)
    = clampRange v (maxScrollLeft (getEl (dom w) sc)) /\
  (let w1 := exec (handleMove viewport16 0 (pointerDownAt 1200)) dragging in
   state_scrollLeft w1 = -100 /\
   scrollLeft (scrollerEl (dom w1)) = 0 /\
   invocations (log (handleMove viewport16 0 (pointerDownAt 1200)) dragging)
     = [ScrollLeft (-100) 1000 1100 Scroller; ReachStart]) /\
  (let w2 := exec (handleMove viewport16 0 (pointerDownAt (-9000))) dragging in
   state_scrollLeft w2 = 10100 /\
   maxScrollLeft (scrollerEl (dom dragging)) = 9000 /\
   scrollLeft (scrollerEl (dom w2)) = 9000 /\
   invocations (log (handleMove viewport16 0 (pointerDownAt (-9000))) dragging)
     = [ReachEnd]) /\
  (forall x w0,
      let w3 := exec (feed vp NativePath x) w0 in
      state_scrollLeft w3 = scrollLeft (scrollerEl (dom w3)) /\
      0 <= state_scrollLeft w3 <= maxScrollLeft (scrollerEl (dom w0))).
Proof.
  intros Hd Hp sc v prev detect published.
  assert (Hpub : published = with_state_scrollLeft v (written_scrollLeft sc v w))
    by reflexivity.
  assert (E : exec (handleMove vp n ev) w = afterMove vp d ev w)
    by (apply exec_handleMove; assumption).
  assert (N : forall x w0,
             state_scrollLeft (exec (feed vp NativePath x) w0)
             = clampRange x (maxScrollLeft (scrollerEl (dom w0)))).
  { intros x w0. rewrite exec_feed_native. unfold afterNative.
    cbn [currentTargetOf]. destruct (leftScrollerRef _); reflexivity. }
  split; [|split; [|split; [|split; [|split; [|split; [|split]]]]]].
  - rewrite E. unfold detect. rewrite exec_detect, Hpub. reflexivity.
  - rewrite (log_handleMove _ _ _ _ _ Hd Hp). unfold detect.
    rewrite log_detect, Hpub. reflexivity.
  - rewrite E. reflexivity.
  - rewrite E. reflexivity.
  - rewrite E. unfold afterMove, written_scrollLeft.
    fold sc. unfold newScrollLeftOf. fold v. cbn. destruct sc; reflexivity.
  - vm_compute. repeat split; reflexivity.
  - vm_compute. repeat split; reflexivity.
  - intros x w0 w3. split.
    + unfold w3. rewrite N. rewrite exec_feed_native.
      unfold afterNative, written_scrollLeft. cbn [currentTargetOf].
      match goal with |- context [leftScrollerRef ?W] =>
        change (leftScrollerRef W) with (leftScrollerRef w0) end.
      destruct (leftScrollerRef w0) as [[]|]; unfold afterSync; cbn;
        try destruct (syncingRef w0); reflexivity.
    + unfold w3. rewrite N. apply clampRange_bounds. unfold maxScrollLeft. lia.
Qed.

Lemma pointer_publishes_raw_witness :
  state_scrollLeft (exec (handleMove viewport16 0 (pointerDownAt 1200)) dragging)
  = 1000 - (1200 - 100).
Proof.
  apply (pointer_publishes_raw viewport16 0 (pointerDownAt 1200)
           {| startX := 100; startScrollLeft := 1000; panning := true;
              drag_scroller := Scroller; el := Surface; prevCursor := "" |}
           dragging).
  - vm_compute. reflexivity.
  - reflexivity.
Defined.

(** * Further properties *)

#[local] Arguments clearHandle : simpl never.

(** ** What the tracking refs keep *)

Lemma Tracking_mounted vp a b d : Tracking vp (mounted a b d).
Proof.
  constructor; cbn; try discriminate; try lia; try reflexivity.
Qed.

Lemma clearHandle_named r ts :
  (forall t, In t ts -> r = Some (handle t)) -> clearHandle r ts = [].
Proof.
  intros H. destruct r as [h|]; unfold clearHandle.
  - induction ts as [|t ts IH]; [reflexivity|]. cbn.
    assert (E : Some h = Some (handle t)) by (apply H; left; reflexivity).
    injection E as E. rewrite <- E, Pos.eqb_refl. cbn.
    apply IH. intros t' Ht'. apply H. right. assumption.
  - destruct ts as [|t ts]; [reflexivity|].
    specialize (H t (or_introl eq_refl)). discriminate.
Qed.

(** Transfer of [Tracking] to a world that agrees on what it reads. *)
Lemma Tracking_frame vp w w' :
  Tracking vp w ->
  timers w' = timers w ->
  scrollLeftTimeoutRef w' = scrollLeftTimeoutRef w ->
  wasScrollingLeftRef w' = wasScrollingLeftRef w ->
  lastScrollStateRef w' = lastScrollStateRef w ->
  state_scrollLeft w' = state_scrollLeft w ->
  prevScrollLeftRef w' = prevScrollLeftRef w ->
  scrollingLeftRef w' = scrollingLeftRef w ->
  syncingRef w' = syncingRef w ->
  frames w' = frames w ->
  Tracking vp w'.
Proof.
  intros [T1 T2 T3 T4 T5 T6] E1 E2 E3 E4 E5 E6 E7 E8 E9.
  constructor; rewrite ?E1, ?E2, ?E3, ?E4, ?E5, ?E6, ?E7, ?E8, ?E9; assumption.
Qed.

(** The shared detection steps, run on the position just published. *)
Lemma Tracking_afterDetect vp cur sc ev w :
  Tracking vp w ->
  Tracking vp (afterDetect vp cur (prevScrollLeftRef w) sc ev
                 (with_state_scrollLeft cur w)).
Proof.
  intros [T1 T2 T3 T4 T5 T6].
  assert (K : clearHandle (scrollLeftTimeoutRef w) (timers w) = []).
  { apply clearHandle_named. intros t Ht. apply T1. assumption. }
  destruct_world w. cbn in *.
  unfold afterDetect, afterEdge, afterLeft. constructor; cbn; rewrite ?K.
  - destruct (cur >=? pv); cbn.
    + intros t [].
    + intros t [<-|[]]. cbn. split; reflexivity.
  - destruct (cur >=? pv); cbn; lia.
  - destruct (cur >=? pv); cbn; [discriminate|].
    intros _. eexists _, _. repeat split. left. reflexivity.
  - reflexivity.
  - destruct (cur >=? pv) eqn:G; [discriminate|].
    rewrite Z.geb_leb in G. apply Z.leb_gt in G.
    destruct sl; cbn.
    + intros _. specialize (T5 eq_refl). lia.
    + intros H. apply Z.ltb_lt. assumption.
  - assumption.
Qed.

Lemma Tracking_afterSync vp from to w :
  Tracking vp w -> Tracking vp (afterSync from to w).
Proof.
  intros [T1 T2 T3 T4 T5 T6]. destruct_world w. cbn in *.
  unfold afterSync. constructor; cbn; try assumption.
  intros _. destruct sy; [auto|lia].
Qed.

Lemma Tracking_written_scrollLeft vp sc v w :
  Tracking vp w -> Tracking vp (written_scrollLeft sc v w).
Proof. intros T. apply (Tracking_frame vp w); try assumption; reflexivity. Qed.

Lemma Tracking_handleRightScroll vp e w :
  Tracking vp w -> Tracking vp (exec (handleRightScroll vp e) w).
Proof.
  intros T. rewrite exec_handleRightScroll. unfold afterNative.
  set (cur := scrollLeft (getEl (dom w) (currentTargetOf e))).
  pose proof (Tracking_afterDetect vp cur (currentTargetOf e) e w T) as T'.
  destruct (leftScrollerRef w); [apply Tracking_afterSync|]; assumption.
Qed.

Lemma handleMove_idle vp n ev w :
  (forall d, nth_error (drags w) n = Some d -> panning d = false) ->
  handleMove vp n ev w = (tt, w, []).
Proof.
  intros H. unfold handleMove. run_binds.
  destruct (nth_error (drags w) n) as [d|]; [|reflexivity].
  rewrite (H d eq_refl). reflexivity.
Qed.

Lemma Tracking_handleMove vp n ev w :
  Tracking vp w -> Tracking vp (exec (handleMove vp n ev) w).
Proof.
  intros T. destruct (nth_error (drags w) n) as [d|] eqn:Hd.
  - destruct (panning d) eqn:Hp.
    + rewrite (exec_handleMove _ _ _ _ _ Hd Hp). unfold afterMove.
      set (v := newScrollLeftOf d ev).
      apply (Tracking_afterDetect vp v (drag_scroller d)
               (createSyntheticScrollEvent (drag_scroller d))
               (written_scrollLeft (drag_scroller d) v w)).
      apply Tracking_written_scrollLeft. assumption.
    + unfold exec. rewrite handleMove_idle; [assumption|].
      intros d' E. congruence.
  - unfold exec. rewrite handleMove_idle; [assumption|].
    intros d' E. congruence.
Qed.

Lemma Tracking_handleLeftScroll vp e w :
  Tracking vp w -> Tracking vp (exec (handleLeftScroll e) w).
Proof.
  intros T. rewrite exec_handleLeftScroll.
  destruct (scrollerRef w); [apply Tracking_afterSync|]; assumption.
Qed.

Lemma Tracking_onScroll vp n w :
  Tracking vp w -> Tracking vp (exec (onScroll vp n) w).
Proof.
  intros T. destruct n; cbn [onScroll].
  - apply Tracking_handleLeftScroll. assumption.
  - apply Tracking_handleRightScroll. assumption.
  - assumption.
Qed.

Lemma Tracking_afterStop vp w : Tracking vp w -> Tracking vp (afterStop w).
Proof.
  intros T. unfold afterStop.
  destruct (lastScrollStateRef w) eqn:L; [|assumption].
  destruct T as [T1 T2 T3 T4 T5 T6].
  constructor; try assumption. discriminate.
Qed.

Lemma Tracking_handleEnd vp n w :
  Tracking vp w -> Tracking vp (exec (handleEnd n) w).
Proof.
  intros T. unfold exec. destruct (nth_error (drags w) n) as [d|] eqn:Hd.
  - rewrite (handleEnd_eq n d w Hd). cbn [fst snd]. unfold afterEnd.
    match goal with |- Tracking vp (with_listeners _ ?W) => assert (T' : Tracking vp W) end.
    { apply Tracking_afterStop.
      apply (Tracking_frame vp w); try assumption; reflexivity. }
    apply (Tracking_frame vp _ _ T'); reflexivity.
  - rewrite (handleEnd_idle n w Hd). assumption.
Qed.

Lemma Tracking_handlePointerDown vp e w :
  Tracking vp w -> Tracking vp (exec (handlePointerDown e) w).
Proof.
  intros T. unfold exec.
  destruct (ignoredPointer e) eqn:Hi.
  { rewrite handlePointerDown_ignored by auto. assumption. }
  destruct (scrollerRef w) as [sc|] eqn:Hs.
  2:{ rewrite handlePointerDown_ignored by auto. assumption. }
  rewrite (handlePointerDown_eq e sc w Hi Hs). cbn [fst snd].
  apply (Tracking_frame vp w); try assumption; reflexivity.
Qed.

Lemma Tracking_fireTimer vp h w :
  Tracking vp w -> Tracking vp (exec (fireTimer h) w).
Proof.
  intros T. unfold exec. destruct (pendingTimer h w) as [t|] eqn:Hf.
  - rewrite (fireTimer_eq h t w Hf). cbn [fst snd]. unfold afterTimeout.
    destruct T as [T1 T2 T3 T4 T5 T6].
    assert (E : scrollLeftTimeoutRef w = Some h).
    { unfold pendingTimer in Hf. apply find_some in Hf. destruct Hf as [Hin He].
      apply Pos.eqb_eq in He. rewrite <- He. apply T1. assumption. }
    assert (K : clearHandle (Some h) (timers w) = []).
    { apply clearHandle_named. intros t' Ht'. rewrite <- E. apply T1. assumption. }
    rewrite K. unfold afterStop. cbn [lastScrollStateRef with_timers].
    destruct (lastScrollStateRef w) as [st|] eqn:L.
    + constructor; cbn; try assumption; try discriminate; try lia.
    + constructor; cbn; try assumption; try lia.
      intros W. destruct (T3 W) as (h' & st & _ & _ & C). congruence.
  - rewrite (fireTimer_idle h w Hf). assumption.
Qed.

Lemma Tracking_animationFrame vp w :
  Tracking vp w -> Tracking vp (exec animationFrame w).
Proof.
  intros [T1 T2 T3 T4 T5 T6]. rewrite exec_animationFrame.
  destruct (frames w) eqn:F.
  - constructor; cbn; assumption.
  - constructor; cbn; try assumption; discriminate.
Qed.

Lemma Tracking_callListener vp fn ev w :
  Tracking vp w -> Tracking vp (exec (callListener vp fn ev) w).
Proof.
  intros T. destruct fn; cbn [callListener].
  - apply Tracking_handleMove. assumption.
  - apply Tracking_handleEnd. assumption.
Qed.

Lemma Tracking_dispatchTo vp ty ev ls :
  forall w, Tracking vp w -> Tracking vp (exec (dispatchTo vp ty ev ls) w).
Proof.
  induction ls as [|l rest IH]; intros w T; [assumption|].
  cbn [dispatchTo]. rewrite !exec_bind. apply IH.
  unfold gets at 1 2. cbn [fst snd exec].
  destruct (_ && _).
  - apply Tracking_callListener. assumption.
  - assumption.
Qed.

Lemma Tracking_step tasks vp tz ev w :
  Tracking vp w -> Tracking vp (exec (step tasks vp tz ev) w).
Proof.
  intros T. destruct ev; cbn [step].
  - rewrite exec_bind. apply Tracking_onScroll.
    apply (Tracking_written_scrollLeft vp n v w T).
  - rewrite exec_bind. apply Tracking_onScroll.
    apply (Tracking_frame vp w); try assumption; reflexivity.
  - apply Tracking_onScroll. assumption.
  - apply Tracking_handlePointerDown. assumption.
  - unfold dispatchWindowEvent. rewrite exec_bind.
    apply Tracking_dispatchTo. assumption.
  - apply Tracking_fireTimer. assumption.
  - apply Tracking_animationFrame. assumption.
  - rewrite scrollToTask_keeps. assumption.
  - rewrite handleBarDoubleClick_keeps. assumption.
Qed.

Lemma Tracking_run tasks vp tz evs :
  forall w, Tracking vp w -> Tracking vp (exec (run tasks vp tz evs) w).
Proof.
  induction evs as [|ev rest IH]; intros w T; [assumption|].
  cbn [run]. rewrite exec_bind. apply IH, Tracking_step. assumption.
Qed.

(** ** What the listeners keep *)

Lemma Listener_eqb_eq a b : Listener_eqb a b = true <-> a = b.
Proof.
  destruct a as [ta fa], b as [tb fb]. unfold Listener_eqb. cbn [fst snd].
  rewrite andb_true_iff. split.
  - intros [H1 H2]. f_equal.
    + destruct ta, tb; cbn in H1; congruence.
    + destruct fa, fb; cbn in H2; try discriminate;
        apply Nat.eqb_eq in H2; congruence.
  - intros E. injection E as -> ->. split.
    + destruct tb; reflexivity.
    + destruct fb; cbn; apply Nat.eqb_refl.
Qed.

Lemma existsb_Listener l ls : existsb (Listener_eqb l) ls = true <-> In l ls.
Proof.
  rewrite existsb_exists. split.
  - intros [x [Hx E]]. apply Listener_eqb_eq in E. subst. assumption.
  - intros H. exists l. split; [assumption|]. apply Listener_eqb_eq. reflexivity.
Qed.

Lemma In_addListener x l ls : In x (addListener l ls) <-> x = l \/ In x ls.
Proof.
  unfold addListener. destruct (existsb (Listener_eqb l) ls) eqn:E.
  - apply existsb_Listener in E. split; [auto|]. intros [->|H]; assumption.
  - rewrite in_app_iff. cbn. intuition.
Qed.

Lemma In_dropListeners n l ls :
  In l (dropListeners n ls) <-> In l ls /\ ~ In l (dragListeners n).
Proof.
  unfold dropListeners. rewrite !filter_In, !negb_true_iff.
  assert (N : forall a, Listener_eqb a l = false <-> a <> l).
  { intros a. rewrite <- Listener_eqb_eq. destruct (Listener_eqb a l); intuition congruence. }
  rewrite !N. unfold dragListeners. cbn [In]. intuition.
Qed.

Lemma dragListeners_dragOf l n : In l (dragListeners n) -> dragOf (snd l) = n.
Proof.
  unfold dragListeners. cbn [In]. intros [<-|[<-|[<-|[]]]]; reflexivity.
Qed.

Lemma nth_error_update_nth {A} (f : A -> A) n m (l : list A) :
  nth_error (update_nth n f l) m
  = if Nat.eqb m n then option_map f (nth_error l m) else nth_error l m.
Proof.
  revert n m. induction l as [|x l IH]; intros n m.
  - destruct n, m; cbn; try reflexivity; destruct (Nat.eqb _ _); reflexivity.
  - destruct n, m; cbn; try reflexivity. apply IH.
Qed.

Lemma Wired_mounted a b d : Wired (mounted a b d).
Proof.
  constructor; cbn.
  - intros l [].
  - intros [|n] dr H; discriminate.
Qed.

Lemma Wired_frame w w' :
  Wired w -> listeners w' = listeners w -> drags w' = drags w -> Wired w'.
Proof.
  intros [W1 W2] E1 E2. constructor; rewrite E1, E2; assumption.
Qed.

Lemma Wired_afterDown e sc w : Wired w -> Wired (afterDown e sc w).
Proof.
  intros [W1 W2]. unfold afterDown. constructor.
  - cbn [listeners drags with_listeners with_drags with_dom].
    intros l Hl. rewrite !In_addListener in Hl.
    destruct Hl as [->|[->|[->|Hl]]]; cbn [snd dragOf dragListeners In].
    1-3: split; [auto|]; exists (newDrag e sc w);
      rewrite nth_error_app2 by lia; rewrite Nat.sub_diag; split; reflexivity.
    destruct (W1 l Hl) as [I [d [Hd Hp]]]. split; [assumption|].
    exists d. split; [|assumption].
    rewrite nth_error_app1; [assumption|].
    apply nth_error_Some. congruence.
  - cbn [listeners drags with_listeners with_drags with_dom].
    intros n d Hd Hp l Hl. rewrite !In_addListener.
    destruct (Nat.lt_ge_cases n (List.length (drags w))) as [Lt|Ge].
    + rewrite nth_error_app1 in Hd by assumption.
      right. right. right. apply (W2 n d Hd Hp). assumption.
    + rewrite nth_error_app2 in Hd by assumption.
      destruct (n - List.length (drags w))%nat as [|k] eqn:K.
      * assert (n = List.length (drags w)) by lia. subst n.
        unfold dragListeners in Hl. cbn [In] in Hl.
        destruct Hl as [<-|[<-|[<-|[]]]]; auto.
      * destruct k; discriminate.
Qed.

Lemma Wired_afterEnd n d w :
  nth_error (drags w) n = Some d -> Wired w -> Wired (afterEnd n d w).
Proof.
  intros Hn [W1 W2]. unfold afterEnd, afterStop.
  assert (L : forall W, listeners (with_listeners (dropListeners n (listeners w)) W)
                        = dropListeners n (listeners w)) by reflexivity.
  assert (D : drags (with_listeners (dropListeners n (listeners w))
                 match lastScrollStateRef
                         (with_dom (setEl (dom w) (el d)
                                      (assign_cursor (prevCursor d) (getEl (dom w) (el d))))
                            (with_drags (update_nth n (set_panning false) (drags w)) w))
                 with
                 | Some _ => with_wasScrollingLeftRef false
                     (with_dom (setEl (dom w) (el d)
                                  (assign_cursor (prevCursor d) (getEl (dom w) (el d))))
                        (with_drags (update_nth n (set_panning false) (drags w)) w))
                 | None =>
                     with_dom (setEl (dom w) (el d)
                                 (assign_cursor (prevCursor d) (getEl (dom w) (el d))))
                       (with_drags (update_nth n (set_panning false) (drags w)) w)
                 end)
              = update_nth n (set_panning false) (drags w)).
  { cbn [lastScrollStateRef with_dom with_drags].
    destruct (lastScrollStateRef w); reflexivity. }
  constructor; rewrite L, D.
  - intros l Hl. apply In_dropListeners in Hl. destruct Hl as [Hl Hn'].
    destruct (W1 l Hl) as [I [d' [Hd' Hp']]]. split; [assumption|].
    exists d'. split; [|assumption].
    rewrite nth_error_update_nth.
    destruct (Nat.eqb_spec (dragOf (snd l)) n) as [E|E]; [|assumption].
    rewrite E in I. contradiction.
  - intros m d' Hd' Hp' l Hl. apply In_dropListeners.
    rewrite nth_error_update_nth in Hd'.
    destruct (Nat.eqb_spec m n) as [E|E].
    + subst m. rewrite Hn in Hd'. cbn in Hd'. injection Hd' as <-. discriminate.
    + split; [apply (W2 m d' Hd' Hp'); assumption|].
      intros C. apply dragListeners_dragOf in Hl, C. congruence.
Qed.

Lemma drags_handleRightScroll vp e w :
  drags (exec (handleRightScroll vp e) w) = drags w /\
  listeners (exec (handleRightScroll vp e) w) = listeners w.
Proof.
  rewrite exec_handleRightScroll. unfold afterNative.
  destruct (leftScrollerRef w); split; reflexivity.
Qed.

Lemma drags_handleLeftScroll e w :
  drags (exec (handleLeftScroll e) w) = drags w /\
  listeners (exec (handleLeftScroll e) w) = listeners w.
Proof.
  rewrite exec_handleLeftScroll. destruct (scrollerRef w); split; reflexivity.
Qed.

Lemma drags_handleMove vp n ev w :
  drags (exec (handleMove vp n ev) w) = drags w /\
  listeners (exec (handleMove vp n ev) w) = listeners w.
Proof.
  destruct (nth_error (drags w) n) as [d|] eqn:Hd.
  - destruct (panning d) eqn:Hp.
    + rewrite (exec_handleMove _ _ _ _ _ Hd Hp). split; reflexivity.
    + unfold exec. rewrite handleMove_idle; [split; reflexivity|].
      intros d' E. congruence.
  - unfold exec. rewrite handleMove_idle; [split; reflexivity|].
    intros d' E. congruence.
Qed.

Lemma drags_fireTimer h w :
  drags (exec (fireTimer h) w) = drags w /\
  listeners (exec (fireTimer h) w) = listeners w.
Proof.
  unfold exec. destruct (pendingTimer h w) as [t|] eqn:Hf.
  - rewrite (fireTimer_eq h t w Hf). cbn [fst snd]. unfold afterTimeout, afterStop.
    cbn [lastScrollStateRef with_timers].
    destruct (lastScrollStateRef w); split; reflexivity.
  - rewrite (fireTimer_idle h w Hf). split; reflexivity.
Qed.

Lemma drags_animationFrame w :
  drags (exec animationFrame w) = drags w /\
  listeners (exec animationFrame w) = listeners w.
Proof. rewrite exec_animationFrame. destruct (frames w); split; reflexivity. Qed.

Lemma drags_onScroll vp n w :
  drags (exec (onScroll vp n) w) = drags w /\
  listeners (exec (onScroll vp n) w) = listeners w.
Proof.
  destruct n; cbn [onScroll].
  - apply drags_handleLeftScroll.
  - apply drags_handleRightScroll.
  - split; reflexivity.
Qed.

Lemma Wired_handleEnd n w : Wired w -> Wired (exec (handleEnd n) w).
Proof.
  intros W. unfold exec. destruct (nth_error (drags w) n) as [d|] eqn:Hd.
  - rewrite (handleEnd_eq n d w Hd). cbn [fst snd]. apply Wired_afterEnd; assumption.
  - rewrite (handleEnd_idle n w Hd). assumption.
Qed.

Lemma Wired_handlePointerDown e w : Wired w -> Wired (exec (handlePointerDown e) w).
Proof.
  intros W. unfold exec.
  destruct (ignoredPointer e) eqn:Hi.
  { rewrite handlePointerDown_ignored by auto. assumption. }
  destruct (scrollerRef w) as [sc|] eqn:Hs.
  2:{ rewrite handlePointerDown_ignored by auto. assumption. }
  rewrite (handlePointerDown_eq e sc w Hi Hs). cbn [fst snd].
  apply Wired_afterDown. assumption.
Qed.

Lemma Wired_callListener vp fn ev w :
  Wired w -> Wired (exec (callListener vp fn ev) w).
Proof.
  intros W. destruct fn; cbn [callListener].
  - apply (Wired_frame w); [assumption | apply drags_handleMove ..].
  - apply Wired_handleEnd. assumption.
Qed.

Lemma Wired_dispatchTo vp ty ev ls :
  forall w, Wired w -> Wired (exec (dispatchTo vp ty ev ls) w).
Proof.
  induction ls as [|l rest IH]; intros w W; [assumption|].
  cbn [dispatchTo]. rewrite !exec_bind. apply IH.
  unfold gets at 1 2. cbn [fst snd exec].
  destruct (_ && _).
  - apply Wired_callListener. assumption.
  - assumption.
Qed.

Lemma Wired_step tasks vp tz ev w :
  Wired w -> Wired (exec (step tasks vp tz ev) w).
Proof.
  intros W. destruct ev; cbn [step].
  - rewrite exec_bind.
    apply (Wired_frame (exec (browserScrollLeft n v) w)); [|apply drags_onScroll ..].
    apply (Wired_frame w); [assumption | reflexivity ..].
  - rewrite exec_bind.
    apply (Wired_frame (exec (browserScrollTop n v) w)); [|apply drags_onScroll ..].
    apply (Wired_frame w); [assumption | reflexivity ..].
  - apply (Wired_frame w); [assumption | apply drags_onScroll ..].
  - apply Wired_handlePointerDown. assumption.
  - unfold dispatchWindowEvent. rewrite exec_bind. apply Wired_dispatchTo. assumption.
  - apply (Wired_frame w); [assumption | apply drags_fireTimer ..].
  - apply (Wired_frame w); [assumption | apply drags_animationFrame ..].
  - rewrite scrollToTask_keeps. assumption.
  - rewrite handleBarDoubleClick_keeps. assumption.
Qed.

Lemma Wired_run tasks vp tz evs :
  forall w, Wired w -> Wired (exec (run tasks vp tz evs) w).
Proof.
  induction evs as [|ev rest IH]; intros w W; [assumption|].
  cbn [run]. rewrite exec_bind. apply IH, Wired_step. assumption.
Qed.

(** ** Pending callbacks of a mounted board *)

(** X1.  Debounce: in every state the board reaches from its first render
    at most one stop timer is pending; it is the one whose handle
    [scrollLeftTimeoutRef] holds, and it was set for 150 ms. *)
Theorem one_stop_timer tasks vp tz a b d evs :
  let w := exec (run tasks vp tz evs) (mounted a b d) in
  (List.length (timers w) <= 1)%nat /\
  (forall t, In t (timers w) ->
             scrollLeftTimeoutRef w = Some (handle t) /\ delay t = 150).
Proof.
  intros w.
  assert (T : Tracking vp w) by (apply Tracking_run, Tracking_mounted).
  split; [apply T|]. intros t Ht. apply (tr_named vp w T). assumption.
Qed.

Lemma one_stop_timer_witness :
  let w := exec (run [] viewport16 0
                   [UserScrollLeft Scroller 1000; UserScrollLeft Scroller 900;
                    UserScrollLeft Scroller 800])
             (mounted true true (board 10000 1000)) in
  scrollLeftTimeoutRef w = Some (handle (stopTimer 2 (NativeEvent Scroller))) /\
  delay (stopTimer 2 (NativeEvent Scroller)) = 150.
Proof.
  apply (proj2 (one_stop_timer [] viewport16 0 true true (board 10000 1000)
                  [UserScrollLeft Scroller 1000; UserScrollLeft Scroller 900;
                   UserScrollLeft Scroller 800])
               (stopTimer 2 (NativeEvent Scroller))).
  vm_compute. left. reflexivity.
Defined.

Lemma find_In_handle h ts :
  In h (map handle ts) -> exists t, find (fun t => Pos.eqb (handle t) h) ts = Some t.
Proof.
  induction ts as [|t ts IH]; cbn; [intros []|].
  intros [E|H].
  - rewrite E, Pos.eqb_refl. eauto.
  - destruct (Pos.eqb (handle t) h); eauto.
Qed.

(** X2.  While a scrolling-left burst is open ([wasScrollingLeftRef] set),
    its stop is scheduled: the timer named by [scrollLeftTimeoutRef] is
    pending, the last leftward positions are recorded, and that timer
    running out emits the final [onScrollLeft] with delta 0 and then
    [onStopScrollingLeft]. *)
Theorem open_burst_has_timer tasks vp tz a b d evs :
  let w := exec (run tasks vp tz evs) (mounted a b d) in
  wasScrollingLeftRef w = true ->
  exists h t st,
    scrollLeftTimeoutRef w = Some h /\
    pendingTimer h w = Some t /\
    lastScrollStateRef w = Some st /\
    log (fireTimer h) w
      = [OnScrollLeft {| currentScrollLeft := ss_currentScrollLeft st;
                         prevScrollLeft := ss_prevScrollLeft st;
                         scrollDelta := 0;
                         scroller := ss_scroller st;
                         event := timer_event t |};
         OnStopScrollingLeft].
Proof.
  intros w Hw.
  assert (T : Tracking vp w) by (apply Tracking_run, Tracking_mounted).
  destruct (tr_armed vp w T Hw) as (h & st & Hr & Hin & Hl).
  destruct (find_In_handle h (timers w) Hin) as [t Ht].
  exists h, t, st. repeat split; try assumption.
  unfold log. rewrite (fireTimer_eq h t w Ht). cbn [snd].
  unfold stopLog. rewrite Hw, Hl. reflexivity.
Qed.

Lemma open_burst_has_timer_witness :
  let w := exec (run [] viewport16 0
                   [UserScrollLeft Scroller 1000; UserScrollLeft Scroller 900])
             (mounted true true (board 10000 1000)) in
  exists h t st,
    scrollLeftTimeoutRef w = Some h /\
    pendingTimer h w = Some t /\
    lastScrollStateRef w = Some st /\
    log (fireTimer h) w
      = [OnScrollLeft {| currentScrollLeft := ss_currentScrollLeft st;
                         prevScrollLeft := ss_prevScrollLeft st;
                         scrollDelta := 0;
                         scroller := ss_scroller st;
                         event := timer_event t |};
         OnStopScrollingLeft].
Proof.
  apply (open_burst_has_timer [] viewport16 0 true true (board 10000 1000)
           [UserScrollLeft Scroller 1000; UserScrollLeft Scroller 900]).
  vm_compute. reflexivity.
Defined.

(** X3.  The published scroll-left (the header's offset) is, in every
    reachable state, the position the hook recorded last. *)
Theorem published_is_previous tasks vp tz a b d evs :
  let w := exec (run tasks vp tz evs) (mounted a b d) in
  state_scrollLeft w = prevScrollLeftRef w.
Proof.
  intros w. apply (tr_published vp).
  apply Tracking_run, Tracking_mounted.
Qed.

(** X4.  The start latch is held only near the start: whenever
    [scrollingLeftRef] is set, the recorded position is below the
    twelve-month threshold. *)
Theorem start_latch_near_start tasks vp tz a b d evs :
  let w := exec (run tasks vp tz evs) (mounted a b d) in
  scrollingLeftRef w = true ->
  prevScrollLeftRef w < TWELVE_MONTHS_IN_DAYS * pxPerDay vp.
Proof.
  intros w. apply (tr_start vp).
  apply Tracking_run, Tracking_mounted.
Qed.

Lemma start_latch_near_start_witness :
  let w := exec (run [] viewport16 0
                   [UserScrollLeft Scroller 1000; UserScrollLeft Scroller 900])
             (mounted true true (board 10000 1000)) in
  prevScrollLeftRef w < TWELVE_MONTHS_IN_DAYS * pxPerDay viewport16.
Proof.
  apply (start_latch_near_start [] viewport16 0 true true (board 10000 1000)
           [UserScrollLeft Scroller 1000; UserScrollLeft Scroller 900]).
  vm_compute. reflexivity.
Defined.

(** X5.  The end latch is held only near the end: in every reachable
    state with [hasReachedEndRef] set, the recorded position leaves at most
    480 pixels of the scroller's width to the right. *)
Theorem end_latch_near_end tasks vp tz a b d evs :
  let w := exec (run tasks vp tz evs) (mounted a b d) in
  hasReachedEndRef w = true ->
  scrollWidth (scrollerEl (dom w)) - clientWidth (scrollerEl (dom w))
    - prevScrollLeftRef w <= 480.
Proof.
  intros w. apply (inv_latch w). apply Inv_run, Inv_mounted.
Qed.

Lemma end_latch_near_end_witness :
  let w := exec (run [] viewport16 0 [UserScrollLeft Scroller 8600])
             (mounted true true (board 10000 1000)) in
  scrollWidth (scrollerEl (dom w)) - clientWidth (scrollerEl (dom w))
    - prevScrollLeftRef w <= 480.
Proof.
  apply (end_latch_near_end [] viewport16 0 true true (board 10000 1000)
           [UserScrollLeft Scroller 8600]).
  vm_compute. reflexivity.
Defined.

(** X6.  The mirroring guard cannot stick: whenever [syncingRef] is set an
    animation-frame callback is pending, and the next frame clears the
    guard and leaves no callback pending. *)
Theorem guard_has_frame tasks vp tz a b d evs :
  let w := exec (run tasks vp tz evs) (mounted a b d) in
  syncingRef w = true ->
  (0 < frames w)%nat /\
  syncingRef (exec animationFrame w) = false /\
  frames (exec animationFrame w) = O.
Proof.
  intros w Hs.
  assert (T : Tracking vp w) by (apply Tracking_run, Tracking_mounted).
  pose proof (tr_guard vp w T Hs) as F.
  rewrite exec_animationFrame. destruct (frames w); [lia|].
  repeat split. lia.
Qed.

Lemma guard_has_frame_witness :
  let w := exec (run [] viewport16 0 [UserScrollTop LeftScroller 300])
             (mounted true true (board 10000 1000)) in
  (0 < frames w)%nat /\
  syncingRef (exec animationFrame w) = false /\
  frames (exec animationFrame w) = O.
Proof.
  apply (guard_has_frame [] viewport16 0 true true (board 10000 1000)
           [UserScrollTop LeftScroller 300]).
  vm_compute. reflexivity.
Defined.

(** ** Window listeners *)

(** X7.  No listener leaks and none is missing: in every reachable state
    the window's listeners are exactly the move, up and cancel listeners of
    the drags still in progress. *)
Theorem listeners_of_live_drags tasks vp tz a b d evs l :
  let w := exec (run tasks vp tz evs) (mounted a b d) in
  In l (listeners w) <->
  exists n dr, In l (dragListeners n) /\
               nth_error (drags w) n = Some dr /\ panning dr = true.
Proof.
  intros w.
  assert (W : Wired w) by (apply Wired_run, Wired_mounted).
  split.
  - intros Hl. destruct (wired_listeners w W l Hl) as [I [dr [Hd Hp]]].
    exists (dragOf (snd l)), dr. auto.
  - intros (n & dr & Hl & Hd & Hp). apply (wired_drags w W n dr Hd Hp). assumption.
Qed.

(** ** Stop notifications *)

Lemma count_stopLog ev w :
  (count isStop (stopLog ev w) + owed (afterStop w) <= owed w)%nat.
Proof.
  unfold stopLog, afterStop, owed.
  destruct (wasScrollingLeftRef w) eqn:E, (lastScrollStateRef w); cbn;
    rewrite ?E; cbn; lia.
Qed.

Lemma budget_handleEnd n w :
  (count isStop (log (handleEnd n) w) + owed (exec (handleEnd n) w) <= owed w)%nat.
Proof.
  unfold exec, log. destruct (nth_error (drags w) n) as [d|] eqn:Hd.
  - rewrite (handleEnd_eq n d w Hd). cbn [fst snd].
    unfold endLog. rewrite count_cons_skip by reflexivity.
    pose proof (count_stopLog createSyntheticScrollEvent w) as B.
    unfold afterEnd, afterStop, owed in *.
    cbn [lastScrollStateRef wasScrollingLeftRef with_dom with_drags with_listeners].
    destruct (lastScrollStateRef w); exact B.
  - rewrite (handleEnd_idle n w Hd). cbn. lia.
Qed.

Lemma budget_fireTimer h w :
  (count isStop (log (fireTimer h) w) + owed (exec (fireTimer h) w) <= owed w)%nat.
Proof.
  unfold exec, log. destruct (pendingTimer h w) as [t|] eqn:Hf.
  - rewrite (fireTimer_eq h t w Hf). cbn [fst snd].
    pose proof (count_stopLog (fun _ => timer_event t) w) as B.
    unfold afterTimeout, afterStop, owed in *.
    cbn [lastScrollStateRef wasScrollingLeftRef with_timers].
    destruct (lastScrollStateRef w); exact B.
  - rewrite (fireTimer_idle h w Hf). cbn. lia.
Qed.

Lemma budget_dispatchTo vp ty ev ls :
  ty <> pointermove ->
  forall w, Wired w ->
  (count isStop (log (dispatchTo vp ty ev ls) w)
   + owed (exec (dispatchTo vp ty ev ls) w) <= owed w)%nat.
Proof.
  intros Hty. induction ls as [|l rest IH]; intros w W; [cbn; lia|].
  cbn [dispatchTo]. autorewrite with hook. rewrite count_app.
  destruct (WindowEventType_eqb (fst l) ty && existsb (Listener_eqb l) (listeners w))
    eqn:C.
  - apply andb_true_iff in C. destruct C as [C1 C2].
    apply existsb_Listener in C2.
    destruct (wired_listeners w W l C2) as [I _].
    assert (F : snd l = HandleEnd (dragOf (snd l))).
    { destruct l as [t fn]. cbn [fst snd] in *.
      unfold dragListeners in I. cbn [In] in I.
      destruct I as [I|[I|[I|[]]]]; injection I as <- <-; try reflexivity.
      destruct ty; cbn in C1; try discriminate C1. congruence. }
    rewrite F. cbn [callListener].
    pose proof (budget_handleEnd (dragOf (snd l)) w) as B1.
    pose proof (IH _ (Wired_handleEnd (dragOf (snd l)) w W)) as B2.
    lia.
  - autorewrite with hook. cbn. apply IH. assumption.
Qed.

Lemma log_animationFrame w : log animationFrame w = [].
Proof.
  unfold animationFrame. rewrite !log_bind, log_runFrames. reflexivity.
Qed.

Lemma budget_handleLeftScroll e w :
  (count isStop (log (handleLeftScroll e) w)
   + owed (exec (handleLeftScroll e) w) <= owed w)%nat.
Proof.
  rewrite exec_handleLeftScroll, log_handleLeftScroll.
  destruct (scrollerRef w); [|cbn; lia].
  rewrite count_syncLog by reflexivity. unfold owed, afterSync. cbn. lia.
Qed.

Lemma budget_onScroll vp n w :
  isScroller n = false ->
  (count isStop (log (onScroll vp n) w) + owed (exec (onScroll vp n) w) <= owed w)%nat.
Proof.
  intros Hn. destruct n; try discriminate; cbn [onScroll].
  - apply budget_handleLeftScroll.
  - cbn. lia.
Qed.

Lemma log_scrollToTask_stop tasks vp tz taskId w :
  count isStop (log (scrollToTask tasks vp tz taskId) w) = 0%nat.
Proof.
  unfold log, scrollToTask, scrollTo.
  destruct (find _ tasks) as [task|]; [|reflexivity].
  run_binds. destruct (scrollerRef w); [|reflexivity].
  destruct (start task) as [dt|]; [|reflexivity].
  destruct (isValid dt); [|reflexivity].
  destruct (differenceInCalendarDays _ _ _); reflexivity.
Qed.

Lemma log_handleBarDoubleClick_stop taskId px w :
  count isStop (log (handleBarDoubleClick taskId px) w) = 0%nat.
Proof.
  unfold log, handleBarDoubleClick, scrollTo. run_binds.
  destruct (scrollerRef w); reflexivity.
Qed.

Lemma budget_step tasks vp tz ev w :
  quiet ev = true -> Wired w ->
  (count isStop (log (step tasks vp tz ev) w)
   + owed (exec (step tasks vp tz ev) w) <= owed w)%nat.
Proof.
  intros Q W. destruct ev; cbn [step quiet] in *.
  - apply negb_true_iff in Q. autorewrite with hook.
    pose proof (budget_onScroll vp n (exec (browserScrollLeft n v) w) Q) as B.
    exact B.
  - apply negb_true_iff in Q. autorewrite with hook.
    pose proof (budget_onScroll vp n (exec (browserScrollTop n v) w) Q) as B.
    exact B.
  - apply negb_true_iff in Q. apply budget_onScroll. assumption.
  - unfold exec, log.
    destruct (ignoredPointer e) eqn:Hi.
    { rewrite handlePointerDown_ignored by auto. cbn. lia. }
    destruct (scrollerRef w) as [sc|] eqn:Hs.
    2:{ rewrite handlePointerDown_ignored by auto. cbn. lia. }
    rewrite (handlePointerDown_eq e sc w Hi Hs). cbn [fst snd].
    unfold downLog, afterDown, owed, count.
    cbn [filter isStop List.length wasScrollingLeftRef with_listeners with_drags with_dom].
    lia.
  - unfold dispatchWindowEvent. autorewrite with hook.
    apply budget_dispatchTo; [|assumption]. destruct ty; congruence.
  - apply budget_fireTimer.
  - rewrite log_animationFrame, exec_animationFrame.
    unfold owed. destruct (frames w); cbn; destruct (wasScrollingLeftRef w); cbn; lia.
  - rewrite log_scrollToTask_stop, scrollToTask_keeps. lia.
  - rewrite log_handleBarDoubleClick_stop, handleBarDoubleClick_keeps. lia.
Qed.

Lemma budget_run tasks vp tz evs :
  forallb quiet evs = true ->
  forall w, Wired w ->
  (count isStop (log (run tasks vp tz evs) w) <= owed w)%nat.
Proof.
  induction evs as [|ev rest IH]; intros Q w W; [cbn; lia|].
  cbn [forallb] in Q. apply andb_true_iff in Q. destruct Q as [Q1 Q2].
  cbn [run]. rewrite log_bind, count_app.
  pose proof (budget_step tasks vp tz ev w Q1 W) as B1.
  pose proof (IH Q2 _ (Wired_step tasks vp tz ev w W)) as B2.
  lia.
Qed.

(** X8.  The stop pair is never repeated: from any reachable state, events
    that run no direction detection (timers running out, pointer-up and
    pointer-cancel, pointer-down, animation frames, scrolls of the row
    list, double clicks), in any number and order, invoke
    [onStopScrollingLeft] at most once, and not at all when no burst is
    open. *)
Theorem stop_pair_once tasks vp tz a b d evs evs' :
  let w := exec (run tasks vp tz evs) (mounted a b d) in
  forallb quiet evs' = true ->
  (count isStop (log (run tasks vp tz evs') w) <= 1)%nat /\
  (wasScrollingLeftRef w = false ->
   count isStop (log (run tasks vp tz evs') w) = 0%nat).
Proof.
  intros w Q.
  assert (W : Wired w) by (apply Wired_run, Wired_mounted).
  pose proof (budget_run tasks vp tz evs' Q w W) as B. unfold owed in B.
  split.
  - destruct (wasScrollingLeftRef w); lia.
  - intros E. rewrite E in B. lia.
Qed.

Lemma stop_pair_once_witness :
  let w := exec (run [] viewport16 0
                   [UserScrollLeft Scroller 1000; PointerDown (pointerDownAt 100);
                    WindowPointer pointermove (pointerDownAt 200)])
             (mounted true true (board 10000 1000)) in
  let evs' := [WindowPointer pointerup (pointerDownAt 200); Timeout 1;
               WindowPointer pointercancel (pointerDownAt 200); Timeout 1] in
  (count isStop (log (run [] viewport16 0 evs') w) <= 1)%nat /\
  (wasScrollingLeftRef w = false ->
   count isStop (log (run [] viewport16 0 evs') w) = 0%nat).
Proof.
  apply (stop_pair_once [] viewport16 0 true true (board 10000 1000)
           [UserScrollLeft Scroller 1000; PointerDown (pointerDownAt 100);
            WindowPointer pointermove (pointerDownAt 200)]
           [WindowPointer pointerup (pointerDownAt 200); Timeout 1;
            WindowPointer pointercancel (pointerDownAt 200); Timeout 1]).
  vm_compute. reflexivity.
Defined.

(** ** One update, one edge *)

(** X9.  A single update, on either path, never reports both ends:
    [onReachStart] comes only with a strictly leftward update and
    [onReachEnd] only with a strictly rightward one. *)
Theorem reach_callbacks_exclusive vp p w v :
  presentable p w v ->
  let calls := invocations (log (feed vp p v) w) in
  (In ReachStart calls -> v < prevScrollLeftRef w) /\
  (In ReachEnd calls -> prevScrollLeftRef w < v) /\
  ~ (In ReachStart calls /\ In ReachEnd calls).
Proof.
  intros Hp calls. unfold calls. rewrite (feed_invocations vp p w v Hp).
  unfold detectInvocations.
  set (prev := prevScrollLeftRef w). set (line := edgeLine (scrollerEl (dom w))).
  assert (A : In ReachStart
                ((if v >=? prev then []
                  else ScrollLeft v prev (prev - v) Scroller
                       :: (if negb (scrollingLeftRef w) && (v <? twelveMonthsPx vp)
                           then [ReachStart] else []))
                 ++ (if (v >=? line) && (prev <? line) && negb (hasReachedEndRef w)
                     then [ReachEnd] else [])) -> v < prev).
  { intros H. destruct (v >=? prev) eqn:G.
    - cbn [app] in H. destruct (_ && _ && _); cbn in H; intuition discriminate.
    - rewrite Z.geb_leb in G. apply Z.leb_gt in G. assumption. }
  assert (B : In ReachEnd
                ((if v >=? prev then []
                  else ScrollLeft v prev (prev - v) Scroller
                       :: (if negb (scrollingLeftRef w) && (v <? twelveMonthsPx vp)
                           then [ReachStart] else []))
                 ++ (if (v >=? line) && (prev <? line) && negb (hasReachedEndRef w)
                     then [ReachEnd] else [])) -> prev < v).
  { intros H. destruct ((v >=? line) && (prev <? line) && negb (hasReachedEndRef w)) eqn:C.
    - apply andb_true_iff in C. destruct C as [C _].
      apply andb_true_iff in C. destruct C as [C1 C2].
      rewrite Z.geb_leb in C1. apply Z.leb_le in C1. apply Z.ltb_lt in C2. lia.
    - rewrite app_nil_r in H. destruct (v >=? prev); [destruct H|].
      destruct (negb (scrollingLeftRef w) && (v <? twelveMonthsPx vp));
        cbn in H; intuition discriminate. }
  split; [exact A|]. split; [exact B|].
  intros [H1 H2]. specialize (A H1). specialize (B H2). lia.
Qed.

Lemma reach_callbacks_exclusive_witness :
  let w := exec (feed viewport16 NativePath 1000) (mounted true true (board 10000 1000)) in
  let calls := invocations (log (feed viewport16 NativePath 900) w) in
  (In ReachStart calls -> 900 < prevScrollLeftRef w) /\
  (In ReachEnd calls -> prevScrollLeftRef w < 900) /\
  ~ (In ReachStart calls /\ In ReachEnd calls).
Proof.
  apply (reach_callbacks_exclusive viewport16 NativePath
           (exec (feed viewport16 NativePath 1000) (mounted true true (board 10000 1000)))
           900).
  vm_compute. split; congruence.
Defined.

(** ** The row list *)

(** X10.  Scrolling the row list is invisible to horizontal tracking:
    [handleLeftScroll] invokes no host callback and leaves every ref that
    direction and edge detection read, the pending timers and the
    scroller's width as they were. *)
Theorem handleLeftScroll_inert e w :
  invocations (log (handleLeftScroll e) w) = [] /\
  sim w (exec (handleLeftScroll e) w) /\
  state_scrollLeft (exec (handleLeftScroll e) w) = state_scrollLeft w /\
  timers (exec (handleLeftScroll e) w) = timers w.
Proof.
  rewrite exec_handleLeftScroll, log_handleLeftScroll.
  destruct (scrollerRef w) as [r|].
  - split; [apply invocations_syncLog|].
    split; [|split; reflexivity].
    constructor; try reflexivity.
    unfold afterSync. cbn [dom with_frames with_dom with_syncingRef].
    destruct (syncingRef w); [reflexivity|].
    symmetry. apply edgeLine_setEl. apply edgeLine_assign_scrollTop.
  - split; [reflexivity|]. split; [apply sim_refl|]. split; reflexivity.
Qed.

(** ** Pointer-down *)

(** X11.  A pointer-down does nothing at all (no state change, no
    [preventDefault], no capture, no listener) exactly when the button is
    not the primary one on a pointer that is not touch, or the scroller is
    not mounted. *)
Theorem pointerDown_rejected_iff e w :
  handlePointerDown e w = (tt, w, []) <->
  (button e <> 0 /\ pointerType e <> Touch) \/ scrollerRef w = None.
Proof.
  assert (I : ignoredPointer e = true <-> button e <> 0 /\ pointerType e <> Touch).
  { unfold ignoredPointer. rewrite andb_true_iff, !negb_true_iff.
    rewrite Z.eqb_neq. destruct (pointerType e); cbn; intuition congruence. }
  split.
  - intros H. destruct (ignoredPointer e) eqn:Hi; [left; apply I; reflexivity|].
    destruct (scrollerRef w) as [sc|] eqn:Hs; [|right; reflexivity].
    rewrite (handlePointerDown_eq e sc w Hi Hs) in H. discriminate.
  - intros H. apply handlePointerDown_ignored.
    destruct H as [H|H]; [left; apply I; assumption|right; assumption].
Qed.

(** ** Panning *)

Lemma nth_error_moveAll vp n evs :
  forall w,
    drags (exec (moveAll vp n evs) w) = drags w /\
    (forall sc, maxScrollLeft (getEl (dom (exec (moveAll vp n evs) w)) sc)
                = maxScrollLeft (getEl (dom w) sc)).
Proof.
  induction evs as [|ev rest IH]; intros w; [split; reflexivity|].
  cbn [moveAll]. rewrite exec_bind.
  destruct (IH (exec (handleMove vp n ev) w)) as [D M].
  destruct (drags_handleMove vp n ev w) as [D' _].
  split; [congruence|]. intros sc. rewrite M.
  destruct (nth_error (drags w) n) as [dr|] eqn:Hd.
  - destruct (panning dr) eqn:Hp.
    + rewrite (exec_handleMove _ _ _ _ _ Hd Hp). unfold afterMove.
      cbn [dom afterDetect afterEdge afterLeft with_prevScrollLeftRef
           with_hasReachedEndRef with_scrollLeftTimeoutRef with_timers
           with_scrollingLeftRef with_wasScrollingLeftRef with_lastScrollStateRef
           with_state_scrollLeft written_scrollLeft with_dom].
      destruct (drag_scroller dr), sc; reflexivity.
    + unfold exec. rewrite handleMove_idle; [reflexivity|].
      intros d' E. congruence.
  - unfold exec. rewrite handleMove_idle; [reflexivity|].
    intros d' E. congruence.
Qed.

(** X12.  Panning is measured from the pointer-down: whatever pointer-moves
    came in between, a pointer-move at [x] asks the scroller for the
    scroll-left it had at pointer-down minus the distance of [x] from the
    pointer-down position; the DOM stores that value clamped to the
    scrollable range and the hook publishes it unclamped. *)
Theorem pan_is_relative_to_drag_start vp e sc w evs ev :
  ignoredPointer e = false ->
  scrollerRef w = Some sc ->
  let n := List.length (drags w) in
  let w1 := exec (handlePointerDown e) w in
  let w2 := exec (moveAll vp n evs) w1 in
  let target := scrollLeft (getEl (dom w) sc) - (clientX ev - clientX e) in
  hd_error (log (handleMove vp n ev) w2) = Some (WriteScrollLeft sc target) /\
  scrollLeft (getEl (dom (exec (handleMove vp n ev) w2)) sc)
    = clampRange target (maxScrollLeft (getEl (dom w) sc)) /\
  state_scrollLeft (exec (handleMove vp n ev) w2) = target.
Proof.
  intros Hi Hs n w1 w2 target.
  assert (E1 : w1 = afterDown e sc w).
  { unfold w1, exec. rewrite (handlePointerDown_eq e sc w Hi Hs). reflexivity. }
  destruct (nth_error_moveAll vp n evs w1) as [D M]. fold w2 in D, M.
  assert (Hd : nth_error (drags w2) n = Some (newDrag e sc w)).
  { rewrite D, E1. unfold afterDown. cbn [drags with_listeners with_drags with_dom].
    rewrite nth_error_app2 by (unfold n; lia). unfold n. rewrite Nat.sub_diag.
    reflexivity. }
  assert (M1 : maxScrollLeft (getEl (dom w2) sc) = maxScrollLeft (getEl (dom w) sc)).
  { rewrite M, E1. unfold afterDown. cbn [dom with_listeners with_drags with_dom].
    destruct (pe_currentTarget e), sc; reflexivity. }
  rewrite (exec_handleMove vp n ev w2 _ Hd eq_refl).
  rewrite (log_handleMove vp n ev w2 _ Hd eq_refl).
  unfold afterMove, moveLog, newScrollLeftOf.
  cbn [newDrag drag_scroller startScrollLeft startX hd_error].
  fold target. repeat split.
  cbn [dom afterDetect afterEdge afterLeft with_prevScrollLeftRef
       with_hasReachedEndRef with_scrollLeftTimeoutRef with_timers
       with_scrollingLeftRef with_wasScrollingLeftRef with_lastScrollStateRef
       with_state_scrollLeft written_scrollLeft with_dom].
  rewrite <- M1. destruct sc; reflexivity.
Qed.

Lemma pan_is_relative_to_drag_start_witness :
  let w := exec (run [] viewport16 0 [UserScrollLeft Scroller 1000])
             (mounted true true (board 10000 1000)) in
  let e := pointerDownAt 100 in
  let w2 := exec (moveAll viewport16 0 [pointerDownAt 300; pointerDownAt 50])
              (exec (handlePointerDown e) w) in
  let ev := pointerDownAt 100 in
  let target := scrollLeft (getEl (dom w) Scroller) - (clientX ev - clientX e) in
  hd_error (log (handleMove viewport16 0 ev) w2) = Some (WriteScrollLeft Scroller target) /\
  scrollLeft (getEl (dom (exec (handleMove viewport16 0 ev) w2)) Scroller)
    = clampRange target (maxScrollLeft (getEl (dom w) Scroller)) /\
  state_scrollLeft (exec (handleMove viewport16 0 ev) w2) = target.
Proof.
  apply (pan_is_relative_to_drag_start viewport16 (pointerDownAt 100) Scroller
           (exec (run [] viewport16 0 [UserScrollLeft Scroller 1000])
              (mounted true true (board 10000 1000)))
           [pointerDownAt 300; pointerDownAt 50] (pointerDownAt 100)).
  - vm_compute. reflexivity.
  - vm_compute. reflexivity.
Defined.

(** ** Dates *)

Lemma MILLISECONDS_IN_DAY_pos : 0 < MILLISECONDS_IN_DAY.
Proof. reflexivity. Qed.

Lemma day_mono tz a b :
  a <= b -> (a + tz) / MILLISECONDS_IN_DAY <= (b + tz) / MILLISECONDS_IN_DAY.
Proof.
  intros H. apply Z.div_le_mono; [apply MILLISECONDS_IN_DAY_pos | lia].
Qed.

Lemma day_shift tz a k :
  (a + k * MILLISECONDS_IN_DAY + tz) / MILLISECONDS_IN_DAY
  = (a + tz) / MILLISECONDS_IN_DAY + k.
Proof.
  replace (a + k * MILLISECONDS_IN_DAY + tz) with (a + tz + k * MILLISECONDS_IN_DAY) by lia.
  apply Z.div_add. discriminate.
Qed.

(** X13.  Over a range that is not inverted [clampDate] is the usual clamp,
    [max(start, min(d, end))]: the result lies in the range and a date
    inside it is returned as it is. *)
Theorem clampDate_is_clamp t s e :
  s <= e ->
  clampDate (ValidDate t) (ValidDate s) (ValidDate e) = ValidDate (Z.max s (Z.min t e)).
Proof.
  intros H. unfold clampDate, isBefore, isAfter.
  destruct (Z.ltb_spec t s); [f_equal; lia|].
  rewrite Z.gtb_ltb. destruct (Z.ltb_spec e t); f_equal; lia.
Qed.

Lemma clampDate_is_clamp_witness :
  clampDate (ValidDate 5) (ValidDate 10) (ValidDate 20) = ValidDate (Z.max 10 (Z.min 5 20)).
Proof. apply (clampDate_is_clamp 5 10 20). lia. Defined.

(** ** Layout *)

Lemma clampedOrNull_inside vp vs ve s :
  vp_start vp = ValidDate vs -> vp_end vp = ValidDate ve -> vs <= ve ->
  clampedOrNull vp (Some (ValidDate s)) = Some (ValidDate (Z.max vs (Z.min s ve))).
Proof.
  intros Hs He H. unfold clampedOrNull. cbn [isValid]. rewrite Hs, He.
  rewrite clampDate_is_clamp by assumption. reflexivity.
Qed.

Lemma clampedOrNull_valid vp vs ve d c :
  vp_start vp = ValidDate vs -> vp_end vp = ValidDate ve -> vs <= ve ->
  clampedOrNull vp d = Some c ->
  exists s, c = ValidDate (Z.max vs (Z.min s ve)).
Proof.
  intros Hs He H Hc. destruct d as [[s|]|]; cbn in Hc; try discriminate.
  exists s. rewrite Hs, He, clampDate_is_clamp in Hc by assumption. congruence.
Qed.

(** X14.  Bars stay inside the chart: under a valid viewport that is not
    inverted and a pixel scale that is not negative, every rendered bar or
    marker starts at an offset from 0 up to one day short of the chart's
    width, and a bar of several days ends no later than the chart does and
    is at least one day wide. *)
Theorem bars_inside_chart tz vp vs ve row t b :
  vp_start vp = ValidDate vs -> vp_end vp = ValidDate ve -> vs <= ve ->
  0 <= pxPerDay vp ->
  bar tz vp row t = Some b ->
  exists l total,
    barLeft b = Some l /\ totalPx tz vp = Some total /\
    0 <= l /\ l + pxPerDay vp <= total /\
    match b with
    | Marker _ _ => True
    | Span _ _ wd => exists x, wd = Some x /\ pxPerDay vp <= x /\ l + x <= total
    end.
Proof.
  intros Hs He Hv Hp Hb. unfold bar in Hb.
  destruct (truthy (isSentinel t)); [discriminate|].
  destruct (clampedOrNull vp (start t)) as [cs|] eqn:Cs; [|discriminate].
  destruct (clampedOrNull vp (end_ t)) as [ce|] eqn:Ce; [|discriminate].
  destruct (clampedOrNull_valid vp vs ve _ _ Hs He Hv Cs) as [s ->].
  destruct (clampedOrNull_valid vp vs ve _ _ Hs He Hv Ce) as [e ->].
  unfold totalPx, days, differenceInCalendarDays in *. rewrite Hs, He in *.
  cbn [option_map] in *.
  set (p := pxPerDay vp) in *.
  set (cs := Z.max vs (Z.min s ve)) in *.
  set (ce := Z.max vs (Z.min e ve)) in *.
  pose proof (day_mono tz vs cs ltac:(lia)) as M1.
  pose proof (day_mono tz cs ve ltac:(lia)) as M2.
  pose proof (day_mono tz vs ce ltac:(lia)) as M3.
  pose proof (day_mono tz ce ve ltac:(lia)) as M4.
  set (Dvs := (vs + tz) / MILLISECONDS_IN_DAY) in *.
  set (Dve := (ve + tz) / MILLISECONDS_IN_DAY) in *.
  set (Dcs := (cs + tz) / MILLISECONDS_IN_DAY) in *.
  set (Dce := (ce + tz) / MILLISECONDS_IN_DAY) in *.
  destruct (Dce - Dcs) as [|q|q] eqn:Sp; injection Hb as <-; cbn [barLeft];
    eexists _, _; (split; [reflexivity|]); (split; [reflexivity|]).
  - repeat split; nia.
  - repeat split; try nia. eexists. split; [reflexivity|]. rewrite <- Sp. nia.
  - repeat split; try nia. eexists. split; [reflexivity|]. rewrite <- Sp. nia.
Qed.

Lemma bars_inside_chart_witness :
  exists l total,
    barLeft (Span 6 (Some 160) (Some 48)) = Some l /\
    totalPx 0 viewport16 = Some total /\
    0 <= l /\ l + pxPerDay viewport16 <= total /\
    exists x, Some 48 = Some x /\ pxPerDay viewport16 <= x /\ l + x <= total.
Proof.
  apply (bars_inside_chart 0 viewport16 0 (100 * MILLISECONDS_IN_DAY) 0 task10
           (Span 6 (Some 160) (Some 48))).
  - reflexivity.
  - reflexivity.
  - vm_compute. discriminate.
  - vm_compute. discriminate.
  - vm_compute. reflexivity.
Defined.

(** X15.  Double-clicking a bar and double-clicking its row ask for the same
    scroll: for the task a row resolves to, the bar's [onDoubleClick] does
    exactly what [scrollToTask] does on the task's id. *)
Theorem bar_click_is_row_click tasks tz vp row t b w :
  bar tz vp row t = Some b ->
  find (fun x => String.eqb (String_ (id x)) (String_ (id t))) tasks = Some t ->
  onBarDoubleClick (String_ (id t)) (barLeft b) w
  = scrollToTask tasks vp tz (String_ (id t)) w.
Proof.
  intros Hb Hf. unfold scrollToTask. rewrite Hf.
  unfold bar in Hb. destruct (truthy (isSentinel t)); [discriminate|].
  unfold clampedOrNull in Hb.
  destruct (start t) as [ds|]; [|discriminate].
  destruct (isValid ds); [|discriminate].
  destruct (end_ t) as [de|]; [|discriminate].
  destruct (isValid de); [|discriminate].
  assert (L : barLeft b
              = option_map (fun d => Z.max 0 d * pxPerDay vp)
                  (differenceInCalendarDays tz
                     (clampDate ds (vp_start vp) (vp_end vp)) (vp_start vp))).
  { destruct (differenceInCalendarDays tz (clampDate de _ _) _) as [[|q|q]|];
      injection Hb as <-; reflexivity. }
  rewrite L. unfold onBarDoubleClick, handleBarDoubleClick.
  destruct (differenceInCalendarDays tz (clampDate ds _ _) _); cbn [option_map];
    run_binds; destruct (scrollerRef w); reflexivity.
Qed.

Lemma bar_click_is_row_click_witness :
  onBarDoubleClick (String_ (id task10)) (barLeft (Span 6 (Some 160) (Some 48)))
    (mounted true true (board 10000 1000))
  = scrollToTask [task10; task20] viewport16 0 (String_ (id task10))
      (mounted true true (board 10000 1000)).
Proof.
  apply (bar_click_is_row_click [task10; task20] 0 viewport16 0 task10
           (Span 6 (Some 160) (Some 48)) (mounted true true (board 10000 1000))).
  - vm_compute. reflexivity.
  - vm_compute. reflexivity.
Defined.

(** X16.  When the today marker is shown under a valid viewport and a
    positive pixel scale, it stands in the column of today's day: its index
    is the calendar-day distance from the viewport start (no clamp is
    active), below the number of days, and its x lies inside that column,
    hence inside the chart. *)
Theorem today_marker_in_column tz vp vs ve now :
  vp_start vp = ValidDate vs -> vp_end vp = ValidDate ve ->
  0 < pxPerDay vp ->
  isTodayInOuter vp (ValidDate now) = true ->
  exists i n x total,
    differenceInCalendarDays tz (ValidDate now) (vp_start vp) = Some i /\
    todayIndex tz vp (ValidDate now) = Some i /\
    days tz vp = Some n /\ 0 <= i < n /\
    todayX tz vp (ValidDate now) = Some x /\
    totalPx tz vp = Some total /\
    i * pxPerDay vp <= x < (i + 1) * pxPerDay vp /\
    (i + 1) * pxPerDay vp <= total.
Proof.
  intros Hs He Hp Ht. unfold isTodayInOuter in Ht. rewrite Hs, He in Ht.
  apply andb_true_iff in Ht. destruct Ht as [_ Ht].
  apply negb_true_iff, orb_false_iff in Ht. destruct Ht as [B A].
  cbn in B, A. apply Z.ltb_ge in B. rewrite Z.gtb_ltb in A. apply Z.ltb_ge in A.
  unfold todayX, totalPx, todayIndex, days. rewrite Hs, He.
  rewrite clampDate_is_clamp by lia.
  replace (Z.max vs (Z.min now ve)) with now by lia.
  unfold differenceInCalendarDays. cbn [option_map].
  pose proof (day_mono tz vs now B) as M1.
  pose proof (day_mono tz now ve A) as M2.
  set (p := pxPerDay vp) in *.
  set (Dvs := (vs + tz) / MILLISECONDS_IN_DAY) in *.
  set (Dve := (ve + tz) / MILLISECONDS_IN_DAY) in *.
  set (Dn := (now + tz) / MILLISECONDS_IN_DAY) in *.
  assert (I : Z.max 0 (Z.min (Z.max 1 (Dve - Dvs + 1) - 1) (Dn - Dvs)) = Dn - Dvs) by lia.
  rewrite I.
  assert (H2 : 0 <= p / 2 < p).
  { split; [apply Z.div_pos; lia | apply Z.div_lt_upper_bound; lia]. }
  eexists _, _, _, _. repeat split; try reflexivity; nia.
Qed.

Lemma today_marker_in_column_witness :
  exists i n x total,
    differenceInCalendarDays 0 (ValidDate (10 * MILLISECONDS_IN_DAY)) (vp_start viewport16)
      = Some i /\
    todayIndex 0 viewport16 (ValidDate (10 * MILLISECONDS_IN_DAY)) = Some i /\
    days 0 viewport16 = Some n /\ 0 <= i < n /\
    todayX 0 viewport16 (ValidDate (10 * MILLISECONDS_IN_DAY)) = Some x /\
    totalPx 0 viewport16 = Some total /\
    i * pxPerDay viewport16 <= x < (i + 1) * pxPerDay viewport16 /\
    (i + 1) * pxPerDay viewport16 <= total.
Proof.
  apply (today_marker_in_column 0 viewport16 0 (100 * MILLISECONDS_IN_DAY)
           (10 * MILLISECONDS_IN_DAY)).
  - reflexivity.
  - reflexivity.
  - vm_compute. reflexivity.
  - vm_compute. reflexivity.
Defined.

(** ** The wheel listener *)

Lemma preventBrowserNav_eq sc e w :
  preventBrowserNav sc e w
  = (tt, w, if prevents (getEl (dom w) sc) e then [PreventDefault] else []).
Proof.
  unfold preventBrowserNav, prevents. run_binds.
  destruct (Z.abs (deltaX e) >? Z.abs (deltaY e)); [|reflexivity].
  cbn [andb]. destruct (_ || _); reflexivity.
Qed.

(** X17.  On a scroller whose offset is inside its scrollable range, the
    wheel listener calls [preventDefault] exactly for a gesture that is
    more horizontal than vertical and cannot move the pane: scrolling by its
    [deltaX] would leave [scrollLeft] where it is.  In no case does it
    change any state. *)
Theorem preventBrowserNav_iff sc e w :
  0 <= scrollLeft (getEl (dom w) sc) <= maxScrollLeft (getEl (dom w) sc) ->
  exec (preventBrowserNav sc e) w = w /\
  (log (preventBrowserNav sc e) w = [PreventDefault] <->
   Z.abs (deltaX e) > Z.abs (deltaY e) /\
   scrollLeft (assign_scrollLeft (scrollLeft (getEl (dom w) sc) + deltaX e)
                 (getEl (dom w) sc))
   = scrollLeft (getEl (dom w) sc)) /\
  (log (preventBrowserNav sc e) w = [PreventDefault] \/
   log (preventBrowserNav sc e) w = []).
Proof.
  intros Hr. unfold exec, log. rewrite preventBrowserNav_eq. cbn [fst snd].
  split; [reflexivity|].
  unfold prevents. set (el := getEl (dom w) sc) in *.
  cbn [scrollLeft assign_scrollLeft].
  unfold maxScrollLeft, clampRange in *.
  set (sl := scrollLeft el) in *. set (sw := scrollWidth el) in *.
  set (cw := clientWidth el) in *.
  rewrite !Z.gtb_ltb, Z.geb_leb.
  destruct (Z.ltb_spec (Z.abs (deltaY e)) (Z.abs (deltaX e))) as [H|H].
  - destruct (Z.leb_spec sl 0) as [L|L], (Z.ltb_spec (deltaX e) 0) as [N|N],
      (Z.leb_spec (sw - cw) sl) as [R|R], (Z.ltb_spec 0 (deltaX e)) as [P|P];
      cbn [andb orb]; (split; [|auto]);
      (split; [intros E; try discriminate E; split; lia|]);
      intros [_ E]; try reflexivity; exfalso; lia.
  - cbn [andb]. split; [|auto].
    split; [discriminate|]. intros [C _]. lia.
Qed.

Lemma preventBrowserNav_iff_witness :
  let w := mounted true true (board 10000 1000) in
  let e := {| deltaX := -5; deltaY := 1 |} in
  exec (preventBrowserNav Scroller e) w = w /\
  (log (preventBrowserNav Scroller e) w = [PreventDefault] <->
   Z.abs (deltaX e) > Z.abs (deltaY e) /\
   scrollLeft (assign_scrollLeft (scrollLeft (getEl (dom w) Scroller) + deltaX e)
                 (getEl (dom w) Scroller))
   = scrollLeft (getEl (dom w) Scroller)) /\
  (log (preventBrowserNav Scroller e) w = [PreventDefault] \/
   log (preventBrowserNav Scroller e) w = []).
Proof.
  apply (preventBrowserNav_iff Scroller {| deltaX := -5; deltaY := 1 |}
           (mounted true true (board 10000 1000))).
  vm_compute. split; discriminate.
Defined.

(** ** Reordering rows *)

Lemma findIndex_Some {A} (p : A -> bool) l i :
  findIndex p l = Some i -> exists x, nth_error l i = Some x /\ p x = true.
Proof.
  revert i. induction l as [|y l IH]; intros i H; [discriminate|].
  cbn in H. destruct (p y) eqn:P.
  - injection H as <-. exists y. auto.
  - destruct (findIndex p l) as [j|]; [|discriminate].
    injection H as <-. apply IH. reflexivity.
Qed.

Lemma without_length {A} n (l : list A) x :
  nth_error l n = Some x -> S (List.length (without n l)) = List.length l.
Proof.
  intros H. assert (n < List.length l)%nat by (apply nth_error_Some; congruence).
  unfold without. rewrite length_app, length_firstn, length_skipn. lia.
Qed.

Lemma split_at {A} n (l : list A) x :
  nth_error l n = Some x -> l = firstn n l ++ x :: skipn (S n) l.
Proof.
  revert n. induction l as [|y l IH]; intros [|n] H; cbn in *; try discriminate.
  - congruence.
  - f_equal. apply IH. assumption.
Qed.

Lemma without_insert {A} n (l : list A) x :
  (n <= List.length l)%nat ->
  without n (firstn n l ++ x :: skipn n l) = l /\
  nth_error (firstn n l ++ x :: skipn n l) n = Some x.
Proof.
  intros H. unfold without.
  assert (L : List.length (firstn n l) = n) by (rewrite length_firstn; lia).
  split.
  - rewrite firstn_app, L, Nat.sub_diag, firstn_O, app_nil_r.
    rewrite firstn_all2 by lia.
    rewrite skipn_app, L.
    replace (S n - n)%nat with 1%nat by lia.
    rewrite (skipn_all2 (firstn n l)) by lia.
    cbn [skipn app]. apply firstn_skipn.
  - rewrite nth_error_app2 by lia. rewrite L, Nat.sub_diag. reflexivity.
Qed.

Lemma arrayMove_spec {A} (l : list A) from to x :
  nth_error l from = Some x -> (to < List.length l)%nat ->
  Permutation l (arrayMove l from to) /\
  nth_error (arrayMove l from to) to = Some x /\
  without to (arrayMove l from to) = without from l.
Proof.
  intros Hx Hto. unfold arrayMove. rewrite Hx. fold (without from l).
  pose proof (without_length from l x Hx) as Len.
  destruct (without_insert to (without from l) x ltac:(lia)) as [W N].
  split; [|split; assumption].
  apply Permutation_trans with (x :: without from l).
  - apply Permutation_trans with (firstn from l ++ x :: skipn (S from) l).
    + rewrite <- (split_at from l x Hx). apply Permutation_refl.
    + apply Permutation_sym, Permutation_middle.
  - apply Permutation_trans
      with (x :: firstn to (without from l) ++ skipn to (without from l)).
    + rewrite firstn_skipn. apply Permutation_refl.
    + apply Permutation_middle.
Qed.

(** X18.  A completed row drag only reorders: when [onDragEnd] replaces the
    task list, the new list is a permutation of the old one, the dragged
    task (the first one carrying the active id) sits at the index the
    target row had, the other tasks keep their order, and the scheduled
    [onOrderChanged] call reports the new order of ids and the dragged id. *)
Theorem onDragEnd_reorders tasks e next ids moved :
  onDragEnd tasks e = Some (next, (ids, moved)) ->
  exists a o from to t,
    active e = Some a /\ over e = Some o /\
    findIndex (fun t => UniqueIdentifier_eqb (id t) a) tasks = Some from /\
    findIndex (fun t => UniqueIdentifier_eqb (id t) o) tasks = Some to /\
    from <> to /\
    Permutation tasks next /\
    nth_error tasks from = Some t /\ nth_error next to = Some t /\
    without to next = without from tasks /\
    ids = map (fun t => String_ (id t)) next /\
    moved = String_ a.
Proof.
  unfold onDragEnd. intros H.
  destruct (over e) as [o|]; [|discriminate].
  destruct (active e) as [a|]; [|discriminate].
  destruct (findIndex _ tasks) as [from|] eqn:F; [|discriminate].
  destruct (findIndex (fun t => UniqueIdentifier_eqb (id t) o) tasks) as [to|] eqn:T;
    [|discriminate].
  destruct (Nat.eqb_spec from to) as [E|E]; [discriminate|].
  injection H as <- <- <-.
  destruct (findIndex_Some _ _ _ F) as [t [Ht _]].
  destruct (findIndex_Some _ _ _ T) as [t' [Ht' _]].
  assert (Lt : (to < List.length tasks)%nat) by (apply nth_error_Some; congruence).
  destruct (arrayMove_spec tasks from to t Ht Lt) as (P & N & W).
  exists a, o, from, to, t. repeat split; assumption.
Qed.

Lemma onDragEnd_reorders_witness :
  exists a o from to t,
    active {| active := Some (IdNumber 3); over := Some (IdString "r-1") |} = Some a /\
    over {| active := Some (IdNumber 3); over := Some (IdString "r-1") |} = Some o /\
    findIndex (fun t => UniqueIdentifier_eqb (id t) a) [task10; task20; task30] = Some from /\
    findIndex (fun t => UniqueIdentifier_eqb (id t) o) [task10; task20; task30] = Some to /\
    from <> to /\
    Permutation [task10; task20; task30] [task30; task10; task20] /\
    nth_error [task10; task20; task30] from = Some t /\
    nth_error [task30; task10; task20] to = Some t /\
    without to [task30; task10; task20] = without from [task10; task20; task30] /\
    ["3"; "r-1"; "r-2"] = map (fun t => String_ (id t)) [task30; task10; task20] /\
    "3" = String_ a.
Proof.
  apply (onDragEnd_reorders [task10; task20; task30]
           {| active := Some (IdNumber 3); over := Some (IdString "r-1") |}
           [task30; task10; task20] ["3"; "r-1"; "r-2"] "3").
  vm_compute. reflexivity.
Defined.

(** ** Viewport expansion by the host *)

Lemma days_plain tz vp vs ve :
  vp_start vp = ValidDate vs -> vp_end vp = ValidDate ve -> vs <= ve ->
  days tz vp
  = Some ((ve + tz) / MILLISECONDS_IN_DAY - (vs + tz) / MILLISECONDS_IN_DAY + 1).
Proof.
  intros Hs He H. unfold days, differenceInCalendarDays. rewrite Hs, He.
  cbn [option_map]. pose proof (day_mono tz vs ve H). f_equal. lia.
Qed.

(** X19.  Each expansion by the host widens the chart by thirty days: under
    a valid viewport that is not inverted, [handleReachStart] and
    [handleReachEnd] alike raise the number of days by 30 and the chart's
    width by 480 pixels, the width of the right-edge zone. *)
Theorem expansion_adds_thirty_days tz s vs ve n total :
  viewportStart s = ValidDate vs -> viewportEnd s = ValidDate ve -> vs <= ve ->
  days tz (App_viewport s) = Some n ->
  totalPx tz (App_viewport s) = Some total ->
  days tz (App_viewport (handleReachEnd s)) = Some (n + 30) /\
  totalPx tz (App_viewport (handleReachEnd s)) = Some (total + RIGHT_EDGE_THRESHOLD_PX) /\
  days tz (App_viewport (handleReachStart s)) = Some (n + 30) /\
  totalPx tz (App_viewport (handleReachStart s)) = Some (total + RIGHT_EDGE_THRESHOLD_PX).
Proof.
  intros Hs He H Hn Ht.
  assert (D0 := days_plain tz (App_viewport s) vs ve Hs He H).
  assert (D1 := days_plain tz (App_viewport (handleReachEnd s)) vs
                  (ve + 30 * MILLISECONDS_IN_DAY)).
  assert (D2 := days_plain tz (App_viewport (handleReachStart s))
                  (vs + -30 * MILLISECONDS_IN_DAY) ve).
  cbn [App_viewport handleReachEnd handleReachStart vp_start vp_end
       viewportStart viewportEnd] in D1, D2.
  rewrite Hs, He in D1, D2. cbn [addDays] in D1, D2.
  pose proof MILLISECONDS_IN_DAY_pos as P.
  specialize (D1 eq_refl eq_refl ltac:(lia)). specialize (D2 eq_refl eq_refl ltac:(lia)).
  rewrite day_shift in D1, D2.
  unfold totalPx in *. rewrite D1, D2. rewrite Hn in Ht, D0.
  injection D0 as D0. cbn [option_map] in *. injection Ht as Ht.
  change (pxPerDay (App_viewport (handleReachEnd s))) with 16.
  change (pxPerDay (App_viewport (handleReachStart s))) with 16.
  change (pxPerDay (App_viewport s)) with 16 in Ht.
  unfold RIGHT_EDGE_THRESHOLD_PX.
  repeat split; f_equal; lia.
Qed.

Lemma expansion_adds_thirty_days_witness :
  let s := {| viewportStart := ValidDate 0;
              viewportEnd := ValidDate (100 * MILLISECONDS_IN_DAY) |} in
  days 0 (App_viewport (handleReachEnd s)) = Some (101 + 30) /\
  totalPx 0 (App_viewport (handleReachEnd s)) = Some (1616 + RIGHT_EDGE_THRESHOLD_PX) /\
  days 0 (App_viewport (handleReachStart s)) = Some (101 + 30) /\
  totalPx 0 (App_viewport (handleReachStart s)) = Some (1616 + RIGHT_EDGE_THRESHOLD_PX).
Proof.
  apply (expansion_adds_thirty_days 0
           {| viewportStart := ValidDate 0;
              viewportEnd := ValidDate (100 * MILLISECONDS_IN_DAY) |}
           0 (100 * MILLISECONDS_IN_DAY) 101 1616).
  - reflexivity.
  - reflexivity.
  - vm_compute. discriminate.
  - vm_compute. reflexivity.
  - vm_compute. reflexivity.
Defined.

Lemma bar_inside tz vp row t vs ve s e :
  vp_start vp = ValidDate vs -> vp_end vp = ValidDate ve ->
  start t = Some (ValidDate s) -> end_ t = Some (ValidDate e) ->
  vs <= s <= ve -> vs <= e <= ve ->
  bar tz vp row t
  = if truthy (isSentinel t) then None
    else
      let l := Some (((s + tz) / MILLISECONDS_IN_DAY - (vs + tz) / MILLISECONDS_IN_DAY)
                     * pxPerDay vp) in
      let span := (e + tz) / MILLISECONDS_IN_DAY - (s + tz) / MILLISECONDS_IN_DAY in
      if span =? 0 then Some (Marker (row * 40 + 6) l)
      else Some (Span (row * 40 + 6) l (Some (Z.max 1 (span + 1) * pxPerDay vp))).
Proof.
  intros Hs He Ts Te Is Ie. unfold bar.
  destruct (truthy (isSentinel t)); [reflexivity|].
  rewrite Ts, Te.
  rewrite !(clampedOrNull_inside vp vs ve) by (assumption || lia).
  replace (Z.max vs (Z.min s ve)) with s by lia.
  replace (Z.max vs (Z.min e ve)) with e by lia.
  rewrite Hs. unfold differenceInCalendarDays. cbn [option_map].
  pose proof (day_mono tz vs s ltac:(lia)) as M.
  replace (Z.max 0 ((s + tz) / MILLISECONDS_IN_DAY - (vs + tz) / MILLISECONDS_IN_DAY))
    with ((s + tz) / MILLISECONDS_IN_DAY - (vs + tz) / MILLISECONDS_IN_DAY) by lia.
  cbv zeta.
  destruct ((e + tz) / MILLISECONDS_IN_DAY - (s + tz) / MILLISECONDS_IN_DAY);
    reflexivity.
Qed.

(** X20.  What an expansion does to the bars already drawn: for a task
    whose dates lie inside the viewport, extending the viewport at the end
    leaves its bar as it is, and extending it at the start moves the bar
    480 pixels to the right and changes nothing else (the hook leaves
    [scrollLeft] alone, so the chart jumps under the pointer). *)
Theorem expansion_moves_bars tz s row t :
  inside (App_viewport s) t ->
  bar tz (App_viewport (handleReachEnd s)) row t = bar tz (App_viewport s) row t /\
  bar tz (App_viewport (handleReachStart s)) row t
  = option_map (shifted RIGHT_EDGE_THRESHOLD_PX) (bar tz (App_viewport s) row t).
Proof.
  intros (vs & ve & ts & te & Hs & He & Ts & Te & Is & Ie).
  cbn [App_viewport vp_start vp_end] in Hs, He.
  pose proof MILLISECONDS_IN_DAY_pos as P.
  rewrite (bar_inside tz (App_viewport s) row t vs ve ts te) by assumption.
  rewrite (bar_inside tz (App_viewport (handleReachEnd s)) row t vs
             (ve + 30 * MILLISECONDS_IN_DAY) ts te);
    [| assumption
     | cbn [App_viewport handleReachEnd vp_end viewportEnd]; rewrite He; reflexivity
     | assumption | assumption | lia | lia].
  rewrite (bar_inside tz (App_viewport (handleReachStart s)) row t
             (vs + -30 * MILLISECONDS_IN_DAY) ve ts te);
    [| cbn [App_viewport handleReachStart vp_start viewportStart]; rewrite Hs; reflexivity
     | assumption | assumption | assumption | lia | lia].
  rewrite day_shift.
  change (pxPerDay (App_viewport (handleReachEnd s))) with 16.
  change (pxPerDay (App_viewport (handleReachStart s))) with 16.
  change (pxPerDay (App_viewport s)) with 16.
  split; [reflexivity|].
  destruct (truthy (isSentinel t)); [reflexivity|]. cbv zeta.
  unfold RIGHT_EDGE_THRESHOLD_PX.
  destruct (_ =? 0); cbn [option_map shifted]; do 3 f_equal; lia.
Qed.

Lemma expansion_moves_bars_witness :
  let s := {| viewportStart := ValidDate 0;
              viewportEnd := ValidDate (100 * MILLISECONDS_IN_DAY) |} in
  bar 0 (App_viewport (handleReachEnd s)) 0 task10 = bar 0 (App_viewport s) 0 task10 /\
  bar 0 (App_viewport (handleReachStart s)) 0 task10
  = option_map (shifted RIGHT_EDGE_THRESHOLD_PX) (bar 0 (App_viewport s) 0 task10).
Proof.
  apply (expansion_moves_bars 0
           {| viewportStart := ValidDate 0;
              viewportEnd := ValidDate (100 * MILLISECONDS_IN_DAY) |} 0 task10).
  exists 0, (100 * MILLISECONDS_IN_DAY), (10 * MILLISECONDS_IN_DAY),
    (12 * MILLISECONDS_IN_DAY).
  repeat split; try reflexivity; vm_compute; discriminate.
Defined.
